(** * Reliable multicast with Lamport clocks: model and properties

    A shallow embedding of [lamport_clock.py], [message.py],
    [reliable_multicast.py], [network.py] and [process.py].  Python
    integers are [Z]; [str] is [string]; [bytes] is a list of bytes;
    [Set[int]] and [Set[str]] are [gset]; dictionaries are [gmap]; the
    ordering queue (a [deque]) is a [list].  Mutable objects become
    explicit state passing: every method takes the object's state and
    returns the new state next to what it returns or emits. *)

From Stdlib Require Import ZArith QArith Qminmax String Ascii List Lia.
From Stdlib Require Import DecimalString.
From Stdlib Require Strings.Byte.
From stdpp Require Import gmap strings list fin_maps sorting.

Close Scope Q_scope.
Open Scope Z_scope.
Set Warnings "-clear-no-such-hyp".

(** ** lamport_clock.py *)

Module LamportClock.

(** The object's only mutable field is [_clock]; a clock state is that
    integer.  Every method runs under the object's lock, so a method is
    one atomic transition: it returns its result and the new state. *)
Definition t := Z.

(** [__init__]: [self._clock = 0]. *)
Definition init : t := 0.

(** [tick]: [self._clock += 1; return self._clock]. *)
Definition tick (clock : t) : Z * t :=
  let clock' := clock + 1 in (clock', clock').

(** [update]: [self._clock = max(self._clock, received_timestamp) + 1]. *)
Definition update (received_timestamp : Z) (clock : t) : Z * t :=
  let clock' := Z.max clock received_timestamp + 1 in (clock', clock').

(** [get_time]: [return self._clock]. *)
Definition get_time (clock : t) : Z * t := (clock, clock).

(** The two operations that advance the clock. *)
Inductive op :=
| Tick
| Update (received_timestamp : Z).

Definition step (o : op) (clock : t) : Z * t :=
  match o with
  | Tick => tick clock
  | Update ts => update ts clock
  end.

(** The values returned by a sequence of successive operations. *)
Fixpoint observed (ops : list op) (clock : t) : list Z :=
  match ops with
  | [] => []
  | o :: ops' => let '(v, clock') := step o clock in v :: observed ops' clock'
  end.

End LamportClock.

(** ** message.py *)

Module Message.

(** *** Identifiers drawn by [uuid.uuid4()]

    A draw is the 128-bit integer of the UUID; [str(uuid)] prints it as
    32 lower-case hexadecimal digits in groups of 8-4-4-4-12.  The draws
    are an explicit argument of every function that calls [uuid4]. *)

Definition hex_digit (d : N) : ascii :=
  match d with
  | 0 => "0" | 1 => "1" | 2 => "2" | 3 => "3" | 4 => "4" | 5 => "5"
  | 6 => "6" | 7 => "7" | 8 => "8" | 9 => "9" | 10 => "a" | 11 => "b"
  | 12 => "c" | 13 => "d" | 14 => "e" | _ => "f"
  end%N%char.

(** ['%0kx' % n], for [n < 16^k]. *)
Fixpoint hex_fixed (k : nat) (n : N) : list ascii :=
  match k with
  | O => []
  | S k' => hex_fixed k' (n / 16)%N ++ [hex_digit (n mod 16)%N]
  end.

Definition dash : ascii := "-"%char.

(** [UUID.__str__]: [hex[:8]-hex[8:12]-hex[12:16]-hex[16:20]-hex[20:]],
    where [hex = '%032x' % self.int]. *)
Definition grouped (hex : list ascii) : list ascii :=
  take 8 hex ++ dash :: take 4 (drop 8 hex) ++ dash ::
  take 4 (drop 12 hex) ++ dash :: take 4 (drop 16 hex) ++ dash ::
  drop 20 hex.

Definition uuid_str (u : N) : string :=
  string_of_list_ascii (grouped (hex_fixed 32 u)).

(** A digit read back as a number (used to tell digits apart). *)
Definition hex_value (c : ascii) : N :=
  match find (fun d => bool_decide (hex_digit d = c))
             [0; 1; 2; 3; 4; 5; 6; 7; 8; 9; 10; 11; 12; 13; 14; 15]%N with
  | Some d => d
  | None => 0%N
  end.

(** *** The enumeration [MessageType] *)

Inductive MessageType := MULTICAST | ACK | HEARTBEAT | JOIN | LEAVE.

#[global] Instance MessageType_eq_dec : EqDecision MessageType.
Proof. solve_decision. Defined.

(** [MessageType.value]. *)
Definition value (t : MessageType) : string :=
  match t with
  | MULTICAST => "multicast"
  | ACK => "acknowledgment"
  | HEARTBEAT => "heartbeat"
  | JOIN => "join"
  | LEAVE => "leave"
  end.

Definition all_types : list MessageType :=
  [MULTICAST; ACK; HEARTBEAT; JOIN; LEAVE].

(** [MessageType(v)]: the member whose value is [v]; [None] stands for
    the [ValueError] the enumeration raises when there is none. *)
Definition MessageType_of_value (v : string) : option MessageType :=
  find (fun t => bool_decide (value t = v)) all_types.

(** *** The dataclasses

    [AckMessage] and [MulticastMessage] extend [Message]; the base
    fields are the first projection of each extension. *)

Record Message := {
  message_id : string;
  sender_id : Z;
  message_type : MessageType;
  timestamp : Z;
  content : string;
  recipients : list Z
}.

Record AckMessage := {
  ack_base :> Message;
  original_message_id : string
}.

Record MulticastMessage := {
  multicast_base :> Message;
  sequence_number : Z;
  requires_ack : bool
}.

(** A value of static type [Message] is an object of one of the three
    classes. *)
Inductive AnyMessage :=
| Base (m : Message)
| Ack (a : AckMessage)
| Multicast (m : MulticastMessage).

(** The fields every class has. *)
Definition base (m : AnyMessage) : Message :=
  match m with
  | Base b => b
  | Ack a => ack_base a
  | Multicast mc => multicast_base mc
  end.

#[global] Instance Message_eq_dec : EqDecision Message.
Proof. solve_decision. Defined.
#[global] Instance AckMessage_eq_dec : EqDecision AckMessage.
Proof. solve_decision. Defined.
#[global] Instance MulticastMessage_eq_dec : EqDecision MulticastMessage.
Proof. solve_decision. Defined.
#[global] Instance AnyMessage_eq_dec : EqDecision AnyMessage.
Proof. solve_decision. Defined.

Definition set_message_type (t : MessageType) (m : Message) : Message :=
  {| message_id := message_id m; sender_id := sender_id m;
     message_type := t; timestamp := timestamp m;
     content := content m; recipients := recipients m |}.

(** [Message.__init__] followed by [Message.__post_init__]: an absent
    recipient list becomes [[]], and an empty [message_id] is replaced by
    a fresh UUID string ([u] is the draw, used only in that case). *)
Definition Message_new (u : N) (message_id : string) (sender_id : Z)
    (message_type : MessageType) (timestamp : Z) (content : string)
    (recipients : option (list Z)) : Message :=
  {| message_id := if bool_decide (message_id = "") then uuid_str u
                   else message_id;
     sender_id := sender_id;
     message_type := message_type;
     timestamp := timestamp;
     content := content;
     recipients := default [] recipients |}.

(** [AckMessage(...)]: the base initialisation, then
    [self.message_type = MessageType.ACK]. *)
Definition AckMessage_new (u : N) (message_id : string) (sender_id : Z)
    (message_type : MessageType) (timestamp : Z) (content : string)
    (recipients : option (list Z)) (original_message_id : string)
    : AckMessage :=
  {| ack_base :=
       set_message_type ACK
         (Message_new u message_id sender_id message_type timestamp
                      content recipients);
     original_message_id := original_message_id |}.

(** [MulticastMessage(...)]: the base initialisation, then
    [self.message_type = MessageType.MULTICAST]. *)
Definition MulticastMessage_new (u : N) (message_id : string)
    (sender_id : Z) (message_type : MessageType) (timestamp : Z)
    (content : string) (recipients : option (list Z))
    (sequence_number : Z) (requires_ack : bool) : MulticastMessage :=
  {| multicast_base :=
       set_message_type MULTICAST
         (Message_new u message_id sender_id message_type timestamp
                      content recipients);
     sequence_number := sequence_number;
     requires_ack := requires_ack |}.

(** [MessageFactory.create_multicast]: the identifier is
    [str(uuid.uuid4())], drawn as [u]; [requires_ack] keeps its default. *)
Definition create_multicast (u : N) (sender_id timestamp : Z)
    (content : string) (recipients : list Z) (sequence_number : Z)
    : MulticastMessage :=
  MulticastMessage_new u (uuid_str u) sender_id MULTICAST timestamp
                       content (Some recipients) sequence_number true.

(** [MessageFactory.create_ack]: content ["ACK"], no recipients given. *)
Definition create_ack (u : N) (sender_id timestamp : Z)
    (original_message_id : string) : AckMessage :=
  AckMessage_new u (uuid_str u) sender_id ACK timestamp "ACK" None
                 original_message_id.

(** *** The wire document

    [to_json] ends in [json.dumps] and [from_json] starts with
    [json.loads]; both belong to Python's library.  A wire text is
    represented by the JSON document it denotes, the value [json.loads]
    returns for it: texts that [json.loads] rejects never reach the code
    below.  An object lists its members in insertion order, each key
    once, as a Python [dict] does.  Numbers are the integers: no field
    of a message is annotated with a fractional type. *)

#[local] Unset Elimination Schemes.
Inductive json :=
| JNull
| JBool (b : bool)
| JInt (z : Z)
| JStr (s : string)
| JArr (items : list json)
| JObj (members : list (string * json)).
#[local] Set Elimination Schemes.

(** [d.get(k)] on the members of an object. *)
Fixpoint dict_get (k : string) (members : list (string * json))
    : option json :=
  match members with
  | [] => None
  | (k', v) :: rest => if bool_decide (k' = k) then Some v else dict_get k rest
  end.

(** What a call of [from_json] can raise.  [TypeError]: the document is
    not an object, so [data['message_type']] fails.  [KeyError k]: a
    required member is absent.  [ValueError]: [MessageType(...)] knows no
    such value.  The source never checks the type of a member; a
    document in which a member that is present does not have the type
    its field is annotated with is outside this model and is reported as
    [Untyped], which is not an exception of the source. *)
Inductive Error :=
| TypeError
| KeyError (k : string)
| ValueError
| Untyped.

Definition result (A : Type) : Type := Error + A.

Definition bind {A B} (r : result A) (f : A -> result B) : result B :=
  match r with
  | inl e => inl e
  | inr a => f a
  end.

Notation "x <- r ;; k" := (bind r (fun x => k))
  (at level 100, r at next level, right associativity).

(** [data[k]]. *)
Definition subscript (k : string) (data : list (string * json))
    : result json :=
  match dict_get k data with
  | Some v => inr v
  | None => inl (KeyError k)
  end.

Definition as_str (v : json) : result string :=
  match v with JStr s => inr s | _ => inl Untyped end.

Definition as_int (v : json) : result Z :=
  match v with JInt z => inr z | _ => inl Untyped end.

Definition as_bool (v : json) : result bool :=
  match v with JBool b => inr b | _ => inl Untyped end.

Fixpoint as_int_list (items : list json) : result (list Z) :=
  match items with
  | [] => inr []
  | v :: rest =>
      z <- as_int v ;; zs <- as_int_list rest ;; inr (z :: zs)
  end.

(** The [recipients] argument: [data.get('recipients', [])] is the
    empty list when the member is absent, [None] when it is [null]. *)
Definition get_recipients (data : list (string * json))
    : result (option (list Z)) :=
  match dict_get "recipients" data with
  | None => inr (Some [])
  | Some JNull => inr None
  | Some (JArr items) => zs <- as_int_list items ;; inr (Some zs)
  | Some _ => inl Untyped
  end.

(** [data.get(k, d)] read at a field type. *)
Definition get_default {A} (cast : json -> result A) (k : string) (d : A)
    (data : list (string * json)) : result A :=
  match dict_get k data with
  | None => inr d
  | Some v => cast v
  end.

(** [asdict(self)] with ['message_type'] replaced by the member's value:
    the fields in declaration order, base class first. *)
Definition base_members (m : Message) : list (string * json) :=
  [ ("message_id", JStr (message_id m));
    ("sender_id", JInt (sender_id m));
    ("message_type", JStr (value (message_type m)));
    ("timestamp", JInt (timestamp m));
    ("content", JStr (content m));
    ("recipients", JArr (map JInt (recipients m))) ].

(** [Message.to_json], inherited by both subclasses. *)
Definition to_json (m : AnyMessage) : json :=
  match m with
  | Base b => JObj (base_members b)
  | Ack a =>
      JObj (base_members a ++
            [("original_message_id", JStr (original_message_id a))])
  | Multicast mc =>
      JObj (base_members mc ++
            [("sequence_number", JInt (sequence_number mc));
             ("requires_ack", JBool (requires_ack mc))])
  end.

(** [Message.from_json].  [u] is the UUID that [__post_init__] draws
    when the document's [message_id] is empty.  The four subscripts
    common to the three branches are evaluated in the order of the
    keyword arguments; the type casts stand for the field annotations. *)
Definition from_json (u : N) (doc : json) : result AnyMessage :=
  match doc with
  | JObj data =>
      tv <- subscript "message_type" data ;;
      match tv with
      | JStr t =>
          match MessageType_of_value t with
          | None => inl ValueError
          | Some message_type =>
              idv <- subscript "message_id" data ;;
              senderv <- subscript "sender_id" data ;;
              tsv <- subscript "timestamp" data ;;
              contentv <- subscript "content" data ;;
              id <- as_str idv ;;
              sender <- as_int senderv ;;
              ts <- as_int tsv ;;
              content <- as_str contentv ;;
              recipients <- get_recipients data ;;
              match message_type with
              | MULTICAST =>
                  seq <- get_default as_int "sequence_number" 0 data ;;
                  ack <- get_default as_bool "requires_ack" true data ;;
                  inr (Multicast
                         (MulticastMessage_new u id sender message_type ts
                            content recipients seq ack))
              | ACK =>
                  orig <- get_default as_str "original_message_id" "" data ;;
                  inr (Ack
                         (AckMessage_new u id sender message_type ts
                            content recipients orig))
              | _ =>
                  inr (Base
                         (Message_new u id sender message_type ts
                            content recipients))
              end
          end
      | _ => inl ValueError
      end
  | _ => inl TypeError
  end.

End Message.

(** ** reliable_multicast.py *)

Module ReliableMulticast.
Import Message.

(** Wall-clock readings of [time.time()], in seconds. *)
Definition time := Q.

(** [PendingMessage]. *)
Record PendingMessage := {
  message : MulticastMessage;
  sent_time : time;
  ack_received : gset Z;
  retry_count : Z
}.

(** The fields of a [ReliableMulticast] object that its methods read or
    write.  [lamport_clock] is the state of the clock object the engine
    shares with its process.  The two callbacks are optional attributes;
    the record keeps whether each one is installed.  [received_messages]
    and [message_queue] hold the inbound objects themselves, whatever
    their class. *)
Record t := {
  process_id : Z;
  lamport_clock : LamportClock.t;
  pending_messages : gmap string PendingMessage;
  received_messages : gmap string AnyMessage;
  delivered_messages : gset string;
  message_queue : list AnyMessage;
  sequence_numbers : gmap Z Z;
  known_processes : gset Z;
  on_message_delivered : bool;
  on_message_failed : bool
}.

(** [self.ack_timeout = 5.0] and [self.max_retries = 3]. *)
Definition ack_timeout : time := 5%Q.
Definition max_retries : Z := 3.

(** What the engine does to the outside: calls of [send_callback] and of
    the two callbacks. *)
Inductive Event :=
| Send (m : AnyMessage) (target : Z)
| Delivered (m : AnyMessage)
| Failed (m : MulticastMessage).

#[global] Instance Event_eq_dec : EqDecision Event.
Proof. solve_decision. Defined.

(** [__init__], without the thread it starts. *)
Definition init (process_id : Z) (clock : LamportClock.t) : t :=
  {| process_id := process_id;
     lamport_clock := clock;
     pending_messages := ∅;
     received_messages := ∅;
     delivered_messages := ∅;
     message_queue := [];
     sequence_numbers := ∅;
     known_processes := {[ process_id ]};
     on_message_delivered := false;
     on_message_failed := false |}.

(** Field updates. *)
Definition set_lamport_clock (c : LamportClock.t) (s : t) : t :=
  {| process_id := process_id s; lamport_clock := c;
     pending_messages := pending_messages s;
     received_messages := received_messages s;
     delivered_messages := delivered_messages s;
     message_queue := message_queue s;
     sequence_numbers := sequence_numbers s;
     known_processes := known_processes s;
     on_message_delivered := on_message_delivered s;
     on_message_failed := on_message_failed s |}.

Definition set_pending_messages (p : gmap string PendingMessage) (s : t) : t :=
  {| process_id := process_id s; lamport_clock := lamport_clock s;
     pending_messages := p;
     received_messages := received_messages s;
     delivered_messages := delivered_messages s;
     message_queue := message_queue s;
     sequence_numbers := sequence_numbers s;
     known_processes := known_processes s;
     on_message_delivered := on_message_delivered s;
     on_message_failed := on_message_failed s |}.

Definition set_received_messages (r : gmap string AnyMessage) (s : t) : t :=
  {| process_id := process_id s; lamport_clock := lamport_clock s;
     pending_messages := pending_messages s;
     received_messages := r;
     delivered_messages := delivered_messages s;
     message_queue := message_queue s;
     sequence_numbers := sequence_numbers s;
     known_processes := known_processes s;
     on_message_delivered := on_message_delivered s;
     on_message_failed := on_message_failed s |}.

Definition set_delivered_messages (d : gset string) (s : t) : t :=
  {| process_id := process_id s; lamport_clock := lamport_clock s;
     pending_messages := pending_messages s;
     received_messages := received_messages s;
     delivered_messages := d;
     message_queue := message_queue s;
     sequence_numbers := sequence_numbers s;
     known_processes := known_processes s;
     on_message_delivered := on_message_delivered s;
     on_message_failed := on_message_failed s |}.

Definition set_message_queue (q : list AnyMessage) (s : t) : t :=
  {| process_id := process_id s; lamport_clock := lamport_clock s;
     pending_messages := pending_messages s;
     received_messages := received_messages s;
     delivered_messages := delivered_messages s;
     message_queue := q;
     sequence_numbers := sequence_numbers s;
     known_processes := known_processes s;
     on_message_delivered := on_message_delivered s;
     on_message_failed := on_message_failed s |}.

Definition set_sequence_numbers (n : gmap Z Z) (s : t) : t :=
  {| process_id := process_id s; lamport_clock := lamport_clock s;
     pending_messages := pending_messages s;
     received_messages := received_messages s;
     delivered_messages := delivered_messages s;
     message_queue := message_queue s;
     sequence_numbers := n;
     known_processes := known_processes s;
     on_message_delivered := on_message_delivered s;
     on_message_failed := on_message_failed s |}.

Definition set_known_processes (k : gset Z) (s : t) : t :=
  {| process_id := process_id s; lamport_clock := lamport_clock s;
     pending_messages := pending_messages s;
     received_messages := received_messages s;
     delivered_messages := delivered_messages s;
     message_queue := message_queue s;
     sequence_numbers := sequence_numbers s;
     known_processes := k;
     on_message_delivered := on_message_delivered s;
     on_message_failed := on_message_failed s |}.

(** [add_known_process]. *)
Definition add_known_process (pid : Z) (s : t) : t :=
  set_known_processes (known_processes s ∪ {[ pid ]}) s.

(** [multicast].  [u] is the UUID the factory draws and [now] the
    reading of [time.time()].  Returns the message identifier, the new
    state and the calls of [send_callback], in order. *)
Definition multicast (content : string) (recipients : option (list Z))
    (u : N) (now : time) (s : t) : string * t * list Event :=
  let recipients :=
    match recipients with
    | None => elements (known_processes s ∖ {[ process_id s ]})
    | Some l => l
    end in
  let '(timestamp, clock) := LamportClock.tick (lamport_clock s) in
  let sequence_num := default 0 (sequence_numbers s !! process_id s) in
  let message :=
    create_multicast u (process_id s) timestamp content recipients
                     sequence_num in
  let entry :=
    {| message := message; sent_time := now; ack_received := ∅;
       retry_count := 0 |} in
  let s' :=
    set_pending_messages
      (<[message_id message := entry]> (pending_messages s))
      (set_sequence_numbers
         (<[process_id s := sequence_num + 1]> (sequence_numbers s))
         (set_lamport_clock clock s)) in
  (message_id message, s', map (Send (Multicast message)) recipients).

(** The comparison both queue routines make: [a] goes before [b] when
    its timestamp is smaller, or equal with a smaller sender. *)
Definition precedes (a b : Message) : bool :=
  (timestamp a <? timestamp b) ||
  ((timestamp a =? timestamp b) && (sender_id a <? sender_id b)).

(** [_add_to_ordered_queue]: insert before the first queued message
    that the new one precedes, else append. *)
Fixpoint insert_ordered (m : AnyMessage) (queue : list AnyMessage)
    : list AnyMessage :=
  match queue with
  | [] => [m]
  | queued_msg :: rest =>
      if precedes (base m) (base queued_msg) then m :: queued_msg :: rest
      else queued_msg :: insert_ordered m rest
  end.

Definition add_to_ordered_queue (m : AnyMessage) (s : t) : t :=
  set_message_queue (insert_ordered m (message_queue s)) s.

(** The inner [for] of [_try_deliver_messages]: [can_deliver] stays
    true unless some message behind the head precedes it. *)
Definition can_deliver (head : AnyMessage) (others : list AnyMessage)
    : bool :=
  forallb (fun other_msg => negb (precedes (base other_msg) (base head)))
          others.

(** The call of [on_message_delivered], made when it is installed. *)
Definition call_delivered (s : t) (m : AnyMessage) : list Event :=
  if on_message_delivered s then [Delivered m] else [].

(** The [while] loop of [_try_deliver_messages], on the queue and the
    delivered set: each iteration looks at the head and either pops it
    and goes on with the rest, or breaks.  Returns the queue and the set
    the loop ends with and the messages delivered, in order. *)
Fixpoint deliver_loop (queue : list AnyMessage) (delivered : gset string)
    : list AnyMessage * gset string * list AnyMessage :=
  match queue with
  | [] => ([], delivered, [])
  | head :: rest =>
      if can_deliver head rest
         && bool_decide (message_id (base head) ∉ delivered)
      then
        let '(queue', delivered', out) :=
          deliver_loop rest (delivered ∪ {[ message_id (base head) ]}) in
        (queue', delivered', head :: out)
      else (queue, delivered, [])
  end.

(** [_try_deliver_messages]. *)
Definition try_deliver_messages (s : t) : t * list Event :=
  let '(queue, delivered, out) :=
    deliver_loop (message_queue s) (delivered_messages s) in
  (set_delivered_messages delivered (set_message_queue queue s),
   flat_map (call_delivered s) out).

(** [_handle_multicast_message].  [u] is the UUID drawn for the
    acknowledgment.  The method reads only fields of the base class. *)
Definition handle_multicast_message (m : AnyMessage) (u : N) (s : t)
    : t * list Event :=
  if bool_decide (message_id (base m) ∈ dom (received_messages s))
  then (s, [])
  else
    let s1 := add_known_process (sender_id (base m)) s in
    let s2 :=
      set_received_messages
        (<[message_id (base m) := m]> (received_messages s1)) s1 in
    let '(ack_timestamp, clock) := LamportClock.tick (lamport_clock s2) in
    let s3 := set_lamport_clock clock s2 in
    let ack_message :=
      create_ack u (process_id s3) ack_timestamp (message_id (base m)) in
    let s4 := add_to_ordered_queue m s3 in
    let '(s5, delivered) := try_deliver_messages s4 in
    (s5, Send (Ack ack_message) (sender_id (base m)) :: delivered).

Definition set_ack_received (a : gset Z) (p : PendingMessage)
    : PendingMessage :=
  {| message := message p; sent_time := sent_time p; ack_received := a;
     retry_count := retry_count p |}.

(** [_handle_ack_message]: the sender joins [ack_received] of the entry
    the acknowledgment names; the entry goes once the set is at least
    as long as the recipient list. *)
Definition handle_ack_message (ack : AckMessage) (s : t) : t :=
  let original_msg_id := original_message_id ack in
  match pending_messages s !! original_msg_id with
  | Some pending =>
      let pending' :=
        set_ack_received (ack_received pending ∪ {[ sender_id ack ]})
                         pending in
      if Z.of_nat (length (recipients (message pending')))
         <=? Z.of_nat (size (ack_received pending'))
      then set_pending_messages
             (delete original_msg_id (pending_messages s)) s
      else set_pending_messages
             (<[original_msg_id := pending']> (pending_messages s)) s
  | None => s
  end.

(** [handle_received_message]: the clock first, then the dispatch on
    the [message_type] field.  An object whose field says [ACK] but
    whose class has no [original_message_id] makes the source raise
    [AttributeError] right after the clock update; the state returned
    for it is the state at that point. *)
Definition handle_received_message (m : AnyMessage) (u : N) (s : t)
    : t * list Event :=
  let '(_, clock) :=
    LamportClock.update (timestamp (base m)) (lamport_clock s) in
  let s := set_lamport_clock clock s in
  match message_type (base m) with
  | MULTICAST => handle_multicast_message m u s
  | ACK =>
      match m with
      | Ack a => (handle_ack_message a s, [])
      | _ => (s, [])
      end
  | _ => (s, [])
  end.

(** [current_time - pending.sent_time > self.ack_timeout]. *)
Definition timed_out (now : time) (p : PendingMessage) : bool :=
  negb (Qle_bool (now - sent_time p)%Q ack_timeout).

Definition wants_retry (now : time) (p : PendingMessage) : bool :=
  timed_out now p && (retry_count p <? max_retries).

Definition wants_fail (now : time) (p : PendingMessage) : bool :=
  timed_out now p && negb (retry_count p <? max_retries).

(** The retry loop's update of one entry. *)
Definition retried (now : time) (p : PendingMessage) : PendingMessage :=
  {| message := message p; sent_time := now;
     ack_received := ack_received p; retry_count := retry_count p + 1 |}.

(** [set(pending.message.recipients) - pending.ack_received]. *)
Definition missing_acks (p : PendingMessage) : gset Z :=
  list_to_set (recipients (message p)) ∖ ack_received p.

Definition retransmit (p : PendingMessage) : list Event :=
  map (Send (Multicast (message p))) (elements (missing_acks p)).

Definition call_failed (s : t) (p : PendingMessage) : list Event :=
  if on_message_failed s then [Failed (message p)] else [].

(** One round of [_timeout_checker] after its [sleep], at time [now].
    The first loop sorts the timed-out entries of a snapshot of the
    table into [messages_to_retry] and [messages_to_fail] and deletes
    the latter; the second updates each entry to retry, which is the
    object the table still holds, and resends; the third reports the
    failures.  The entries come in the order the table lists them; the
    recipients of one entry in the order the set lists them. *)
Definition timeout_checker (now : time) (s : t) : t * list Event :=
  let items := map_to_list (pending_messages s) in
  let messages_to_retry := filter (fun kp => wants_retry now kp.2) items in
  let messages_to_fail := filter (fun kp => wants_fail now kp.2) items in
  let after_delete :=
    foldl (fun table kp => delete kp.1 table) (pending_messages s)
          messages_to_fail in
  let after_retry :=
    foldl (fun table kp => <[kp.1 := retried now kp.2]> table) after_delete
          messages_to_retry in
  (set_pending_messages after_retry s,
   flat_map (fun kp => retransmit kp.2) messages_to_retry ++
   flat_map (fun kp => call_failed s kp.2) messages_to_fail).

(** The calls the engine receives from its process and its own thread. *)
Inductive Op :=
| OpMulticast (content : string) (recipients : option (list Z)) (u : N)
              (now : time)
| OpReceive (m : AnyMessage) (u : N)
| OpTimeout (now : time)
| OpAddKnownProcess (pid : Z).

Definition step (o : Op) (s : t) : t * list Event :=
  match o with
  | OpMulticast content recipients u now =>
      let '(_, s', sent) := multicast content recipients u now s in (s', sent)
  | OpReceive m u => handle_received_message m u s
  | OpTimeout now => timeout_checker now s
  | OpAddKnownProcess pid => (add_known_process pid s, [])
  end.

(** A run: the calls one after the other, and everything they emit. *)
Fixpoint run (ops : list Op) (s : t) : t * list Event :=
  match ops with
  | [] => (s, [])
  | o :: ops' =>
      let '(s1, ev1) := step o s in
      let '(s2, ev2) := run ops' s1 in
      (s2, ev1 ++ ev2)
  end.

End ReliableMulticast.

(** ** network.py *)

Module Network.
Import Message.

Definition bytes := list Byte.byte.

(** The fields of a [NetworkManager] that the methods below read or
    write.  [on_message_received] is an optional callback; the field
    records whether it is installed.  The server socket and its thread
    belong to the operating system and are not part of the state. *)
Record t := {
  process_id : Z;
  host : string;
  port : Z;
  on_message_received : bool;
  connection_cache : gmap Z (string * Z)
}.

(** [__init__]: [port or (8000 + process_id)] replaces an absent port,
    and a port 0, by the port derived from the identifier. *)
Definition init (process_id : Z) (host : string) (port : option Z) : t :=
  {| process_id := process_id;
     host := host;
     port := match port with
             | Some p => if bool_decide (p = 0) then 8000 + process_id else p
             | None => 8000 + process_id
             end;
     on_message_received := false;
     connection_cache := ∅ |}.

Definition set_connection_cache (c : gmap Z (string * Z)) (s : t) : t :=
  {| process_id := process_id s; host := host s; port := port s;
     on_message_received := on_message_received s;
     connection_cache := c |}.

Definition set_on_message_received (b : bool) (s : t) : t :=
  {| process_id := process_id s; host := host s; port := port s;
     on_message_received := b;
     connection_cache := connection_cache s |}.

(** [_get_process_address]: the cached address, else [localhost] and
    the port derived from the identifier, which is then cached. *)
Definition get_process_address (process_id : Z) (s : t)
    : (string * Z) * t :=
  match connection_cache s !! process_id with
  | Some address => (address, s)
  | None =>
      let host := "localhost" in
      let port := 8000 + process_id in
      ((host, port),
       set_connection_cache
         (<[process_id := (host, port)]> (connection_cache s)) s)
  end.

(** [register_process]. *)
Definition register_process (process_id : Z) (host : string) (port : Z)
    (s : t) : t :=
  set_connection_cache (<[process_id := (host, port)]> (connection_cache s)) s.

(** [get_own_address]. *)
Definition get_own_address (s : t) : string * Z := (host s, port s).

(** *** The length prefix *)

Definition byte_of_N (n : N) : Byte.byte :=
  default Byte.x00 (Byte.of_N (n mod 256)).

(** The [length] low bytes of [n], most significant first. *)
Fixpoint big_endian (length : nat) (n : N) : bytes :=
  match length with
  | O => []
  | S length' => big_endian length' (n / 256) ++ [byte_of_N n]
  end.

(** [n.to_bytes(length, byteorder='big')]; [None] is the
    [OverflowError] raised when [n] does not fit. *)
Definition to_bytes (n : N) (length : nat) : option bytes :=
  if (n <? 256 ^ N.of_nat length)%N then Some (big_endian length n)
  else None.

(** [int.from_bytes(b, byteorder='big')]. *)
Definition from_bytes (b : bytes) : N :=
  foldl (fun acc x => (acc * 256 + Byte.to_N x)%N) 0%N b.

(** *** The connection

    A connected socket, seen from the reading side, is the sequence of
    segments in which the peer's bytes arrive.  [recv(bufsize)] returns
    at most [bufsize] bytes of the first segment and leaves the rest in
    front; an empty segment is the end of the stream ([recv] returns
    [b'']); when no segment is left the read times out, which raises
    [socket.timeout]. *)
Definition socket := list bytes.

(** [sock.recv(bufsize)]; [None] is the exception. *)
Definition recv (bufsize : nat) (sock : socket) : option bytes * socket :=
  match sock with
  | [] => (None, [])
  | [] :: _ => (Some [], sock)
  | seg :: rest =>
      if (length seg <=? bufsize)%nat then (Some seg, rest)
      else (Some (take bufsize seg), drop bufsize seg :: rest)
  end.

(** The loop of [_recv_all] with [data] read so far.  In the last case
    the chunk completes [data], so the next test of the loop condition
    ends the loop. *)
Fixpoint recv_all_from (data : bytes) (size : nat) (sock : socket)
    {struct sock} : option bytes * socket :=
  if (size <=? length data)%nat then (Some data, sock)
  else
    match sock with
    | [] => (None, [])
    | [] :: _ => (Some [], sock)
    | seg :: rest =>
        if (length seg <=? size - length data)%nat
        then recv_all_from (data ++ seg) size rest
        else (Some (data ++ take (size - length data) seg),
              drop (size - length data) seg :: rest)
    end.

(** [_recv_all]: exactly [size] bytes, or [b''] when the stream ends
    first; [None] when a read raises. *)
Definition recv_all (sock : socket) (size : nat) : option bytes * socket :=
  recv_all_from [] size sock.

(** What a call of [_handle_client] does with the connection: it hands
    a message to [on_message_received], or it ends without doing so (an
    early [return], an exception caught and printed, or no callback
    installed).  [Unmodelled] marks a document in which a member does
    not have the type of its field. *)
Inductive Handled :=
| Received (message : AnyMessage)
| Dropped
| Unmodelled.

(** [_handle_client].  [loads] stands for [decode('utf-8')] followed by
    [json.loads] ([None] when either raises); [u] is the draw
    [from_json] may need. *)
Definition handle_client (loads : bytes -> option json) (u : N)
    (client_socket : socket) (s : t) : Handled :=
  match recv_all client_socket 4 with
  | (None, _) => Dropped
  | (Some size_data, client_socket) =>
      if bool_decide (size_data = []) then Dropped
      else
        let message_size := from_bytes size_data in
        match recv_all client_socket (N.to_nat message_size) with
        | (None, _) => Dropped
        | (Some message_data, _) =>
            if bool_decide (message_data = []) then Dropped
            else
              match loads message_data with
              | None => Dropped
              | Some doc =>
                  match from_json u doc with
                  | inr message =>
                      if on_message_received s then Received message
                      else Dropped
                  | inl Untyped => Unmodelled
                  | inl _ => Dropped
                  end
              end
        end
  end.

(** [send_message].  [dumps] stands for [json.dumps] followed by
    [encode('utf-8')]; [connects] tells whether the connection to the
    target is made and carries the frame.  Returns the result, the
    address and the bytes sent when something was sent, and the new
    state. *)
Definition send_message (dumps : json -> bytes) (connects : bool)
    (message : AnyMessage) (target_process_id : Z) (s : t)
    : bool * option (string * Z * bytes) * t :=
  let '(address, s') := get_process_address target_process_id s in
  if connects then
    let message_data := dumps (to_json message) in
    let message_size := N.of_nat (length message_data) in
    match to_bytes message_size 4 with
    | Some size_bytes =>
        (true, Some (address, size_bytes ++ message_data), s')
    | None => (false, None, s')
    end
  else (false, None, s').

(** [wait_for_connection].  [attempts] are the outcomes of the
    connection attempts the loop makes before its timeout, in order:
    each round resolves the address (and caches it), and the first
    attempt that connects ends the loop. *)
Fixpoint wait_for_connection (attempts : list bool) (target_process_id : Z)
    (s : t) : bool * t :=
  match attempts with
  | [] => (false, s)
  | connected :: later =>
      let '(_, s) := get_process_address target_process_id s in
      if connected then (true, s)
      else wait_for_connection later target_process_id s
  end.

(** [discover_processes]; [attempts i] are the attempts made for the
    i-th identifier of the list. *)
Fixpoint discover_processes (attempts : nat -> list bool)
    (process_ids : list Z) (s : t) : list Z * t :=
  match process_ids with
  | [] => ([], s)
  | pid :: rest =>
      if bool_decide (pid = process_id s) then
        let '(online, s') :=
          discover_processes (fun i => attempts (S i)) rest s in
        (pid :: online, s')
      else
        let '(ok, s1) := wait_for_connection (attempts 0%nat) pid s in
        let '(online, s') :=
          discover_processes (fun i => attempts (S i)) rest s1 in
        (if ok then pid :: online else online, s')
  end.

End Network.

(** ** process.py *)

Module Process.
Import Message.

(** Readings of [datetime.now()]. *)
Definition time := ReliableMulticast.time.

(** The dictionary [_log_event] builds. *)
Module Event.
Record t := {
  timestamp : time;
  lamport_time : Z;
  process_id : Z;
  event_type : string;
  description : string
}.
End Event.

(** The fields of a [DistributedProcess].  The clock object is the one
    the engine holds: [self.lamport_clock] is read through
    [reliable_multicast].  [event_log] is the [deque], oldest entry
    first. *)
Record t := {
  process_id : Z;
  host : string;
  port : Z;
  network_manager : Network.t;
  reliable_multicast : ReliableMulticast.t;
  running : bool;
  start_time : option time;
  event_log : list Event.t;
  known_processes : list Z
}.

Definition set_network_manager (n : Network.t) (s : t) : t :=
  {| process_id := process_id s; host := host s; port := port s;
     network_manager := n;
     reliable_multicast := reliable_multicast s;
     running := running s; start_time := start_time s;
     event_log := event_log s; known_processes := known_processes s |}.

Definition set_reliable_multicast (r : ReliableMulticast.t) (s : t) : t :=
  {| process_id := process_id s; host := host s; port := port s;
     network_manager := network_manager s;
     reliable_multicast := r;
     running := running s; start_time := start_time s;
     event_log := event_log s; known_processes := known_processes s |}.

Definition set_running (b : bool) (s : t) : t :=
  {| process_id := process_id s; host := host s; port := port s;
     network_manager := network_manager s;
     reliable_multicast := reliable_multicast s;
     running := b; start_time := start_time s;
     event_log := event_log s; known_processes := known_processes s |}.

Definition set_start_time (t0 : option time) (s : t) : t :=
  {| process_id := process_id s; host := host s; port := port s;
     network_manager := network_manager s;
     reliable_multicast := reliable_multicast s;
     running := running s; start_time := t0;
     event_log := event_log s; known_processes := known_processes s |}.

Definition set_event_log (l : list Event.t) (s : t) : t :=
  {| process_id := process_id s; host := host s; port := port s;
     network_manager := network_manager s;
     reliable_multicast := reliable_multicast s;
     running := running s; start_time := start_time s;
     event_log := l; known_processes := known_processes s |}.

Definition set_known_processes (k : list Z) (s : t) : t :=
  {| process_id := process_id s; host := host s; port := port s;
     network_manager := network_manager s;
     reliable_multicast := reliable_multicast s;
     running := running s; start_time := start_time s;
     event_log := event_log s; known_processes := k |}.

(** [str(n)] and [str(l)] for an integer and a list of integers, as
    f-strings format them. *)
Definition str_int (z : Z) : string := NilZero.string_of_int (Z.to_int z).

Definition str_list (l : list Z) : string :=
  "[" +:+ String.concat ", " (map str_int l) +:+ "]".

(** [deque(maxlen=...).append]: a full deque drops its oldest entry. *)
Definition deque_append {A} (maxlen : nat) (x : A) (d : list A) : list A :=
  if (length d <? maxlen)%nat then d ++ [x] else drop 1 d ++ [x].

Definition maxlen : nat := 1000.

(** The engine as [__init__] leaves it: both callbacks assigned. *)
Definition with_callbacks (e : ReliableMulticast.t) : ReliableMulticast.t :=
  {| ReliableMulticast.process_id := ReliableMulticast.process_id e;
     ReliableMulticast.lamport_clock := ReliableMulticast.lamport_clock e;
     ReliableMulticast.pending_messages := ReliableMulticast.pending_messages e;
     ReliableMulticast.received_messages :=
       ReliableMulticast.received_messages e;
     ReliableMulticast.delivered_messages :=
       ReliableMulticast.delivered_messages e;
     ReliableMulticast.message_queue := ReliableMulticast.message_queue e;
     ReliableMulticast.sequence_numbers := ReliableMulticast.sequence_numbers e;
     ReliableMulticast.known_processes := ReliableMulticast.known_processes e;
     ReliableMulticast.on_message_delivered := true;
     ReliableMulticast.on_message_failed := true |}.

(** [__init__]: [port or (8000 + process_id)]; the clock starts at 0;
    the log and the list of known processes are empty. *)
Definition init (process_id : Z) (host : string) (port : option Z) : t :=
  let port :=
    match port with
    | Some p => if bool_decide (p = 0) then 8000 + process_id else p
    | None => 8000 + process_id
    end in
  {| process_id := process_id;
     host := host;
     port := port;
     network_manager :=
       Network.set_on_message_received true
         (Network.init process_id host (Some port));
     reliable_multicast :=
       with_callbacks (ReliableMulticast.init process_id LamportClock.init);
     running := false;
     start_time := None;
     event_log := [];
     known_processes := [] |}.

(** [_log_event]; [now] is the reading of [datetime.now()].  Returns
    the entry next to the new state. *)
Definition log_event (now : time) (event_type description : string) (s : t)
    : Event.t * t :=
  let '(lamport_time, _) :=
    LamportClock.get_time
      (ReliableMulticast.lamport_clock (reliable_multicast s)) in
  let event :=
    {| Event.timestamp := now;
       Event.lamport_time := lamport_time;
       Event.process_id := process_id s;
       Event.event_type := event_type;
       Event.description := description |} in
  (event, set_event_log (deque_append maxlen event (event_log s)) s).

(** [l[start:]]. *)
Definition slice_from {A} (start : Z) (l : list A) : list A :=
  let len := Z.of_nat (length l) in
  let start := if start <? 0 then Z.max (len + start) 0 else Z.min start len in
  drop (Z.to_nat start) l.

(** [get_event_log]: [if last_n:] is false for [None] and for 0. *)
Definition get_event_log (last_n : option Z) (s : t) : list Event.t :=
  let events := event_log s in
  match last_n with
  | Some n => if bool_decide (n = 0) then events else slice_from (- n) events
  | None => events
  end.

(** What one call needs from outside: the JSON codec of
    [Network.send_message], whether the i-th connection of the call is
    made, and the reading of [datetime.now()] by the j-th [_log_event]
    of the call. *)
Record Env := {
  dumps : json -> Network.bytes;
  connects : nat -> bool;
  nows : nat -> time
}.

(** A frame on the wire, with the address it went to. *)
Definition Wire : Type := string * Z * Network.bytes.

(** [_send_message_via_network]. *)
Definition send_message_via_network (dumps : json -> Network.bytes)
    (connects : bool) (message : AnyMessage) (target_process_id : Z) (s : t)
    : option Wire * t :=
  let '(success, sent, n) :=
    Network.send_message dumps connects message target_process_id
      (network_manager s) in
  (sent, set_network_manager n s).

(** [_on_message_delivered]. *)
Definition on_message_delivered (now : time) (message : AnyMessage) (s : t)
    : Event.t * t :=
  log_event now "DELIVER"
    ("De P" +:+ str_int (sender_id (base message))
     +:+ " (T:" +:+ str_int (timestamp (base message))
     +:+ "): '" +:+ content (base message) +:+ "'") s.

(** [_on_message_failed]. *)
Definition on_message_failed (now : time) (message : MulticastMessage)
    (s : t) : Event.t * t :=
  log_event now "FAILED"
    ("Falha na entrega: '" +:+ content message
     +:+ "' para " +:+ str_list (recipients message)) s.

(** The calls the engine makes during one of its methods, in order:
    [send_callback] is [_send_message_via_network], the two callbacks
    are the two methods above.  [i] counts the connections and [j] the
    log entries of the call so far.  None of them changes the engine,
    and the engine does not move its clock after it has called back, so
    the entries read the clock the method ends with. *)
Fixpoint dispatch (e : Env) (events : list ReliableMulticast.Event)
    (i j : nat) (s : t) : t * list Wire * list Event.t :=
  match events with
  | [] => (s, [], [])
  | ReliableMulticast.Send m target :: rest =>
      let '(w, s1) :=
        send_message_via_network (dumps e) (connects e i) m target s in
      let '(s2, ws, ls) := dispatch e rest (S i) j s1 in
      (s2, option_list w ++ ws, ls)
  | ReliableMulticast.Delivered m :: rest =>
      let '(l, s1) := on_message_delivered (nows e j) m s in
      let '(s2, ws, ls) := dispatch e rest i (S j) s1 in
      (s2, ws, l :: ls)
  | ReliableMulticast.Failed m :: rest =>
      let '(l, s1) := on_message_failed (nows e j) m s in
      let '(s2, ws, ls) := dispatch e rest i (S j) s1 in
      (s2, ws, l :: ls)
  end.

(** How a call ends. *)
Inductive Result :=
| Returned
| ReturnedId (message_id : string)
| ReturnedOnline (online : list Z)
| Raised.

(** What a call does to the outside: how it ends, the frames it sends,
    and the entries it logs. *)
Record Output := {
  result : Result;
  sent : list Wire;
  logged : list Event.t
}.

(** [stop].  The two shutdown calls stop threads and close the server
    socket, which are not part of the state. *)
Definition stop (e : Env) (j : nat) (s : t) : t * list Event.t :=
  if negb (running s) then (s, [])
  else
    let s := set_running false s in
    let '(l, s) :=
      log_event (nows e j) "SYSTEM"
        ("Processo " +:+ str_int (process_id s) +:+ " parando...") s in
    (s, [l]).

(** [start].  [started] is the reading of [datetime.now()] for
    [start_time]; [server_starts] tells whether [start_server] returns;
    when it raises, the process is stopped and the exception goes on. *)
Definition start (e : Env) (known : option (list Z)) (server_starts : bool)
    (started : time) (s : t) : t * Output :=
  let s := set_start_time (Some started) s in
  let s :=
    set_known_processes
      (match known with
       | None | Some [] => []
       | Some l => l
       end) s in
  if server_starts then
    let engine :=
      foldl (fun engine pid =>
               if bool_decide (pid <> process_id s)
               then ReliableMulticast.add_known_process pid engine
               else engine)
            (reliable_multicast s) (known_processes s) in
    let s := set_reliable_multicast engine s in
    let s := set_running true s in
    let '(l, s) :=
      log_event (nows e 0) "SYSTEM"
        ("Processo " +:+ str_int (process_id s) +:+ " iniciado") s in
    (s, {| result := Returned; sent := []; logged := [l] |})
  else
    let '(s, ls) := stop e 0 s in
    (s, {| result := Raised; sent := []; logged := ls |}).

(** [send_multicast_message]; [u] and [now] are the draw and the
    reading of [time.time()] that [multicast] uses. *)
Definition send_multicast_message (e : Env) (content : string)
    (recipients : option (list Z)) (u : N) (now : time) (s : t)
    : t * Output :=
  if negb (running s)
  then (s, {| result := Raised; sent := []; logged := [] |})
  else
    let '(l, s) :=
      log_event (nows e 0) "SEND"
        ("Enviando: '" +:+ content +:+ "' para "
         +:+ match recipients with
             | None | Some [] => "todos"
             | Some l => str_list l
             end) s in
    let '(message_id, engine, events) :=
      ReliableMulticast.multicast content recipients u now
        (reliable_multicast s) in
    let s := set_reliable_multicast engine s in
    let '(s, ws, ls) := dispatch e events 0 1 s in
    (s, {| result := ReturnedId message_id; sent := ws; logged := l :: ls |}).

(** [_handle_network_message]. *)
Definition handle_network_message (e : Env) (message : AnyMessage) (u : N)
    (s : t) : t * Output :=
  let '(engine, events) :=
    ReliableMulticast.handle_received_message message u
      (reliable_multicast s) in
  let s := set_reliable_multicast engine s in
  let '(s, ws, ls) := dispatch e events 0 0 s in
  (s, {| result := Returned; sent := ws; logged := ls |}).

(** One round of the engine's timeout thread, which calls back into the
    process. *)
Definition timeout_thread_round (e : Env) (now : time) (s : t) : t * Output :=
  let '(engine, events) :=
    ReliableMulticast.timeout_checker now (reliable_multicast s) in
  let s := set_reliable_multicast engine s in
  let '(s, ws, ls) := dispatch e events 0 0 s in
  (s, {| result := Returned; sent := ws; logged := ls |}).

(** The loop of [discover_processes] over the processes found online. *)
Definition add_discovered (s : t) (pid : Z) : t :=
  if bool_decide (pid ∉ known_processes s)
     && bool_decide (pid <> process_id s)
  then
    set_reliable_multicast
      (ReliableMulticast.add_known_process pid (reliable_multicast s))
      (set_known_processes (known_processes s ++ [pid]) s)
  else s.

(** [discover_processes]; [range(10)] when no range is given;
    [attempts] are the connection attempts of the network manager. *)
Definition discover_processes (e : Env) (process_range : option (list Z))
    (attempts : nat -> list bool) (s : t) : t * Output :=
  let process_ids :=
    match process_range with
    | None => map Z.of_nat (seq 0 10)
    | Some r => r
    end in
  let '(online, n) :=
    Network.discover_processes attempts process_ids (network_manager s) in
  let s := set_network_manager n s in
  let s := foldl add_discovered s online in
  let '(l, s) :=
    log_event (nows e 0) "DISCOVERY"
      ("Processos online: " +:+ str_list online) s in
  (s, {| result := ReturnedOnline online; sent := []; logged := [l] |}).

(** The calls a process receives: from its user, from the network
    threads and from the engine's timeout thread. *)
Inductive Op :=
| OpStart (known : option (list Z)) (server_starts : bool) (started : time)
| OpStop
| OpSendMulticast (content : string) (recipients : option (list Z)) (u : N)
                  (now : time)
| OpNetworkMessage (message : AnyMessage) (u : N)
| OpTimeout (now : time)
| OpDiscover (process_range : option (list Z)) (attempts : nat -> list bool).

Definition step (e : Env) (o : Op) (s : t) : t * Output :=
  match o with
  | OpStart known server_starts started =>
      start e known server_starts started s
  | OpStop =>
      let '(s, ls) := stop e 0 s in
      (s, {| result := Returned; sent := []; logged := ls |})
  | OpSendMulticast content recipients u now =>
      send_multicast_message e content recipients u now s
  | OpNetworkMessage message u => handle_network_message e message u s
  | OpTimeout now => timeout_thread_round e now s
  | OpDiscover process_range attempts =>
      discover_processes e process_range attempts s
  end.

(** A run: the calls one after the other, each in its environment, and
    what each one does to the outside. *)
Fixpoint run (ops : list (Env * Op)) (s : t) : t * list Output :=
  match ops with
  | [] => (s, [])
  | (e, o) :: ops' =>
      let '(s1, out) := step e o s in
      let '(s2, outs) := run ops' s1 in
      (s2, out :: outs)
  end.

End Process.

(** * Vocabulary of the properties *)

Section MessageDefs.
Import Message.
(** What the constructors establish and no method changes: a non-empty
    identifier, and in the two subclasses the type their
    [__post_init__] sets. *)
Definition class_invariant (m : AnyMessage) : Prop :=
  message_id (base m) <> "" /\
  match m with
  | Base _ => True
  | Ack a => message_type a = ACK
  | Multicast mc => message_type mc = MULTICAST
  end.

(** An object of one of the two subclasses. *)
Definition is_subclass (m : AnyMessage) : Prop :=
  match m with
  | Base _ => False
  | _ => True
  end.

(** The values of the five members of [MessageType]. *)
Definition known_values : list string := map value all_types.

(** A frame a peer may send: a heartbeat. *)
Definition heartbeat_frame : list (string * json) :=
  [ ("message_id", JStr "hb-1"); ("sender_id", JInt 2);
    ("message_type", JStr "heartbeat"); ("timestamp", JInt 4);
    ("content", JStr ""); ("recipients", JArr []) ].

(** A frame whose [message_id] is the empty string. *)
Definition anonymous_frame : list (string * json) :=
  [ ("message_id", JStr ""); ("sender_id", JInt 2);
    ("message_type", JStr "multicast"); ("timestamp", JInt 4);
    ("content", JStr "x"); ("recipients", JArr [JInt 1]);
    ("sequence_number", JInt 0); ("requires_ack", JBool true) ].
End MessageDefs.

Section EngineDefs.
Import Message ReliableMulticast.

(** The process installs both callbacks right after it builds the engine
    ([process.py], [__init__]). *)
Definition install_callbacks (s : t) : t :=
  {| process_id := process_id s; lamport_clock := lamport_clock s;
     pending_messages := pending_messages s;
     received_messages := received_messages s;
     delivered_messages := delivered_messages s;
     message_queue := message_queue s;
     sequence_numbers := sequence_numbers s;
     known_processes := known_processes s;
     on_message_delivered := true;
     on_message_failed := true |}.

(** The ordering key of a queued message and its lexicographic order. *)
Definition key (m : AnyMessage) : Z * Z :=
  (timestamp (base m), sender_id (base m)).

Definition key_lt (a b : Z * Z) : Prop :=
  a.1 < b.1 \/ (a.1 = b.1 /\ a.2 < b.2).

Definition key_le (a b : Z * Z) : Prop := key_lt a b \/ a = b.

(** The head is the unique minimum: every other queued entry has a
    strictly larger key (none has a smaller or equal one). *)
Definition unique_minimum (head : AnyMessage) (others : list AnyMessage)
    : Prop :=
  forall o, o ∈ others -> ~ key_le (key o) (key head).

(** No other queued entry has a strictly smaller key. *)
Definition none_precedes (head : AnyMessage) (others : list AnyMessage)
    : Prop :=
  forall o, o ∈ others -> ~ key_lt (key o) (key head).

(** The order [_add_to_ordered_queue] keeps: no entry precedes an
    earlier one. *)
Definition queue_sorted (queue : list AnyMessage) : Prop :=
  StronglySorted (fun a b => ~ key_lt (key b) (key a)) queue.

(** The identifier of the message an event carries. *)
Definition event_id (e : Event) : string :=
  match e with
  | Send m _ => message_id (base m)
  | Delivered m => message_id (base m)
  | Failed m => message_id m
  end.

(** Calls of [on_message_delivered] for the message [id]. *)
Definition is_delivery_of (id : string) (e : Event) : bool :=
  match e with
  | Delivered m => bool_decide (message_id (base m) = id)
  | _ => false
  end.

(** Acknowledgments sent for the message [id]. *)
Definition is_ack_of (id : string) (e : Event) : bool :=
  match e with
  | Send (Ack a) _ => bool_decide (original_message_id a = id)
  | _ => false
  end.

(** Transmissions of the multicast [id]. *)
Definition is_transmission_of (id : string) (e : Event) : bool :=
  match e with
  | Send (Multicast m) _ => bool_decide (message_id m = id)
  | _ => false
  end.

(** Any acknowledgment sent. *)
Definition is_ack (e : Event) : bool :=
  match e with
  | Send (Ack _) _ => true
  | _ => false
  end.

(** Every pending entry is filed under the identifier of its message, as
    [multicast] files it. *)
Definition keys_ok (s : t) : Prop :=
  forall k p, pending_messages s !! k = Some p -> message_id (message p) = k.

(** Invariant 4 of the data model: the acknowledgments received for a
    pending message come from its recipients. *)
Definition acks_subset (s : t) : Prop :=
  forall k p, pending_messages s !! k = Some p ->
    ack_received p ⊆ list_to_set (recipients (message p)).

(** No later [multicast] draws the identifier [id] again. *)
Definition never_redrawn (id : string) (ops : list Op) : Prop :=
  forall content recipients u now,
    OpMulticast content recipients u now ∈ ops -> uuid_str u <> id.

(** The message [id] never arrives as an inbound multicast. *)
Definition never_received (id : string) (ops : list Op) : Prop :=
  forall m u, OpReceive m u ∈ ops ->
    message_type (base m) = MULTICAST -> message_id (base m) <> id.

(** Two queued messages with the same timestamp and the same sender. *)
Definition twin (id : string) : AnyMessage :=
  Multicast (MulticastMessage_new 0 id 1 MULTICAST 3 "x" (Some [0]) 0 true).

Definition twins_queued : t :=
  set_message_queue [twin "a"; twin "b"] (install_callbacks (init 0 0)).

(** The recipients [multicast] sends to. *)
Definition multicast_recipients (recipients : option (list Z)) (s : t)
    : list Z :=
  match recipients with
  | None => elements (known_processes s ∖ {[ process_id s ]})
  | Some l => l
  end.

(** The message [multicast] builds. *)
Definition multicast_message (content : string)
    (recipients : option (list Z)) (u : N) (s : t) : MulticastMessage :=
  create_multicast u (process_id s) (lamport_clock s + 1) content
    (multicast_recipients recipients s)
    (default 0 (sequence_numbers s !! process_id s)).

(** A pending entry as [multicast] files it. *)
Definition fresh_entry (m : MulticastMessage) (now : time) : PendingMessage :=
  {| message := m; sent_time := now; ack_received := ∅; retry_count := 0 |}.

(** A peer that has sent one multicast to peers 1 and 2 at time 0. *)
Definition engine0 : t := install_callbacks (init 0 0).

Definition after_send : t :=
  (multicast "hi" (Some [1; 2]) 7 0%Q engine0).1.2.

Definition sent_message : MulticastMessage :=
  multicast_message "hi" (Some [1; 2]) 7 engine0.

(** An acknowledgment of that multicast from peer 5, which is not one of
    its recipients. *)
Definition stray_ack : AckMessage := create_ack 8 5 1 (uuid_str 7).

(** The acknowledgment peer 1 sends for a multicast [id]. *)
Definition ack_from_1 (id : string) : AckMessage :=
  create_ack 9 1 3 id.

(** Peer 0 sends to nobody at time 0; the timeout checker then runs at
    times 6, 12, 18 and 24. *)
Definition send_to_nobody : list Op :=
  [OpMulticast "hi" (Some []) 7 0%Q].

Definition four_rounds : list Op :=
  [OpTimeout 6%Q; OpTimeout 12%Q; OpTimeout 18%Q; OpTimeout 24%Q].

(** Peer 0 knows peer 1, multicasts to all, and receives peer 1's
    acknowledgment. *)
Definition send_and_ack : list Op :=
  [OpAddKnownProcess 1; OpMulticast "hi" None 7 0%Q;
   OpReceive (Ack (ack_from_1 (uuid_str 7))) 0].

(** The identifiers in the ordering queue. *)
Definition queued_ids (s : t) : list string :=
  map (fun m => message_id (base m)) (message_queue s).

(** Scenario S2/S3: peer 1, clock 2, receives a multicast stamped 10
    from peer 0. *)
Definition peer1 : t :=
  install_callbacks (init 1 2).

Definition inbound : AnyMessage :=
  Multicast (create_multicast 9 0 10 "A" [1] 0).

End EngineDefs.

Section MoreDefs.
Import Message ReliableMulticast.

(** The state [_handle_multicast_message] leaves after the first receipt
    of [m], given what the delivery loop returns. *)
Definition after_first_receipt (m : AnyMessage) (s : t)
    (queue : list AnyMessage) (delivered : gset string) : t :=
  {| process_id := process_id s;
     lamport_clock := lamport_clock s + 1;
     pending_messages := pending_messages s;
     received_messages := <[message_id (base m) := m]> (received_messages s);
     delivered_messages := delivered;
     message_queue := queue;
     sequence_numbers := sequence_numbers s;
     known_processes := known_processes s ∪ {[ sender_id (base m) ]};
     on_message_delivered := on_message_delivered s;
     on_message_failed := on_message_failed s |}.

(** The state [multicast] leaves. *)
Definition after_multicast (m : MulticastMessage) (now : time) (s : t) : t :=
  {| process_id := process_id s;
     lamport_clock := lamport_clock s + 1;
     pending_messages :=
       <[message_id m := fresh_entry m now]> (pending_messages s);
     received_messages := received_messages s;
     delivered_messages := delivered_messages s;
     message_queue := message_queue s;
     sequence_numbers :=
       <[process_id s := default 0 (sequence_numbers s !! process_id s) + 1]>
         (sequence_numbers s);
     known_processes := known_processes s;
     on_message_delivered := on_message_delivered s;
     on_message_failed := on_message_failed s |}.

(** Between two calls: nothing is queued, and the delivered identifiers
    are the received ones. *)
Definition settled (s : t) : Prop :=
  message_queue s = [] /\
  delivered_messages s = dom (received_messages s).

(** The inbound multicasts of a run that arrive for the first time,
    in order of arrival; [seen] are the identifiers received before. *)
Fixpoint first_receipts (seen : gset string) (ops : list Op)
    : list AnyMessage :=
  match ops with
  | [] => []
  | OpReceive m _ :: rest =>
      if bool_decide (message_type (base m) = MULTICAST)
         && bool_decide (message_id (base m) ∉ seen)
      then m :: first_receipts (seen ∪ {[ message_id (base m) ]}) rest
      else first_receipts seen rest
  | _ :: rest => first_receipts seen rest
  end.

(** The messages handed to [on_message_delivered], in order. *)
Definition deliveries (events : list Event) : list AnyMessage :=
  omap (fun e => match e with Delivered m => Some m | _ => None end) events.

(** The acknowledgment sent for the first receipt of [m] by an engine
    whose clock reads [clock] when [m] arrives. *)
Definition ack_for (m : AnyMessage) (u : N) (s : t) : AckMessage :=
  create_ack u (process_id s)
    (Z.max (lamport_clock s) (timestamp (base m)) + 2)
    (message_id (base m)).

(** The number of [multicast] calls in a run. *)
Fixpoint count_multicasts (ops : list Op) : nat :=
  match ops with
  | [] => 0
  | OpMulticast _ _ _ _ :: rest => S (count_multicasts rest)
  | _ :: rest => count_multicasts rest
  end.

(** The calls that deliver a list of acknowledgments to the engine. *)
Definition receive_acks (acks : list AckMessage) : list Op :=
  map (fun a => OpReceive (Ack a) 0) acks.

(** Who sent an acknowledgment. *)
Definition ack_sender (a : AckMessage) : Z := sender_id a.

(** An acknowledgment of the message [k]. *)
Definition acknowledges (k : string) (a : AckMessage) : Prop :=
  message_type a = ACK /\ original_message_id a = k.

(** The acknowledgment peer 2 sends for a multicast [id]. *)
Definition ack_from_2 (id : string) : AckMessage :=
  create_ack 10 2 3 id.

(** Calls of [on_message_failed] for the message [id]. *)
Definition is_failure_of (id : string) (e : Event) : bool :=
  match e with
  | Failed m => bool_decide (message_id m = id)
  | _ => false
  end.

(** [current_time - sent > ack_timeout], on the two times. *)
Definition expired (sent now : time) : bool :=
  negb (Qle_bool (now - sent)%Q ack_timeout).

(** Successive rounds of the timeout checker, each later than the last
    change of [sent_time] by more than [ack_timeout]. *)
Fixpoint rounds_expire (sent : time) (rounds : list time) : Prop :=
  match rounds with
  | [] => True
  | now :: rest => expired sent now = true /\ rounds_expire now rest
  end.

Definition timeouts (rounds : list time) : list Op := map OpTimeout rounds.

(** The entry after a retry at each of the given rounds. *)
Definition after_retries (rounds : list time) (p : PendingMessage)
    : PendingMessage :=
  foldl (fun q now => retried now q) p rounds.

(** The members [from_json] subscripts, in the order it evaluates
    them. *)
Definition subscripted_keys : list string :=
  ["message_type"; "message_id"; "sender_id"; "timestamp"; "content"].

(** The class [from_json] builds for a message type. *)
Definition class_of (ty : MessageType) (m : AnyMessage) : Prop :=
  match ty, m with
  | MULTICAST, Multicast _ => True
  | ACK, Ack _ => True
  | MULTICAST, _ | ACK, _ => False
  | _, Base _ => True
  | _, _ => False
  end.

(** A frame with the five subscripted members only. *)
Definition bare_frame (t : string) : list (string * json) :=
  [ ("message_type", JStr t); ("message_id", JStr "m-1");
    ("sender_id", JInt 2); ("timestamp", JInt 4); ("content", JStr "x") ].

End MoreDefs.

Section NetworkDefs.
Import Message Network.

(** The address a process identifier resolves to. *)
Definition resolves (pid : Z) (s : t) : string * Z :=
  default ("localhost", 8000 + pid) (connection_cache s !! pid).

(** How a stream can stop: the reads time out, or the peer closes. *)
Definition stream_end (tail : socket) : Prop :=
  tail = [] \/ exists rest, tail = [] :: rest.

(** A codec for the examples: every document is one byte on the wire,
    and every payload decodes to the document of one message. *)
Definition toy_dumps (doc : json) : bytes := [Byte.x7b].

Definition toy_message : AnyMessage :=
  Multicast (create_multicast 7 1 5 "hi" [2] 0).

Definition toy_loads (data : bytes) : option json := Some (to_json toy_message).

(** The calls that change a manager's state. *)
Inductive NetOp :=
| NetRegister (process_id : Z) (host : string) (port : Z)
| NetSend (dumps : json -> bytes) (connects : bool) (message : AnyMessage)
         (target_process_id : Z)
| NetDiscover (attempts : nat -> list bool) (process_ids : list Z).

Definition net_step (o : NetOp) (s : t) : t :=
  match o with
  | NetRegister pid host port => register_process pid host port s
  | NetSend dumps connects message target =>
      (send_message dumps connects message target s).2
  | NetDiscover attempts pids => (discover_processes attempts pids s).2
  end.

Definition net_run (ops : list NetOp) (s : t) : t :=
  foldl (fun s o => net_step o s) s ops.

(** The address of the last [register_process] for [pid] among [ops]. *)
Fixpoint registered (pid : Z) (ops : list NetOp) : option (string * Z) :=
  match ops with
  | [] => None
  | o :: rest =>
      match registered pid rest, o with
      | Some address, _ => Some address
      | None, NetRegister pid' host port =>
          if bool_decide (pid' = pid) then Some (host, port) else None
      | None, _ => None
      end
  end.

(** A manager with the callback installed. *)
Definition listening : t := set_on_message_received true (init 2 "localhost" None).

End NetworkDefs.

Section ProcessDefs.
Import Message Process.

(** Everything a run logs, in order. *)
Definition all_logged (outs : list Output) : list Event.t :=
  flat_map logged outs.

(** The last [n] entries of a list. *)
Definition last_n {A} (n : nat) (l : list A) : list A :=
  drop (length l - n) l.

(** An environment for the examples: every connection is made, the
    wall clock stands still. *)
Definition env0 : Env :=
  {| dumps := toy_dumps; connects := fun _ => true; nows := fun _ => 0%Q |}.

(** Process 0 as [__init__] leaves it. *)
Definition process0 : t := init 0 "localhost" None.

(** The process and its engine agree on who the process is, and while
    the process runs the engine knows every process the process
    knows. *)
Definition linked (s : t) : Prop :=
  ReliableMulticast.process_id (reliable_multicast s) = process_id s /\
  (running s = true ->
   forall pid, pid ∈ known_processes s -> pid <> process_id s ->
     pid ∈ ReliableMulticast.known_processes (reliable_multicast s)).

(** Process 0 started with process 1 on its list, and process 1 as
    [__init__] leaves it. *)
Definition started0 : t :=
  (start env0 (Some [1]) true 0%Q process0).1.

Definition process1 : t := init 1 "localhost" None.

(** The multicast process 0 then sends to process 1. *)
Definition hello : AnyMessage :=
  Multicast (multicast_message "hi" (Some [1]) 7 (reliable_multicast started0)).

(** A codec for it: one byte on the wire, read back as its document. *)
Definition hello_loads (data : Network.bytes) : option json :=
  Some (to_json hello).

End ProcessDefs.

(** * Properties *)

(** ** The Lamport clock *)

Section ClockProperties.
Import LamportClock.

Lemma step_returns_state o clock : (step o clock).1 = (step o clock).2.
Proof. by destruct o. Qed.

Lemma step_advances o clock : clock < (step o clock).1.
Proof. destruct o; simpl; lia. Qed.

Lemma observed_above ops : forall clock,
  Forall (Z.lt clock) (observed ops clock).
Proof.
  induction ops as [|o ops IH]; intros clock; simpl; [constructor|].
  pose proof (step_advances o clock) as Hlt.
  pose proof (step_returns_state o clock) as Heq.
  destruct (step o clock) as [v clock']; simpl in *; subst clock'.
  constructor; [done|].
  eapply Forall_impl; [apply IH|]. simpl. lia.
Qed.

(** C8. Whatever the stored value and whatever the timestamps received
    (negative ones included), [tick] returns the stored value plus one,
    [update t] returns the larger of the stored value and [t] plus one,
    both store what they return, and the values returned by any sequence
    of such operations, with the initially stored value in front, are
    strictly increasing. *)
Theorem clock_values_strictly_increasing :
  (forall clock, tick clock = (clock + 1, clock + 1)) /\
  (forall t clock, update t clock = (Z.max clock t + 1, Z.max clock t + 1)) /\
  (forall ops clock, StronglySorted Z.lt (clock :: observed ops clock)).
Proof.
  split; [done|]. split; [done|].
  intros ops clock. constructor; [|apply observed_above].
  revert clock. induction ops as [|o ops IH]; intros clock; simpl.
  - constructor.
  - pose proof (step_returns_state o clock) as Heq.
    destruct (step o clock) as [v clock']; simpl in *; subst clock'.
    constructor; [apply IH | apply observed_above].
Qed.

End ClockProperties.

(** ** Identifiers *)

Section UuidProperties.
Import Message.

Lemma hex_digit_cases (d : N) :
  (d < 16)%N ->
  (d = 0 \/ d = 1 \/ d = 2 \/ d = 3 \/ d = 4 \/ d = 5 \/ d = 6 \/ d = 7 \/
   d = 8 \/ d = 9 \/ d = 10 \/ d = 11 \/ d = 12 \/ d = 13 \/ d = 14 \/
   d = 15)%N.
Proof. lia. Qed.

Lemma hex_value_digit (d : N) : (d < 16)%N -> hex_value (hex_digit d) = d.
Proof.
  intros Hd. apply hex_digit_cases in Hd.
  repeat (destruct Hd as [->|Hd]; [reflexivity|]). by subst.
Qed.

Lemma hex_digit_inj (d1 d2 : N) :
  (d1 < 16)%N -> (d2 < 16)%N -> hex_digit d1 = hex_digit d2 -> d1 = d2.
Proof.
  intros H1 H2 H. apply (f_equal hex_value) in H.
  by rewrite !hex_value_digit in H.
Qed.

Lemma hex_digit_not_dash (d : N) : (d < 16)%N -> hex_digit d <> dash.
Proof.
  intros Hd. apply hex_digit_cases in Hd.
  repeat (destruct Hd as [->|Hd]; [by intros|]). by subst.
Qed.

Lemma hex_fixed_no_dash k : forall n, Forall (fun c => c <> dash) (hex_fixed k n).
Proof.
  induction k as [|k IH]; intros n; simpl; [constructor|].
  apply Forall_app. split; [apply IH|].
  constructor; [|constructor].
  apply hex_digit_not_dash, N.mod_lt. lia.
Qed.

Lemma hex_fixed_inj k : forall n m,
  hex_fixed k n = hex_fixed k m ->
  (n mod 16 ^ N.of_nat k = m mod 16 ^ N.of_nat k)%N.
Proof.
  induction k as [|k IH]; intros n m H.
  - simpl. by rewrite !N.mod_1_r.
  - simpl in H. apply app_inj_tail in H as [Hhi Hlo].
    apply IH in Hhi.
    apply hex_digit_inj in Hlo; [|apply N.mod_lt; lia..].
    rewrite Nat2N.inj_succ, N.pow_succ_r'.
    rewrite !N.Div0.mod_mul_r. by rewrite Hhi, Hlo.
Qed.

Lemma filter_all {A} (P : A -> Prop) `{!forall x, Decision (P x)} (l : list A) :
  Forall P l -> filter P l = l.
Proof.
  induction 1 as [|x l Hx _ IH]; [done|].
  by rewrite filter_cons_True, IH.
Qed.

Lemma regroup {A} (l : list A) :
  take 8 l ++ take 4 (drop 8 l) ++ take 4 (drop 12 l) ++
  take 4 (drop 16 l) ++ drop 20 l = l.
Proof.
  replace (drop 20 l) with (drop 4 (drop 16 l)) by by rewrite drop_drop.
  rewrite take_drop.
  replace (drop 16 l) with (drop 4 (drop 12 l)) by by rewrite drop_drop.
  rewrite take_drop.
  replace (drop 12 l) with (drop 4 (drop 8 l)) by by rewrite drop_drop.
  by rewrite !take_drop.
Qed.

Lemma uuid_str_grouped u :
  uuid_str u = string_of_list_ascii (grouped (hex_fixed 32 u)).
Proof. reflexivity. Qed.

(** The digits of an identifier are what is left of it without the
    dashes. *)
Lemma grouped_digits (hex : list ascii) :
  Forall (fun c => c <> dash) hex ->
  filter (fun c => c <> dash) (grouped hex) = hex.
Proof.
  intros Hnd. unfold grouped.
  assert (Ht : forall n, Forall (fun c => c <> dash) (take n hex))
    by (intros n; by apply Forall_take).
  assert (Hd : forall n, Forall (fun c => c <> dash) (drop n hex))
    by (intros n; by apply Forall_drop).
  assert (Htd : forall n k, Forall (fun c => c <> dash) (take n (drop k hex)))
    by (intros n k; by apply Forall_take).
  assert (Hdash : ~ dash <> dash) by (by intros ?).
  do 4 (rewrite filter_app, (filter_cons_False _ dash _ Hdash)).
  rewrite !filter_all by done.
  apply regroup.
Qed.

Lemma uuid_str_nonempty u : uuid_str u <> "".
Proof.
  rewrite uuid_str_grouped. intros H.
  apply (f_equal list_ascii_of_string) in H.
  rewrite list_ascii_of_string_of_list_ascii in H.
  unfold grouped in H. change (list_ascii_of_string "") with (@nil ascii) in H.
  by apply app_eq_nil in H as [_ ?].
Qed.

(** Distinct 128-bit draws print differently. *)
Lemma uuid_str_inj u1 u2 :
  (u1 < 2 ^ 128)%N -> (u2 < 2 ^ 128)%N ->
  uuid_str u1 = uuid_str u2 -> u1 = u2.
Proof.
  intros H1 H2 H. rewrite !uuid_str_grouped in H.
  apply (f_equal list_ascii_of_string) in H.
  rewrite !list_ascii_of_string_of_list_ascii in H.
  apply (f_equal (filter (fun c => c <> dash))) in H.
  rewrite !grouped_digits in H by apply hex_fixed_no_dash.
  apply hex_fixed_inj in H.
  replace (16 ^ N.of_nat 32)%N with (2 ^ 128)%N in H by (by vm_compute).
  by rewrite !N.mod_small in H.
Qed.

End UuidProperties.

(** ** The wire encoding *)

Section MessageProperties.
Import Message.

#[local] Arguments MessageType_of_value : simpl never.
#[local] Arguments value : simpl never.
#[local] Arguments as_int_list : simpl never.

(** Decide the comparisons between literal keys. *)
Ltac eval_keys :=
  cbn;
  repeat match goal with
    | |- context [@bool_decide (?a = ?b) ?d] =>
        first [ change (@bool_decide (a = b) d) with true
              | change (@bool_decide (a = b) d) with false ]
    end; cbn.

Lemma MessageType_of_value_value t : MessageType_of_value (value t) = Some t.
Proof. by destruct t; vm_compute. Qed.

Lemma as_int_list_map (l : list Z) : as_int_list (map JInt l) = inr l.
Proof.
  induction l as [|z l IH]; [done|].
  change (as_int_list (map JInt (z :: l)))
    with (zs <- as_int_list (map JInt l) ;; inr (z :: zs)).
  by rewrite IH.
Qed.

Lemma Message_new_id u id sender ty ts c r :
  id <> "" ->
  Message_new u id sender ty ts c (Some r)
  = {| message_id := id; sender_id := sender; message_type := ty;
       timestamp := ts; content := c; recipients := r |}.
Proof. intros H. unfold Message_new. by rewrite bool_decide_eq_false_2. Qed.

Lemma from_json_multicast u (mc : MulticastMessage) :
  class_invariant (Multicast mc) ->
  from_json u (to_json (Multicast mc)) = inr (Multicast mc).
Proof.
  intros [Hid Hty]. destruct mc as [[id sender ty ts c r] seq ack].
  simpl in *. subst ty.
  unfold from_json, to_json, base_members. cbn.
  rewrite (MessageType_of_value_value MULTICAST). cbn.
  unfold get_recipients. eval_keys. rewrite as_int_list_map. cbn.
  unfold MulticastMessage_new. by rewrite Message_new_id.
Qed.

Lemma from_json_ack u (a : AckMessage) :
  class_invariant (Ack a) ->
  from_json u (to_json (Ack a)) = inr (Ack a).
Proof.
  intros [Hid Hty]. destruct a as [[id sender ty ts c r] orig].
  simpl in *. subst ty.
  unfold from_json, to_json, base_members. cbn.
  rewrite (MessageType_of_value_value ACK). cbn.
  unfold get_recipients. eval_keys. rewrite as_int_list_map. cbn.
  unfold AckMessage_new. by rewrite Message_new_id.
Qed.

Lemma from_json_base u (b : Message) :
  message_id b <> "" ->
  message_type b <> MULTICAST -> message_type b <> ACK ->
  from_json u (to_json (Base b)) = inr (Base b).
Proof.
  intros Hid Hm Ha. destruct b as [id sender ty ts c r]. simpl in *.
  unfold from_json, to_json, base_members. cbn.
  rewrite (MessageType_of_value_value ty). cbn.
  unfold get_recipients. eval_keys. rewrite as_int_list_map. cbn.
  rewrite Message_new_id by done. by destruct ty.
Qed.

(** The constructors establish the class invariant. *)
Lemma Message_new_id_nonempty u id sender ty ts c r :
  message_id (Message_new u id sender ty ts c r) <> "".
Proof.
  unfold Message_new; simpl. case_bool_decide; [apply uuid_str_nonempty|done].
Qed.

Lemma MulticastMessage_new_invariant u id sender ty ts c r seq ack :
  class_invariant
    (Multicast (MulticastMessage_new u id sender ty ts c r seq ack)).
Proof. split; [apply Message_new_id_nonempty|done]. Qed.

Lemma AckMessage_new_invariant u id sender ty ts c r orig :
  class_invariant (Ack (AckMessage_new u id sender ty ts c r orig)).
Proof. split; [apply Message_new_id_nonempty|done]. Qed.

(** C7. Round trip of the wire encoding: for every object [m] of class
    [MulticastMessage] or [AckMessage] as its constructor leaves it
    (non-empty identifier, the type its class sets), deserializing the
    serialization of [m] gives back [m], equal in every field, whatever
    identifier the deserializer could draw. *)
Theorem wire_round_trip (u : N) (m : AnyMessage) :
  is_subclass m -> class_invariant m ->
  from_json u (to_json m) = inr m.
Proof.
  destruct m as [b|a|mc]; intros Hsub Hinv; [done| |].
  - by apply from_json_ack.
  - by apply from_json_multicast.
Qed.

Lemma wire_round_trip_witness :
  let m := Multicast (create_multicast 7 1 5 "Teste" [2; 3] 1) in
  is_subclass m /\ class_invariant m /\ from_json 0 (to_json m) = inr m.
Proof.
  intros m.
  assert (Hs : is_subclass m) by exact I.
  assert (Hi : class_invariant m) by apply MulticastMessage_new_invariant.
  exact (conj Hs (conj Hi (wire_round_trip 0 m Hs Hi))).
Defined.

Lemma MessageType_of_value_None t :
  t ∉ known_values -> MessageType_of_value t = None.
Proof.
  intros H. unfold MessageType_of_value, all_types. simpl.
  repeat (case_bool_decide;
          [exfalso; apply H; subst t; unfold known_values, all_types;
           simpl; set_solver|]).
  done.
Qed.

Lemma MessageType_of_value_Some t ty :
  MessageType_of_value t = Some ty -> value ty = t.
Proof.
  unfold MessageType_of_value. intros H.
  apply find_some in H as [_ H]. by apply bool_decide_eq_true in H.
Qed.

(** The claim of C9 fails on a heartbeat: its discriminator is neither
    ["multicast"] nor ["acknowledgment"], and the frame decodes to a
    record of the base class. *)
Lemma heartbeat_is_decoded :
  dict_get "message_type" heartbeat_frame = Some (JStr "heartbeat") /\
  "heartbeat" <> "multicast" /\ "heartbeat" <> "acknowledgment" /\
  from_json 0 (JObj heartbeat_frame)
  = inr (Base {| message_id := "hb-1"; sender_id := 2;
                 message_type := HEARTBEAT; timestamp := 4;
                 content := ""; recipients := [] |}).
Proof. repeat split; done. Qed.

(** C9, amended. A frame whose [message_type] is a string that is the
    value of no member of [MessageType] (not one of "multicast",
    "acknowledgment", "heartbeat", "join", "leave") makes [from_json]
    raise [ValueError]; with "heartbeat", "join" or "leave" and the four
    required members present, it returns a record of the base class
    carrying that type. *)
Theorem from_json_discriminator (u : N) (data : list (string * json))
    (t : string) :
  dict_get "message_type" data = Some (JStr t) ->
  (t ∉ known_values -> from_json u (JObj data) = inl ValueError) /\
  (forall ty id sender ts c r,
      ty ∈ [HEARTBEAT; JOIN; LEAVE] -> t = value ty ->
      dict_get "message_id" data = Some (JStr id) ->
      dict_get "sender_id" data = Some (JInt sender) ->
      dict_get "timestamp" data = Some (JInt ts) ->
      dict_get "content" data = Some (JStr c) ->
      get_recipients data = inr r ->
      from_json u (JObj data)
      = inr (Base (Message_new u id sender ty ts c r))).
Proof.
  intros Ht. split.
  - intros Hun. unfold from_json, subscript. rewrite Ht. simpl.
    by rewrite MessageType_of_value_None.
  - intros ty id sender ts c r Hty -> Hid Hs Hts Hc Hr.
    unfold from_json, subscript. rewrite Ht. simpl.
    rewrite MessageType_of_value_value, Hid, Hs, Hts, Hc. simpl.
    rewrite Hr. simpl.
    repeat (apply elem_of_cons in Hty as [->|Hty]; [done|]).
    by apply elem_of_nil in Hty.
Qed.

Lemma from_json_discriminator_witness :
  dict_get "message_type" [("message_type", JStr "ping")]
  = Some (JStr "ping") /\
  ("ping" ∉ known_values) /\
  from_json 0 (JObj [("message_type", JStr "ping")]) = inl ValueError.
Proof.
  assert (Hl : dict_get "message_type" [("message_type", JStr "ping")]
               = Some (JStr "ping")) by reflexivity.
  assert (Hn : "ping" ∉ known_values) by (by apply (bool_decide_unpack _)).
  exact (conj Hl (conj Hn
           (proj1 (from_json_discriminator 0 _ "ping" Hl) Hn))).
Defined.

(** [from_json] splits into a part that reads the document and a part
    that builds the object; only the second sees the draw. *)
Lemma Message_new_drawn u sender ty ts c r :
  message_id (Message_new u "" sender ty ts c r) = uuid_str u.
Proof. reflexivity. Qed.

Lemma Message_new_given u1 u2 id sender ty ts c r :
  id <> "" ->
  Message_new u1 id sender ty ts c r = Message_new u2 id sender ty ts c r.
Proof. intros H. unfold Message_new. by rewrite bool_decide_eq_false_2. Qed.

Lemma from_json_given_id u1 u2 data id :
  dict_get "message_id" data = Some (JStr id) -> id <> "" ->
  from_json u1 (JObj data) = from_json u2 (JObj data).
Proof.
  intros Hid Hne. unfold from_json, subscript, bind. rewrite Hid.
  unfold MulticastMessage_new, AckMessage_new.
  repeat case_match; simpl in *; simplify_eq; try done;
    by rewrite (Message_new_given u1 u2).
Qed.

Lemma from_json_drawn_id u1 u2 data m1 :
  dict_get "message_id" data = Some (JStr "") ->
  from_json u1 (JObj data) = inr m1 ->
  exists m2, from_json u2 (JObj data) = inr m2 /\
    message_id (base m1) = uuid_str u1 /\
    message_id (base m2) = uuid_str u2.
Proof.
  intros Hid. unfold from_json, subscript, bind. rewrite Hid.
  repeat case_match; simpl in *; simplify_eq; try done;
    intros [= <-]; eexists; (split; [reflexivity|]); by split.
Qed.

(** C10. For a frame whose [message_id] is a non-empty string the
    result of [from_json] does not depend on the identifier it could
    draw.  For a frame whose [message_id] is the empty string that
    decodes at all, every deserialization succeeds and the record's
    [message_id] is the string of the UUID drawn for it; two
    deserializations of the same frame with different 128-bit draws give
    records that differ in [message_id]. *)
Theorem from_json_message_id (u1 u2 : N) (data : list (string * json))
    (id : string) :
  dict_get "message_id" data = Some (JStr id) ->
  (id <> "" -> from_json u1 (JObj data) = from_json u2 (JObj data)) /\
  (id = "" -> forall m1, from_json u1 (JObj data) = inr m1 ->
     exists m2, from_json u2 (JObj data) = inr m2 /\
       message_id (base m1) = uuid_str u1 /\
       message_id (base m2) = uuid_str u2 /\
       ((u1 < 2 ^ 128)%N -> (u2 < 2 ^ 128)%N -> u1 <> u2 ->
        message_id (base m1) <> message_id (base m2))).
Proof.
  intros Hid. split.
  - intros Hne. by eapply from_json_given_id.
  - intros -> m1 H1.
    destruct (from_json_drawn_id u1 u2 data m1 Hid H1) as (m2 & H2 & E1 & E2).
    exists m2. repeat split; try done.
    intros B1 B2 Hne. rewrite E1, E2. intros E.
    by apply Hne, uuid_str_inj.
Qed.

Lemma from_json_message_id_witness :
  dict_get "message_id" anonymous_frame = Some (JStr "") /\
  exists m1 m2,
    from_json 1 (JObj anonymous_frame) = inr m1 /\
    from_json 2 (JObj anonymous_frame) = inr m2 /\
    message_id (base m1) <> message_id (base m2).
Proof.
  assert (Hid : dict_get "message_id" anonymous_frame = Some (JStr ""))
    by reflexivity.
  split; [exact Hid|].
  pose proof (proj2 (from_json_message_id 1 2 anonymous_frame "" Hid)
                eq_refl _ eq_refl) as (m2 & H2 & _ & _ & Hd).
  eexists _, m2. split; [reflexivity|]. split; [exact H2|].
  apply Hd; [reflexivity|reflexivity|discriminate].
Defined.

End MessageProperties.

(** ** The engine *)

Section EngineProperties.
Import Message ReliableMulticast.

Lemma precedes_spec (a b : AnyMessage) :
  precedes (base a) (base b) = true <-> key_lt (key a) (key b).
Proof. unfold precedes, key_lt, key; simpl. lia. Qed.

Lemma can_deliver_spec head others :
  can_deliver head others = true <-> none_precedes head others.
Proof.
  unfold can_deliver, none_precedes. rewrite forallb_forall. split.
  - intros H o Ho Hlt. apply list_elem_of_In in Ho. specialize (H o Ho).
    apply precedes_spec in Hlt. by rewrite Hlt in H.
  - intros H o Ho. apply list_elem_of_In in Ho. specialize (H o Ho).
    destruct (precedes (base o) (base head)) eqn:E; [|done].
    by apply precedes_spec in E.
Qed.

Lemma set_same (s : t) :
  set_delivered_messages (delivered_messages s)
    (set_message_queue (message_queue s) s) = s.
Proof. by destruct s. Qed.

(** The claim of C1 fails when two queued entries have equal keys: the
    head is not the unique minimum, yet the loop delivers it (and then the
    other one) instead of stopping with the queue unchanged. *)
Lemma equal_keys_are_delivered :
  ~ unique_minimum (twin "a") [twin "b"] /\
  message_queue twins_queued = [twin "a"; twin "b"] /\
  message_queue (try_deliver_messages twins_queued).1 = [] /\
  (try_deliver_messages twins_queued).2
  = [Delivered (twin "a"); Delivered (twin "b")].
Proof.
  split; [|by repeat split].
  intros H. apply (H (twin "b")); [set_solver|]. by right.
Qed.

(** C1, amended. With [head] in front of the queue, one round of the loop
    of [_try_deliver_messages] delivers [head] (pops it, adds its
    identifier to the delivered set, calls [on_message_delivered] when
    installed) and goes on with the rest exactly when no other queued
    entry has a strictly smaller (timestamp, sender) key and the
    identifier is not in the delivered set yet; an entry with an equal
    key does not hold it back.  Otherwise the loop stops: nothing is
    called and the state is unchanged. *)
Theorem try_deliver_head (s : t) (head : AnyMessage)
    (rest : list AnyMessage) :
  message_queue s = head :: rest ->
  let deliverable :=
    none_precedes head rest /\
    message_id (base head) ∉ delivered_messages s in
  (deliverable ->
     try_deliver_messages s =
       let s1 :=
         set_delivered_messages
           (delivered_messages s ∪ {[ message_id (base head) ]})
           (set_message_queue rest s) in
       ((try_deliver_messages s1).1,
        call_delivered s head ++ (try_deliver_messages s1).2)) /\
  (~ deliverable -> try_deliver_messages s = (s, [])) /\
  (on_message_delivered s = true -> call_delivered s head = [Delivered head]).
Proof.
  intros Hq deliverable. unfold try_deliver_messages. rewrite Hq. simpl.
  split; [|split].
  - intros [Hnp Hnd]. apply can_deliver_spec in Hnp. rewrite Hnp.
    rewrite bool_decide_eq_true_2 by done. simpl.
    destruct (deliver_loop rest _) as [[q' d'] out] eqn:E. simpl.
    by destruct s.
  - intros Hn.
    destruct (can_deliver head rest) eqn:Ec;
      [case_bool_decide as Ed|]; simpl.
    + exfalso. apply Hn. split; [by apply can_deliver_spec|done].
    + rewrite <- Hq. by rewrite set_same.
    + rewrite <- Hq. by rewrite set_same.
  - intros Hcb. unfold call_delivered. by rewrite Hcb.
Qed.

Lemma try_deliver_head_witness :
  message_queue twins_queued = [twin "a"; twin "b"] /\
  try_deliver_messages twins_queued =
    let s1 :=
      set_delivered_messages
        (delivered_messages twins_queued ∪ {[ "a" ]})
        (set_message_queue [twin "b"] twins_queued) in
    ((try_deliver_messages s1).1,
     call_delivered twins_queued (twin "a") ++ (try_deliver_messages s1).2).
Proof.
  assert (Hq : message_queue twins_queued = [twin "a"; twin "b"])
    by reflexivity.
  split; [exact Hq|].
  apply (proj1 (try_deliver_head twins_queued _ _ Hq)).
  split.
  - intros o Ho [Hlt|[_ Hlt]];
      (apply elem_of_cons in Ho as [->|Ho]; [|by apply elem_of_nil in Ho]);
      simpl in Hlt; lia.
  - simpl. set_solver.
Defined.

(** The loop splits the queue into the messages it delivers and the
    ones it leaves; the identifiers delivered are new and distinct. *)
Lemma deliver_loop_spec (queue : list AnyMessage) :
  forall delivered queue' delivered' out,
    deliver_loop queue delivered = (queue', delivered', out) ->
    queue = out ++ queue' /\
    delivered' = delivered ∪ list_to_set (map (fun m => message_id (base m)) out) /\
    NoDup (map (fun m => message_id (base m)) out) /\
    (forall m, m ∈ out -> message_id (base m) ∉ delivered).
Proof.
  induction queue as [|head rest IH]; intros d q' d' out H; simpl in H.
  - injection H as <- <- <-. simpl. repeat split; [set_solver|constructor|].
    intros m Hm. by apply elem_of_nil in Hm.
  - destruct (can_deliver head rest && _) eqn:E.
    + apply andb_true_iff in E as [_ Hd]. apply bool_decide_eq_true in Hd.
      destruct (deliver_loop rest _) as [[q1 d1] out1] eqn:E1.
      injection H as <- <- <-.
      apply IH in E1 as (Hq & Hd1 & Hnd & Hnew). simpl.
      split; [by rewrite Hq|]. split; [set_solver|]. split.
      * constructor; [|done]. intros Hin.
        apply list_elem_of_fmap in Hin as (m & Hm & Hin).
        apply Hnew in Hin. set_solver.
      * intros m Hm. apply elem_of_cons in Hm as [->|Hm]; [done|].
        apply Hnew in Hm. set_solver.
    + injection H as <- <- <-. simpl.
      repeat split; [set_solver|constructor|].
      intros m Hm. by apply elem_of_nil in Hm.
Qed.

Lemma try_deliver_messages_queue (s : t) :
  message_queue s
  = (deliver_loop (message_queue s) (delivered_messages s)).2
    ++ message_queue (try_deliver_messages s).1.
Proof.
  unfold try_deliver_messages.
  destruct (deliver_loop _ _) as [[q' d'] out] eqn:E.
  by apply deliver_loop_spec in E as (Hq & _).
Qed.

(** What [_try_deliver_messages] emits: one call per delivered message
    when the callback is installed. *)
Lemma call_delivered_events (s : t) (out : list AnyMessage) :
  flat_map (call_delivered s) out
  = if on_message_delivered s then map Delivered out else [].
Proof.
  unfold call_delivered. destruct (on_message_delivered s).
  - induction out as [|m out IH]; simpl; [done|]. by rewrite IH.
  - induction out as [|m out IH]; simpl; done.
Qed.

Lemma length_filter_NoDup_le {A B} `{EqDecision B} (f : A -> B) (b : B)
    (l : list A) :
  NoDup (map f l) -> (length (filter (fun x => f x = b) l) <= 1)%nat.
Proof.
  induction l as [|x l IH]; simpl; intros Hnd; [lia|].
  apply NoDup_cons in Hnd as [Hx Hnd]. specialize (IH Hnd).
  destruct (decide (f x = b)) as [E|E].
  - rewrite filter_cons_True by done. simpl.
    assert (Hl : filter (fun x => f x = b) l = []); [|by rewrite Hl].
    destruct (filter (fun x => f x = b) l) as [|y ys] eqn:Ef; [done|].
    exfalso. apply Hx.
    assert (Hy : y ∈ filter (fun x => f x = b) l) by (rewrite Ef; left).
    apply list_elem_of_filter in Hy as [Hy Hin].
    rewrite E, <- Hy. apply list_elem_of_fmap. by exists y.
  - by rewrite filter_cons_False.
Qed.

Lemma handle_received_multicast (m : AnyMessage) (u : N) (s : t) :
  message_type (base m) = MULTICAST ->
  handle_received_message m u s
  = handle_multicast_message m u
      (set_lamport_clock
         (Z.max (lamport_clock s) (timestamp (base m)) + 1) s).
Proof. intros H. unfold handle_received_message. simpl. by rewrite H. Qed.

Lemma handle_multicast_duplicate (m : AnyMessage) (u : N) (s : t) :
  message_id (base m) ∈ dom (received_messages s) ->
  handle_multicast_message m u s = (s, []).
Proof.
  intros H. unfold handle_multicast_message.
  by rewrite bool_decide_eq_true_2.
Qed.

(** The first receipt of a message: it is stored, acknowledged to its
    sender, queued, and the delivery loop runs. *)
Lemma handle_multicast_first (m : AnyMessage) (u : N) (s : t) :
  message_id (base m) ∉ dom (received_messages s) ->
  let out :=
    (deliver_loop (insert_ordered m (message_queue s))
                  (delivered_messages s)).2 in
  let r := handle_multicast_message m u s in
  received_messages r.1 = <[message_id (base m) := m]> (received_messages s) /\
  pending_messages r.1 = pending_messages s /\
  r.2 = Send (Ack (create_ack u (process_id s) (lamport_clock s + 1)
                              (message_id (base m))))
             (sender_id (base m))
        :: (if on_message_delivered s then map Delivered out else []).
Proof.
  intros H out r. subst out r. unfold handle_multicast_message.
  rewrite bool_decide_eq_false_2 by done. simpl.
  unfold try_deliver_messages. simpl.
  destruct (deliver_loop _ _) as [[q' d'] out] eqn:E. simpl.
  repeat split. f_equal. by rewrite call_delivered_events.
Qed.

Lemma filter_deliveries (id : string) (out : list AnyMessage) :
  filter (fun e => is_delivery_of id e) (map Delivered out)
  = map Delivered (filter (fun m => message_id (base m) = id) out).
Proof.
  induction out as [|m out IH]; [done|]. simpl.
  destruct (decide (message_id (base m) = id)) as [E|E].
  - rewrite !filter_cons_True; [by rewrite IH|done|].
    simpl. by apply bool_decide_pack.
  - rewrite !filter_cons_False; [done|done|].
    simpl. intros H. by apply bool_decide_unpack in H.
Qed.

Lemma filter_acks_deliveries (id : string) (out : list AnyMessage) :
  filter (fun e => is_ack_of id e) (map Delivered out) = [].
Proof.
  induction out as [|m out IH]; [done|]. simpl.
  rewrite filter_cons_False by (by intros ?). exact IH.
Qed.

(** C6. Handling the same inbound multicast a second time changes
    neither the delivered set nor the ordering queue and calls nothing;
    over the two handlings [on_message_delivered] is called at most once
    for its identifier, and, the first handling being the first receipt
    of that identifier, exactly one acknowledgment is sent for it. *)
Theorem handle_twice (s : t) (m : AnyMessage) (u1 u2 : N) :
  message_type (base m) = MULTICAST ->
  let id := message_id (base m) in
  let r1 := handle_received_message m u1 s in
  let r2 := handle_received_message m u2 r1.1 in
  delivered_messages r2.1 = delivered_messages r1.1 /\
  message_queue r2.1 = message_queue r1.1 /\
  r2.2 = [] /\
  (length (filter (fun e => is_delivery_of id e) (r1.2 ++ r2.2)) <= 1)%nat /\
  (id ∉ dom (received_messages s) ->
   length (filter (fun e => is_ack_of id e) (r1.2 ++ r2.2)) = 1%nat).
Proof.
  intros Hty id r1 r2. subst r2 r1.
  rewrite !(handle_received_multicast m) by done.
  set (s0 := set_lamport_clock _ s).
  assert (Hseen : id ∈ dom (received_messages (handle_multicast_message m u1 s0).1)).
  { destruct (decide (id ∈ dom (received_messages s0))) as [Hin|Hnin].
    - by rewrite handle_multicast_duplicate.
    - destruct (handle_multicast_first m u1 s0 Hnin) as (Hr & _).
      rewrite Hr. set_solver. }
  set (r1 := handle_multicast_message m u1 s0) in *.
  rewrite (handle_multicast_duplicate m u2) by done. simpl.
  repeat split; try done; rewrite app_nil_r.
  - destruct (decide (id ∈ dom (received_messages s0))) as [Hin|Hnin].
    + subst r1. rewrite handle_multicast_duplicate by done. simpl. lia.
    + destruct (handle_multicast_first m u1 s0 Hnin) as (_ & _ & Hev).
      subst r1. rewrite Hev. rewrite filter_cons_False by (by intros ?).
      destruct (on_message_delivered s0); [|simpl; lia].
      rewrite filter_deliveries, length_map.
      apply length_filter_NoDup_le.
      destruct (deliver_loop (insert_ordered m (message_queue s0))
                  (delivered_messages s0)) as [[q' d'] out] eqn:E.
      by apply deliver_loop_spec in E as (_ & _ & Hnd & _).
  - intros Hnin.
    destruct (handle_multicast_first m u1 s0 Hnin) as (_ & _ & Hev).
    subst r1. rewrite Hev.
    rewrite filter_cons_True by (simpl; by apply bool_decide_pack).
    destruct (on_message_delivered s0); [|done].
    by rewrite filter_acks_deliveries.
Qed.

(** *** The pending table under the timeout sweep *)

Lemma foldl_delete_lookup {V} (l : list (string * V)) :
  forall (m : gmap string V) (k : string),
    foldl (fun table kp => delete kp.1 table) m l !! k
    = if decide (k ∈ l.*1) then None else m !! k.
Proof.
  induction l as [|[k' v] l IH]; intros m k.
  - done.
  - change (foldl (fun table kp => delete kp.1 table) m ((k', v) :: l))
      with (foldl (fun table kp => delete kp.1 table) (delete k' m) l).
    rewrite IH. rewrite fmap_cons. simpl.
    destruct (decide (k ∈ l.*1)) as [Hin|Hnin];
      destruct (decide (k ∈ k' :: l.*1)) as [Hin'|Hnin']; try done.
    + exfalso. apply Hnin'. by right.
    + apply elem_of_cons in Hin' as [->|?]; [|done].
      apply lookup_delete_eq.
    + apply not_elem_of_cons in Hnin' as [Hne _].
      by rewrite lookup_delete_ne.
Qed.

Lemma foldl_insert_lookup_notin {V} (f : V -> V) (l : list (string * V)) :
  forall (m : gmap string V) (k : string),
    k ∉ l.*1 ->
    foldl (fun table kp => <[kp.1 := f kp.2]> table) m l !! k = m !! k.
Proof.
  induction l as [|[k' v] l IH]; intros m k Hk; simpl; [done|].
  simpl in Hk. apply not_elem_of_cons in Hk as [Hne Hk].
  rewrite IH by done. by rewrite lookup_insert_ne.
Qed.

Lemma foldl_insert_lookup_in {V} (f : V -> V) (l : list (string * V)) :
  forall (m : gmap string V) (k : string) (v : V),
    NoDup l.*1 -> (k, v) ∈ l ->
    foldl (fun table kp => <[kp.1 := f kp.2]> table) m l !! k = Some (f v).
Proof.
  induction l as [|[k' v'] l IH]; intros m k v Hnd Hin; simpl.
  - by apply elem_of_nil in Hin.
  - simpl in Hnd. apply NoDup_cons in Hnd as [Hk' Hnd].
    apply elem_of_cons in Hin as [[= -> ->]|Hin].
    + rewrite foldl_insert_lookup_notin by done. apply lookup_insert_eq.
    + by apply IH.
Qed.

Lemma filter_none {A} (P : A -> Prop) `{!forall x, Decision (P x)} (l : list A) :
  Forall (fun x => ~ P x) l -> filter P l = [].
Proof.
  induction 1 as [|x l Hx _ IH]; [done|].
  by rewrite filter_cons_False.
Qed.

Lemma filter_key_notin {V} (l : list (string * V)) (k : string) :
  k ∉ l.*1 -> filter (fun kp => kp.1 = k) l = [].
Proof.
  intros Hk. apply filter_none, Forall_forall. intros [k' v] Hin E.
  simpl in E. subst k'. apply Hk. apply list_elem_of_fmap. by exists (k, v).
Qed.

Lemma filter_key_in {V} (l : list (string * V)) (k : string) (v : V) :
  NoDup l.*1 -> (k, v) ∈ l -> filter (fun kp => kp.1 = k) l = [(k, v)].
Proof.
  induction l as [|[k' v'] l IH]; intros Hnd Hin.
  - by apply elem_of_nil in Hin.
  - simpl in Hnd. apply NoDup_cons in Hnd as [Hk' Hnd].
    apply elem_of_cons in Hin as [[= -> ->]|Hin].
    + rewrite filter_cons_True by done. by rewrite filter_key_notin.
    + rewrite filter_cons_False; [by apply IH|].
      simpl. intros ->. apply Hk'. apply list_elem_of_fmap. by exists (k, v).
Qed.

(** Events grouped by table entry, looked up by identifier. *)
Lemma filter_flat_map_key {V} (h : string * V -> list Event)
    (l : list (string * V)) (k : string) :
  (forall kp e, kp ∈ l -> e ∈ h kp -> event_id e = kp.1) ->
  filter (fun e => event_id e = k) (flat_map h l)
  = flat_map h (filter (fun kp => kp.1 = k) l).
Proof.
  induction l as [|kp l IH]; intros Hh; [done|]. simpl.
  rewrite filter_app, IH by (intros kp' e Hin; apply Hh; by right).
  destruct (decide (kp.1 = k)) as [E|E].
  - rewrite (filter_cons_True (fun kp => kp.1 = k)) by done. simpl.
    f_equal. apply filter_all, Forall_forall. intros e He.
    rewrite <- E. apply (Hh kp e); [left|done].
  - rewrite (filter_cons_False (fun kp => kp.1 = k)) by done.
    rewrite filter_none; [done|]. apply Forall_forall. intros e He Hk.
    apply E. rewrite <- Hk. symmetry. apply (Hh kp e); [left|done].
Qed.

Lemma NoDup_fst_filter {V} (P : string * V -> Prop)
    `{!forall x, Decision (P x)} (l : list (string * V)) :
  NoDup l.*1 -> NoDup (filter P l).*1.
Proof.
  induction l as [|kp l IH]; intros Hnd; [done|].
  rewrite fmap_cons in Hnd. apply NoDup_cons in Hnd as [Hk Hnd].
  destruct (decide (P kp)).
  - rewrite filter_cons_True by done. rewrite fmap_cons.
    apply NoDup_cons. split; [|by apply IH].
    intros Hin. apply Hk.
    apply list_elem_of_fmap in Hin as (kp' & -> & Hin).
    apply list_elem_of_filter in Hin as [_ Hin].
    apply list_elem_of_fmap. by exists kp'.
  - rewrite filter_cons_False by done. by apply IH.
Qed.

Lemma elem_of_selected (Q : PendingMessage -> bool)
    (m : gmap string PendingMessage) (k : string) (p : PendingMessage) :
  (k, p) ∈ filter (fun kp => Q kp.2) (map_to_list m)
  <-> m !! k = Some p /\ Q p = true.
Proof.
  rewrite list_elem_of_filter, elem_of_map_to_list. simpl.
  rewrite Is_true_true. tauto.
Qed.

Lemma key_of_selected (Q : PendingMessage -> bool)
    (m : gmap string PendingMessage) (k : string) :
  k ∈ (filter (fun kp => Q kp.2) (map_to_list m)).*1
  <-> exists p, m !! k = Some p /\ Q p = true.
Proof.
  rewrite list_elem_of_fmap. split.
  - intros ([k' p] & -> & Hin). exists p. by apply elem_of_selected.
  - intros (p & Hp). exists (k, p). split; [done|by apply elem_of_selected].
Qed.

Lemma NoDup_selected (Q : PendingMessage -> bool)
    (m : gmap string PendingMessage) :
  NoDup (filter (fun kp => Q kp.2) (map_to_list m)).*1.
Proof. apply NoDup_fst_filter, NoDup_fst_map_to_list. Qed.

Lemma wants_exclusive now p :
  wants_retry now p = true -> wants_fail now p = true -> False.
Proof.
  unfold wants_retry, wants_fail.
  destruct (timed_out now p), (retry_count p <? max_retries); simpl; congruence.
Qed.

(** The table after one round of the timeout checker, entry by entry. *)
Lemma timeout_checker_lookup (now : time) (s : t) (k : string) :
  pending_messages (timeout_checker now s).1 !! k
  = match pending_messages s !! k with
    | Some p =>
        if wants_fail now p then None
        else if wants_retry now p then Some (retried now p)
        else Some p
    | None => None
    end.
Proof.
  unfold timeout_checker. simpl.
  set (R := filter (fun kp => wants_retry now kp.2) _).
  set (F := filter (fun kp => wants_fail now kp.2) _).
  destruct (pending_messages s !! k) as [p|] eqn:Hk.
  - destruct (wants_fail now p) eqn:Hf; [|destruct (wants_retry now p) eqn:Hr].
    + rewrite foldl_insert_lookup_notin.
      * rewrite foldl_delete_lookup, decide_True; [done|].
        apply key_of_selected. by exists p.
      * intros (p' & Hp' & Hr)%key_of_selected.
        rewrite Hk in Hp'. injection Hp' as <-.
        by eapply wants_exclusive.
    + apply foldl_insert_lookup_in; [apply NoDup_selected|].
      by apply elem_of_selected.
    + rewrite foldl_insert_lookup_notin.
      * rewrite foldl_delete_lookup, decide_False; [done|].
        intros (p' & Hp' & Hf')%key_of_selected. congruence.
      * intros (p' & Hp' & Hr')%key_of_selected. congruence.
  - rewrite foldl_insert_lookup_notin.
    + rewrite foldl_delete_lookup, decide_False; [done|].
      intros (p' & Hp' & _)%key_of_selected. congruence.
    + intros (p' & Hp' & _)%key_of_selected. congruence.
Qed.

Lemma retransmit_ids (p : PendingMessage) (e : Event) :
  e ∈ retransmit p -> event_id e = message_id (message p).
Proof.
  unfold retransmit. intros (r & -> & _)%list_elem_of_fmap. done.
Qed.

Lemma call_failed_ids (s : t) (p : PendingMessage) (e : Event) :
  e ∈ call_failed s p -> event_id e = message_id (message p).
Proof.
  unfold call_failed. destruct (on_message_failed s).
  - intros [->|?%elem_of_nil]%elem_of_cons; done.
  - by intros ?%elem_of_nil.
Qed.

(** What one round of the timeout checker emits about one identifier. *)
Lemma timeout_checker_events (now : time) (s : t) (k : string) :
  keys_ok s ->
  filter (fun e => event_id e = k) (timeout_checker now s).2
  = match pending_messages s !! k with
    | Some p =>
        if wants_retry now p then retransmit p
        else if wants_fail now p then call_failed s p
        else []
    | None => []
    end.
Proof.
  intros Hkeys. unfold timeout_checker. simpl.
  rewrite filter_app.
  rewrite !filter_flat_map_key.
  2:{ intros [k' p'] e (Hp' & _)%elem_of_selected He. simpl in *.
      apply call_failed_ids in He. rewrite He. by apply Hkeys. }
  2:{ intros [k' p'] e (Hp' & _)%elem_of_selected He. simpl in *.
      apply retransmit_ids in He. rewrite He. by apply Hkeys. }
  destruct (pending_messages s !! k) as [p|] eqn:Hk.
  - destruct (wants_retry now p) eqn:Hr; [|destruct (wants_fail now p) eqn:Hf].
    + rewrite (filter_key_in _ k p);
        [|apply NoDup_selected|by apply elem_of_selected].
      rewrite filter_key_notin.
      * simpl. by rewrite !app_nil_r.
      * intros (p' & Hp' & Hf)%key_of_selected.
        rewrite Hk in Hp'. injection Hp' as <-.
        by eapply wants_exclusive.
    + rewrite filter_key_notin.
      * rewrite (filter_key_in _ k p);
          [|apply NoDup_selected|by apply elem_of_selected].
        simpl. by rewrite app_nil_r.
      * intros (p' & Hp' & Hr')%key_of_selected. congruence.
    + rewrite !filter_key_notin; [done| |].
      * intros (p' & Hp' & Hf')%key_of_selected. congruence.
      * intros (p' & Hp' & Hr')%key_of_selected. congruence.
  - rewrite !filter_key_notin; [done| |].
    + intros (p' & Hp' & _)%key_of_selected. congruence.
    + intros (p' & Hp' & _)%key_of_selected. congruence.
Qed.

(** *** What each call does to the pending table *)

Lemma create_multicast_id u sender ts c r seq :
  message_id (create_multicast u sender ts c r seq) = uuid_str u.
Proof.
  unfold create_multicast, MulticastMessage_new, set_message_type, Message_new.
  cbn [message_id multicast_base].
  rewrite bool_decide_eq_false_2; [done|apply uuid_str_nonempty].
Qed.

Lemma create_multicast_recipients u sender ts c r seq :
  recipients (create_multicast u sender ts c r seq) = r.
Proof. reflexivity. Qed.

Lemma multicast_message_id content recipients u (s : t) :
  message_id (multicast_message content recipients u s) = uuid_str u.
Proof. unfold multicast_message. apply create_multicast_id. Qed.

Lemma multicast_spec content recipients u now (s : t) :
  let m := multicast_message content recipients u s in
  let r := multicast content recipients u now s in
  r.1.1 = uuid_str u /\
  r.2 = map (Send (Multicast m)) (multicast_recipients recipients s) /\
  pending_messages r.1.2
  = <[uuid_str u := fresh_entry m now]> (pending_messages s) /\
  received_messages r.1.2 = received_messages s /\
  delivered_messages r.1.2 = delivered_messages s /\
  message_queue r.1.2 = message_queue s /\
  lamport_clock r.1.2 = lamport_clock s + 1 /\
  on_message_delivered r.1.2 = on_message_delivered s /\
  on_message_failed r.1.2 = on_message_failed s.
Proof.
  intros m r. subst m r. unfold multicast, LamportClock.tick.
  cbv beta iota zeta.
  fold (multicast_recipients recipients s).
  fold (multicast_message content recipients u s).
  cbn [fst snd pending_messages received_messages delivered_messages
       message_queue lamport_clock on_message_delivered on_message_failed
       set_pending_messages set_sequence_numbers set_lamport_clock].
  rewrite !multicast_message_id. by repeat split.
Qed.

Lemma handle_multicast_pending (m : AnyMessage) (u : N) (s : t) :
  pending_messages (handle_multicast_message m u s).1 = pending_messages s.
Proof.
  destruct (decide (message_id (base m) ∈ dom (received_messages s))).
  - by rewrite handle_multicast_duplicate.
  - by destruct (handle_multicast_first m u s) as (_ & -> & _).
Qed.

Lemma handle_ack_lookup (a : AckMessage) (s : t) (k : string) :
  pending_messages (handle_ack_message a s) !! k
  = match pending_messages s !! k with
    | Some p =>
        if decide (k = original_message_id a) then
          let p' := set_ack_received (ack_received p ∪ {[ sender_id a ]}) p in
          if Z.of_nat (length (recipients (message p)))
             <=? Z.of_nat (size (ack_received p'))
          then None else Some p'
        else Some p
    | None => None
    end.
Proof.
  unfold handle_ack_message.
  destruct (decide (k = original_message_id a)) as [->|Hne].
  - destruct (pending_messages s !! original_message_id a) as [q|] eqn:Hq;
      [|by rewrite Hq].
    cbv zeta. cbn [message set_ack_received ack_received].
    destruct (_ <=? _); cbn [pending_messages set_pending_messages].
    + apply lookup_delete_eq.
    + apply lookup_insert_eq.
  - destruct (pending_messages s !! original_message_id a) as [q|] eqn:Hq.
    + cbv zeta. cbn [message set_ack_received ack_received].
      destruct (_ <=? _); cbn [pending_messages set_pending_messages].
      * rewrite lookup_delete_ne by done. by destruct (_ !! k).
      * rewrite lookup_insert_ne by done. by destruct (_ !! k).
    + by destruct (_ !! k).
Qed.

(** An inbound message changes the table only when it is an
    acknowledgment. *)
Lemma handle_received_pending (m : AnyMessage) (u : N) (s : t) :
  pending_messages (handle_received_message m u s).1 = pending_messages s \/
  exists a, m = Ack a /\ message_type a = ACK /\
    forall k, pending_messages (handle_received_message m u s).1 !! k
              = pending_messages (handle_ack_message a s) !! k.
Proof.
  unfold handle_received_message. simpl.
  destruct (message_type (base m)) eqn:Hty; try by left.
  - left. by rewrite handle_multicast_pending.
  - destruct m as [b|a|mc]; try by left.
    right. exists a. repeat split; [done|]. intros k. simpl.
    by rewrite !handle_ack_lookup.
Qed.

(** *** Invariants of a run *)

#[local] Arguments multicast : simpl never.
#[local] Arguments handle_received_message : simpl never.
#[local] Arguments handle_multicast_message : simpl never.
#[local] Arguments handle_ack_message : simpl never.
#[local] Arguments timeout_checker : simpl never.
#[local] Opaque uuid_str.

Lemma multicast_pending_lookup content recipients u now (s : t) (k : string) :
  pending_messages (multicast content recipients u now s).1.2 !! k
  = if decide (uuid_str u = k)
    then Some (fresh_entry (multicast_message content recipients u s) now)
    else pending_messages s !! k.
Proof.
  destruct (multicast_spec content recipients u now s) as (_ & _ & -> & _).
  apply lookup_insert.
Qed.

Lemma step_multicast content recipients u now (s : t) :
  step (OpMulticast content recipients u now) s
  = ((multicast content recipients u now s).1.2,
     (multicast content recipients u now s).2).
Proof.
  unfold step.
  by destruct (multicast content recipients u now s) as [[? ?] ?].
Qed.

Lemma keys_ok_step (o : Op) (s : t) : keys_ok s -> keys_ok (step o s).1.
Proof.
  intros Hk k p. destruct o as [content recipients u now|m u|now|pid].
  - rewrite step_multicast. cbn [fst snd]. rewrite multicast_pending_lookup.
    case_decide as E.
    + intros [= <-]. cbn [message fresh_entry]. by rewrite multicast_message_id.
    + apply Hk.
  - unfold step. destruct (handle_received_pending m u s) as [->|(a & -> & Hty & Hl)].
    + apply Hk.
    + rewrite Hl, handle_ack_lookup.
      destruct (pending_messages s !! k) as [q|] eqn:Hq; [|done].
      case_decide; [|intros [= <-]; by apply Hk].
      cbv zeta. destruct (_ <=? _); [done|].
      intros [= <-]. simpl. by apply Hk.
  - unfold step. rewrite timeout_checker_lookup.
    destruct (pending_messages s !! k) as [q|] eqn:Hq; [|done].
    destruct (wants_fail now q); [done|].
    destruct (wants_retry now q); intros [= <-]; simpl; by apply Hk.
  - apply Hk.
Qed.

Lemma absent_step (k : string) (o : Op) (s : t) :
  pending_messages s !! k = None ->
  never_redrawn k [o] ->
  pending_messages (step o s).1 !! k = None.
Proof.
  intros Hk Hnr. destruct o as [content recipients u now|m u|now|pid].
  - rewrite step_multicast. cbn [fst snd]. rewrite multicast_pending_lookup.
    rewrite decide_False; [done|]. eapply Hnr. left.
  - unfold step. destruct (handle_received_pending m u s) as [->|(a & -> & Hty & Hl)].
    + done.
    + by rewrite Hl, handle_ack_lookup, Hk.
  - unfold step. by rewrite timeout_checker_lookup, Hk.
  - done.
Qed.

(** An inbound message makes the engine send acknowledgments and call
    [on_message_delivered], nothing else. *)
Lemma handle_received_events (m : AnyMessage) (u : N) (s : t) (e : Event) :
  e ∈ (handle_received_message m u s).2 ->
  (exists a target, e = Send (Ack a) target) \/ (exists d, e = Delivered d).
Proof.
  unfold handle_received_message. simpl.
  destruct (message_type (base m)) eqn:Hty;
    try (by intros ?%elem_of_nil).
  - set (s0 := set_lamport_clock _ s).
    destruct (decide (message_id (base m) ∈ dom (received_messages s0))).
    + rewrite handle_multicast_duplicate by done. by intros ?%elem_of_nil.
    + destruct (handle_multicast_first m u s0) as (_ & _ & ->); [done|].
      intros [->|He]%elem_of_cons; [left; by eexists _, _|].
      right. destruct (on_message_delivered s0);
        [|by apply elem_of_nil in He].
      apply list_elem_of_fmap in He as (d & -> & _). by exists d.
  - destruct m; by intros ?%elem_of_nil.
Qed.

Lemma transmission_event_id (k : string) (e : Event) :
  is_transmission_of k e -> event_id e = k.
Proof.
  destruct e as [[b|a|mc] target|d|f]; simpl; try done.
  by intros ?%bool_decide_unpack.
Qed.

Lemma no_transmission_step (k : string) (o : Op) (s : t) :
  keys_ok s ->
  pending_messages s !! k = None ->
  never_redrawn k [o] ->
  filter (fun e => is_transmission_of k e) (step o s).2 = [].
Proof.
  intros Hkeys Hk Hnr. apply filter_none, Forall_forall. intros e He Ht.
  destruct o as [content recipients u now|m u|now|pid].
  - rewrite step_multicast in He. cbn [fst snd] in He.
    destruct (multicast_spec content recipients u now s) as (_ & Hev & _).
    rewrite Hev in He. apply list_elem_of_fmap in He as (r & -> & _).
    cbn [is_transmission_of] in Ht. apply bool_decide_unpack in Ht.
    rewrite multicast_message_id in Ht. eapply Hnr; [left|done].
  - unfold step in He. apply handle_received_events in He as [(a & r & ->)|(d & ->)];
      done.
  - unfold step in He. apply transmission_event_id in Ht.
    assert (Hin : e ∈ filter (fun e => event_id e = k) (timeout_checker now s).2)
      by (by apply list_elem_of_filter).
    rewrite timeout_checker_events, Hk in Hin by done.
    by apply elem_of_nil in Hin.
  - simpl in He. by apply elem_of_nil in He.
Qed.

Lemma never_redrawn_cons (k : string) (o : Op) (ops : list Op) :
  never_redrawn k (o :: ops) -> never_redrawn k [o] /\ never_redrawn k ops.
Proof.
  intros H. split; intros c r u now Hin; apply (H c r u now).
  - apply elem_of_cons in Hin as [->|?%elem_of_nil]; [left|done].
  - by right.
Qed.

(** Once its entry is gone, a message is never transmitted again. *)
Lemma no_transmission_run (k : string) (ops : list Op) :
  forall s : t,
    keys_ok s ->
    pending_messages s !! k = None ->
    never_redrawn k ops ->
    filter (fun e => is_transmission_of k e) (run ops s).2 = [].
Proof.
  induction ops as [|o ops IH]; intros s Hkeys Hk Hnr; [done|].
  apply never_redrawn_cons in Hnr as [Hnr1 Hnr].
  simpl.
  pose proof (keys_ok_step o s Hkeys) as Hkeys'.
  pose proof (absent_step k o s Hk Hnr1) as Hk'.
  pose proof (no_transmission_step k o s Hkeys Hk Hnr1) as Hev.
  destruct (step o s) as [s1 ev1]. simpl in *.
  specialize (IH s1 Hkeys' Hk' Hnr).
  destruct (run ops s1) as [s2 ev2]. simpl in *.
  by rewrite filter_app, Hev, IH.
Qed.

Lemma keys_ok_init (pid : Z) (clock : Z) : keys_ok (init pid clock).
Proof.
  intros k p H. unfold init in H. cbn [pending_messages] in H.
  by rewrite lookup_empty in H.
Qed.

Lemma keys_ok_install (s : t) : keys_ok s -> keys_ok (install_callbacks s).
Proof. intros H k p. apply H. Qed.

Lemma keys_ok_after_send : keys_ok after_send.
Proof.
  pose proof (keys_ok_step (OpMulticast "hi" (Some [1; 2]) 7 0%Q) engine0
                (keys_ok_install _ (keys_ok_init 0 0))) as H.
  by rewrite step_multicast in H.
Qed.

Lemma after_send_lookup :
  pending_messages after_send !! uuid_str 7 = Some (fresh_entry sent_message 0%Q).
Proof.
  unfold after_send. rewrite multicast_pending_lookup.
  by rewrite decide_True.
Qed.

(** C5. In a round of the timeout checker, for every pending entry
    (filed under its message's identifier) whose age exceeds
    [ack_timeout]: while [retry_count < max_retries] (3) the entry stays
    with [sent_time] reset to the time of the round and [retry_count]
    one higher, and what the round sends for it is the message itself,
    once to each member of [recipients ∖ ack_received]; otherwise the
    entry leaves the table, [on_message_failed], when installed, is called
    once with the message and nothing else happens for it, and no later
    call of the engine transmits that message again. *)
Theorem timeout_round (now : time) (s : t) (k : string) (p : PendingMessage) :
  keys_ok s ->
  pending_messages s !! k = Some p ->
  timed_out now p = true ->
  let r := timeout_checker now s in
  (retry_count p < max_retries ->
     pending_messages r.1 !! k
     = Some {| message := message p; sent_time := now;
               ack_received := ack_received p;
               retry_count := retry_count p + 1 |} /\
     filter (fun e => event_id e = k) r.2
     = map (Send (Multicast (message p)))
           (elements (list_to_set (recipients (message p)) ∖ ack_received p
                      : gset Z))) /\
  (max_retries <= retry_count p ->
     pending_messages r.1 !! k = None /\
     filter (fun e => event_id e = k) r.2
     = (if on_message_failed s then [Failed (message p)] else []) /\
     forall ops, never_redrawn k ops ->
       filter (fun e => is_transmission_of k e) (run ops r.1).2 = []).
Proof.
  intros Hkeys Hk Hto r. subst r.
  rewrite timeout_checker_lookup, timeout_checker_events, Hk by done.
  unfold wants_fail, wants_retry. rewrite Hto. cbn [andb]. split.
  - intros Hlt. apply Z.ltb_lt in Hlt. rewrite Hlt. cbn [negb]. by split.
  - intros Hge. apply Z.ltb_ge in Hge. rewrite Hge. cbn [negb].
    repeat split. intros ops Hnr.
    apply no_transmission_run; [| |done].
    + apply (keys_ok_step (OpTimeout now) s Hkeys).
    + rewrite timeout_checker_lookup, Hk. unfold wants_fail.
      by rewrite Hto, Hge.
Qed.

Lemma timeout_round_witness :
  keys_ok after_send /\
  pending_messages after_send !! uuid_str 7
  = Some (fresh_entry sent_message 0%Q) /\
  timed_out 6%Q (fresh_entry sent_message 0%Q) = true /\
  pending_messages (timeout_checker 6%Q after_send).1 !! uuid_str 7
  = Some {| message := sent_message; sent_time := 6%Q;
            ack_received := ∅; retry_count := 1 |}.
Proof.
  assert (Ht : timed_out 6%Q (fresh_entry sent_message 0%Q) = true)
    by reflexivity.
  split; [exact keys_ok_after_send|].
  split; [exact after_send_lookup|].
  split; [exact Ht|].
  refine (proj1 (proj1 (timeout_round 6%Q after_send (uuid_str 7) _
                          keys_ok_after_send after_send_lookup Ht) _)).
  simpl. unfold max_retries. lia.
Defined.

(** *** The acknowledgment invariant *)

Lemma handle_received_ack (a : AckMessage) (u : N) (s : t) :
  message_type a = ACK ->
  handle_received_message (Ack a) u s
  = (handle_ack_message a
       (set_lamport_clock (Z.max (lamport_clock s) (timestamp a) + 1) s), []).
Proof.
  intros H. unfold handle_received_message, LamportClock.update.
  cbv zeta. cbn [base]. by rewrite H.
Qed.

Lemma acks_subset_after_send : acks_subset after_send.
Proof.
  intros k p. unfold after_send. rewrite multicast_pending_lookup.
  case_decide.
  - intros [= <-]. cbn [ack_received fresh_entry]. set_solver.
  - unfold engine0, install_callbacks, init. cbn [pending_messages].
    by rewrite lookup_empty.
Qed.

(** The claim of C4 fails on an acknowledgment from a peer that is not a
    recipient: the invariant holds before it is handled and not after. *)
Lemma stray_ack_breaks_subset :
  acks_subset after_send /\
  message_type stray_ack = ACK /\
  (sender_id stray_ack ∉ recipients sent_message) /\
  ~ acks_subset (handle_received_message (Ack stray_ack) 0 after_send).1.
Proof.
  split; [exact acks_subset_after_send|]. split; [done|].
  split; [by apply (bool_decide_unpack _)|].
  intros H. rewrite handle_received_ack in H by done.
  specialize (H (uuid_str 7)
                (set_ack_received (∅ ∪ {[ 5 ]}) (fresh_entry sent_message 0%Q))).
  cbn [fst] in H. rewrite handle_ack_lookup in H.
  cbn [pending_messages set_lamport_clock] in H.
  rewrite after_send_lookup in H.
  rewrite decide_True in H by done.
  assert (Hin : (5 : Z) ∈ (list_to_set [1; 2] : gset Z)); [|set_solver].
  apply H; [|set_solver]. clear H.
  cbv zeta. cbn [message fresh_entry set_ack_received ack_received].
  rewrite (left_id_L ∅ (∪)), size_singleton. done.
Qed.

(** C4, amended. The invariant [ack_received ⊆ recipients] of every
    pending entry is kept by every call of the engine ([multicast], a
    round of the timeout checker, a new known process, any inbound
    message) provided that, when the call is an inbound acknowledgment
    that names a pending entry, its sender is one of that entry's
    recipients.  (Nothing in the engine checks that it is.) *)
Theorem acks_subset_preserved (o : Op) (s : t) :
  acks_subset s ->
  (forall a u p,
      o = OpReceive (Ack a) u -> message_type a = ACK ->
      pending_messages s !! original_message_id a = Some p ->
      sender_id a ∈ recipients (message p)) ->
  acks_subset (step o s).1.
Proof.
  intros Hinv Hack k p. destruct o as [content recipients u now|m u|now|pid].
  - rewrite step_multicast. cbn [fst snd]. rewrite multicast_pending_lookup.
    case_decide.
    + intros [= <-]. cbn [ack_received fresh_entry]. set_solver.
    + apply Hinv.
  - unfold step.
    destruct (handle_received_pending m u s) as [->|(a & -> & Hty & Hl)].
    + apply Hinv.
    + rewrite Hl, handle_ack_lookup.
      destruct (pending_messages s !! k) as [q|] eqn:Hq; [|done].
      case_decide as E; [|intros [= <-]; exact (Hinv _ _ Hq)].
      cbv zeta. destruct (_ <=? _); [done|].
      intros [= <-]. cbn [ack_received message set_ack_received].
      subst k. specialize (Hack a u q eq_refl Hty Hq).
      specialize (Hinv _ _ Hq). set_solver.
  - unfold step. rewrite timeout_checker_lookup.
    destruct (pending_messages s !! k) as [q|] eqn:Hq; [|done].
    destruct (wants_fail now q); [done|].
    destruct (wants_retry now q); intros [= <-]; exact (Hinv _ _ Hq).
  - apply Hinv.
Qed.

Lemma acks_subset_preserved_witness :
  acks_subset after_send /\
  acks_subset
    (step (OpReceive (Ack (ack_from_1 (uuid_str 7))) 0) after_send).1.
Proof.
  split; [exact acks_subset_after_send|].
  apply (acks_subset_preserved _ after_send acks_subset_after_send).
  intros a u p [= <- <-] _ Hp.
  change (original_message_id (ack_from_1 (uuid_str 7))) with (uuid_str 7) in Hp.
  rewrite after_send_lookup in Hp. injection Hp as <-.
  by apply (bool_decide_unpack _).
Defined.

(** *** A multicast to nobody *)

Lemma missing_acks_nobody (p : PendingMessage) :
  recipients (message p) = [] -> retransmit p = [].
Proof.
  intros H. unfold retransmit, missing_acks. rewrite H.
  replace (list_to_set [] ∖ ack_received p) with (∅ : gset Z) by set_solver.
  by rewrite elements_empty.
Qed.

(** The claim of C3 fails: the entry of a multicast to nobody is still
    pending after [multicast]; three rounds of the timeout checker count
    three retries, and the fourth calls [on_message_failed] for it. *)
Lemma nobody_fails :
  let m := multicast_message "hi" (Some []) 7 engine0 in
  recipients m = [] /\
  pending_messages (run send_to_nobody engine0).1 !! uuid_str 7
  = Some (fresh_entry m 0%Q) /\
  retry_count <$>
    pending_messages (run (send_to_nobody ++ take 3 four_rounds) engine0).1
      !! uuid_str 7 = Some 3 /\
  (run (send_to_nobody ++ four_rounds) engine0).2 = [Failed m].
Proof. repeat split; by vm_compute. Qed.

(** C3, amended. When [multicast] is called with an empty recipient list
    (given, or the default when no other process is known), nothing is
    sent and the queue and the delivered set are untouched, but the
    pending entry created for it does not complete: it is in the table
    when [multicast] returns.  Each later round of the timeout checker
    that finds the entry older than [ack_timeout] sends nothing for it
    and either counts one more retry (while [retry_count < max_retries])
    or removes it and calls [on_message_failed], when installed, with
    the message. *)
Theorem multicast_to_nobody (content : string) (recipients : option (list Z))
    (u : N) (now : time) (s : t) :
  multicast_recipients recipients s = [] ->
  let r := multicast content recipients u now s in
  let m := multicast_message content recipients u s in
  r.1.1 = uuid_str u /\
  r.2 = [] /\
  Message.recipients m = [] /\
  pending_messages r.1.2 !! uuid_str u = Some (fresh_entry m now) /\
  delivered_messages r.1.2 = delivered_messages s /\
  message_queue r.1.2 = message_queue s /\
  (forall (now' : time) (s' : t) (p : PendingMessage),
      keys_ok s' ->
      pending_messages s' !! uuid_str u = Some p ->
      message p = m ->
      timed_out now' p = true ->
      let r' := timeout_checker now' s' in
      (retry_count p < max_retries ->
         pending_messages r'.1 !! uuid_str u
         = Some {| message := m; sent_time := now';
                   ack_received := ack_received p;
                   retry_count := retry_count p + 1 |} /\
         filter (fun e => event_id e = uuid_str u) r'.2 = []) /\
      (max_retries <= retry_count p ->
         pending_messages r'.1 !! uuid_str u = None /\
         filter (fun e => event_id e = uuid_str u) r'.2
         = (if on_message_failed s' then [Failed m] else []))).
Proof.
  intros Hnobody r m. subst r m.
  destruct (multicast_spec content recipients u now s)
    as (Hid & Hev & Hpend & _ & Hdel & Hq & _).
  assert (Hrec : Message.recipients (multicast_message content recipients u s) = [])
    by (unfold multicast_message; by rewrite create_multicast_recipients).
  split; [done|]. split; [by rewrite Hev, Hnobody|]. split; [done|].
  split; [by rewrite Hpend, lookup_insert_eq|]. split; [done|]. split; [done|].
  intros now' s' p Hkeys Hp Hm Hto r'. subst r'.
  rewrite timeout_checker_lookup, timeout_checker_events, Hp by done.
  unfold wants_fail, wants_retry, call_failed. rewrite Hto. cbn [andb].
  rewrite missing_acks_nobody by (by rewrite Hm). split.
  - intros Hlt. apply Z.ltb_lt in Hlt. rewrite Hlt. cbn [negb].
    unfold retried. by rewrite Hm.
  - intros Hge. apply Z.ltb_ge in Hge. rewrite Hge. cbn [negb].
    by rewrite Hm.
Qed.

Lemma multicast_to_nobody_witness :
  multicast_recipients None engine0 = [] /\
  (multicast "hi" None 7 0%Q engine0).2 = [] /\
  pending_messages (multicast "hi" None 7 0%Q engine0).1.2 !! uuid_str 7
  = Some (fresh_entry (multicast_message "hi" None 7 engine0) 0%Q).
Proof.
  assert (H : multicast_recipients None engine0 = []) by (by vm_compute).
  pose proof (multicast_to_nobody "hi" None 7 0%Q engine0 H)
    as (_ & Hev & _ & Hp & _).
  exact (conj H (conj Hev Hp)).
Defined.

(** *** Local delivery *)

Lemma insert_ordered_elem (m x : AnyMessage) (queue : list AnyMessage) :
  x ∈ insert_ordered m queue <-> x = m \/ x ∈ queue.
Proof.
  induction queue as [|y queue IH]; simpl.
  - set_solver.
  - destruct (precedes (base m) (base y)); [set_solver|].
    rewrite !elem_of_cons, IH. tauto.
Qed.

Lemma handle_multicast_first_queue (m : AnyMessage) (u : N) (s : t) :
  (message_id (base m) ∉ dom (received_messages s)) ->
  message_queue (handle_multicast_message m u s).1
  = (deliver_loop (insert_ordered m (message_queue s))
                  (delivered_messages s)).1.1.
Proof.
  intros H. unfold handle_multicast_message.
  rewrite bool_decide_eq_false_2 by done.
  unfold try_deliver_messages, LamportClock.tick. cbv zeta.
  cbn [message_queue delivered_messages add_to_ordered_queue
       set_message_queue set_lamport_clock set_received_messages
       add_known_process set_known_processes].
  by destruct (deliver_loop _ _) as [[q' d'] out].
Qed.

Lemma handle_ack_queue (a : AckMessage) (s : t) :
  message_queue (handle_ack_message a s) = message_queue s.
Proof.
  unfold handle_ack_message. destruct (_ !! _); [|done].
  cbv zeta. by destruct (_ <=? _).
Qed.

Lemma timeout_checker_queue (now : time) (s : t) :
  message_queue (timeout_checker now s).1 = message_queue s.
Proof. reflexivity. Qed.

Lemma timeout_checker_no_delivery (now : time) (s : t) (e : Event) :
  e ∈ (timeout_checker now s).2 ->
  (exists m r, e = Send (Multicast m) r) \/ (exists m, e = Failed m).
Proof.
  unfold timeout_checker. cbn [snd].
  intros [He|He]%elem_of_app; rewrite list_elem_of_In, in_flat_map in He;
    destruct He as ([k p] & _ & He); rewrite <- list_elem_of_In in He;
    cbn [snd] in He.
  - left. unfold retransmit in He.
    apply list_elem_of_fmap in He as (r & -> & _). by eexists _, _.
  - right. unfold call_failed in He. destruct (on_message_failed s).
    + apply elem_of_cons in He as [->|He%elem_of_nil]; [by eexists|done].
    + by apply elem_of_nil in He.
Qed.

Lemma never_received_cons (k : string) (o : Op) (ops : list Op) :
  never_received k (o :: ops) -> never_received k [o] /\ never_received k ops.
Proof.
  intros H. split; intros m u Hin; apply (H m u).
  - apply elem_of_cons in Hin as [->|?%elem_of_nil]; [left|done].
  - by right.
Qed.

(** A message that is neither queued nor received is not delivered. *)
Lemma no_delivery_step (k : string) (o : Op) (s : t) :
  (k ∉ queued_ids s) ->
  never_received k [o] ->
  (k ∉ queued_ids (step o s).1) /\
  filter (fun e => is_delivery_of k e) (step o s).2 = [].
Proof.
  intros Hq Hnr. destruct o as [content recipients u now|m u|now|pid].
  - rewrite step_multicast. cbn [fst snd].
    destruct (multicast_spec content recipients u now s)
      as (_ & Hev & _ & _ & _ & Hqueue & _).
    split; [unfold queued_ids; by rewrite Hqueue|].
    rewrite Hev. apply filter_none, Forall_forall.
    intros e (r & -> & _)%list_elem_of_fmap H. exact H.
  - unfold step, handle_received_message, LamportClock.update. cbv zeta.
    unfold queued_ids in *. set (s0 := set_lamport_clock _ s).
    destruct (message_type (base m)) eqn:Hty; try done.
    + assert (Hne : message_id (base m) <> k) by (eapply Hnr; [left|done]).
      destruct (decide (message_id (base m) ∈ dom (received_messages s0)))
        as [Hin|Hnin].
      * by rewrite handle_multicast_duplicate.
      * rewrite handle_multicast_first_queue by done.
        destruct (handle_multicast_first m u s0 Hnin) as (_ & _ & ->).
        destruct (deliver_loop (insert_ordered m (message_queue s0))
                    (delivered_messages s0)) as [[q' d'] out] eqn:E.
        apply deliver_loop_spec in E as (Hsplit & _).
        assert (Hall : forall x, x ∈ out ++ q' -> message_id (base x) <> k).
        { intros x Hx. rewrite <- Hsplit in Hx.
          apply insert_ordered_elem in Hx as [->|Hx]; [done|].
          intros <-. apply Hq. apply list_elem_of_fmap. by exists x. }
        cbn [fst snd]. split.
        -- intros (x & -> & Hx)%list_elem_of_fmap.
           apply (Hall x); [|done]. apply elem_of_app. by right.
        -- rewrite filter_cons_False by (by intros ?).
           destruct (on_message_delivered s0); [|done].
           rewrite filter_deliveries.
           rewrite filter_none; [done|]. apply Forall_forall.
           intros x Hx. apply Hall, elem_of_app. by left.
    + destruct m as [b|a|mc]; try done. cbn [fst snd].
      split; [|done]. by rewrite handle_ack_queue.
  - unfold step. split; [done|].
    apply filter_none, Forall_forall. intros e He.
    apply timeout_checker_no_delivery in He as [(m & r & ->)|(m & ->)];
      intros H; exact H.
  - done.
Qed.

Lemma no_delivery_run (k : string) (ops : list Op) :
  forall s : t,
    (k ∉ queued_ids s) ->
    never_received k ops ->
    filter (fun e => is_delivery_of k e) (run ops s).2 = [].
Proof.
  induction ops as [|o ops IH]; intros s Hq Hnr; [done|].
  apply never_received_cons in Hnr as [Hnr1 Hnr].
  destruct (no_delivery_step k o s Hq Hnr1) as [Hq' Hev].
  simpl. destruct (step o s) as [s1 ev1]. cbn [fst snd] in *.
  specialize (IH s1 Hq' Hnr).
  destruct (run ops s1) as [s2 ev2]. cbn [fst snd] in *.
  by rewrite filter_app, Hev, IH.
Qed.

(** The claim of C2 fails: peer 0 multicasts to peer 1 and receives its
    acknowledgment; the entry is complete, and peer 0 has delivered
    nothing: no call of [on_message_delivered], an empty queue, an empty
    delivered set. *)
Lemma sender_never_delivers :
  let m := multicast_message "hi" None 7 (add_known_process 1 engine0) in
  let r := run send_and_ack engine0 in
  recipients m = [1] /\
  message_id m = uuid_str 7 /\
  r.2 = [Send (Multicast m) 1] /\
  filter (fun e => is_delivery_of (uuid_str 7) e) r.2 = [] /\
  pending_messages r.1 = ∅ /\
  message_queue r.1 = [] /\
  delivered_messages r.1 = ∅.
Proof. repeat split; by vm_compute. Qed.

Lemma multicast_message_sender content recipients u (s : t) :
  sender_id (multicast_message content recipients u s) = process_id s.
Proof. reflexivity. Qed.

Lemma multicast_message_type content recipients u (s : t) :
  message_type (multicast_message content recipients u s) = MULTICAST.
Proof. reflexivity. Qed.

(** C2, amended. [multicast] by peer p calls [send_callback] once per
    recipient, in order, with the message, and that is all it emits: it
    does not deliver the message at p (the delivered set, the queue and
    the received table are unchanged; no call of [on_message_delivered])
    and sends no acknowledgment.  Afterwards p delivers the message only
    if it comes back as an inbound multicast: in any run in which it
    does not, [on_message_delivered] is never called for it.  And when
    it does come back for the first time, p acknowledges it to its
    sender, which is p itself. *)
Theorem multicast_only_sends (content : string)
    (recipients : option (list Z)) (u : N) (now : time) (s : t) :
  let r := multicast content recipients u now s in
  let m := multicast_message content recipients u s in
  r.2 = map (Send (Multicast m)) (multicast_recipients recipients s) /\
  sender_id m = process_id s /\
  delivered_messages r.1.2 = delivered_messages s /\
  message_queue r.1.2 = message_queue s /\
  received_messages r.1.2 = received_messages s /\
  (forall ops,
      (uuid_str u ∉ queued_ids s) ->
      never_received (uuid_str u) ops ->
      filter (fun e => is_delivery_of (uuid_str u) e) (run ops r.1.2).2 = []) /\
  (forall (u' : N) (s' : t),
      (uuid_str u ∉ dom (received_messages s')) ->
      exists a rest,
        (handle_received_message (Multicast m) u' s').2
        = Send (Ack a) (sender_id m) :: rest /\
        original_message_id a = uuid_str u).
Proof.
  intros r m. subst r m.
  destruct (multicast_spec content recipients u now s)
    as (_ & Hev & _ & Hrec & Hdel & Hq & _).
  split; [done|]. split; [done|]. split; [done|]. split; [done|].
  split; [done|]. split.
  - intros ops Hnq Hnr. apply no_delivery_run; [|done].
    unfold queued_ids. by rewrite Hq.
  - intros u' s' Hfresh.
    rewrite handle_received_multicast by done.
    set (s0 := set_lamport_clock _ s').
    destruct (handle_multicast_first
                (Multicast (multicast_message content recipients u s)) u' s0)
      as (_ & _ & ->).
    { cbn [base]. by rewrite multicast_message_id. }
    eexists _, _. split; [reflexivity|].
    cbn [base]. by rewrite multicast_message_id.
Qed.

Lemma multicast_only_sends_witness :
  (uuid_str 7 ∉ queued_ids engine0) /\
  never_received (uuid_str 7)
    [OpReceive (Ack (ack_from_1 (uuid_str 7))) 0; OpTimeout 6%Q] /\
  filter (fun e => is_delivery_of (uuid_str 7) e)
    (run [OpReceive (Ack (ack_from_1 (uuid_str 7))) 0; OpTimeout 6%Q]
         (multicast "hi" (Some [1; 2]) 7 0%Q engine0).1.2).2 = [].
Proof.
  assert (Hq : uuid_str 7 ∉ queued_ids engine0) by apply not_elem_of_nil.
  assert (Hn : never_received (uuid_str 7)
                 [OpReceive (Ack (ack_from_1 (uuid_str 7))) 0; OpTimeout 6%Q]).
  { intros m u Hin Hty.
    apply elem_of_cons in Hin as [[= -> ->]|Hin]; [discriminate Hty|].
    apply elem_of_cons in Hin as [?|Hin]; [done|].
    by apply elem_of_nil in Hin. }
  split; [exact Hq|]. split; [exact Hn|].
  destruct (multicast_only_sends "hi" (Some [1; 2]) 7 0%Q engine0)
    as (_ & _ & _ & _ & _ & H & _).
  exact (H _ Hq Hn).
Defined.

(** Scenario S2 of the specification: the clock goes from 2 to 11 on
    receipt, and the acknowledgment to peer 0 is stamped 12. *)
Example clock_merge_on_receive :
  lamport_clock (handle_received_message inbound 3 peer1).1 = 12 /\
  exists rest,
    (handle_received_message inbound 3 peer1).2
    = Send (Ack (create_ack 3 1 12 (uuid_str 9))) 0 :: rest.
Proof. split; [by vm_compute|]. eexists. by vm_compute. Qed.

Lemma handle_twice_witness :
  message_type (base inbound) = MULTICAST /\
  (message_id (base inbound) ∉ dom (received_messages peer1)) /\
  let r1 := handle_received_message inbound 3 peer1 in
  let r2 := handle_received_message inbound 4 r1.1 in
  delivered_messages r2.1 = delivered_messages r1.1 /\
  message_queue r2.1 = message_queue r1.1 /\
  r2.2 = [] /\
  (length (filter (fun e => is_delivery_of (message_id (base inbound)) e)
            (r1.2 ++ r2.2)) <= 1)%nat /\
  length (filter (fun e => is_ack_of (message_id (base inbound)) e)
            (r1.2 ++ r2.2)) = 1%nat.
Proof.
  assert (Hty : message_type (base inbound) = MULTICAST) by reflexivity.
  assert (Hnew : message_id (base inbound) ∉ dom (received_messages peer1)).
  { unfold peer1, install_callbacks, init. cbn [received_messages].
    rewrite dom_empty_L. apply not_elem_of_empty. }
  split; [exact Hty|]. split; [exact Hnew|].
  destruct (handle_twice peer1 inbound 3 4 Hty) as (H1 & H2 & H3 & H4 & H5).
  exact (conj H1 (conj H2 (conj H3 (conj H4 (H5 Hnew))))).
Defined.

(** *** The queue stays sorted, so its head is a minimum *)

Lemma insert_ordered_sorted (m : AnyMessage) (queue : list AnyMessage) :
  queue_sorted queue -> queue_sorted (insert_ordered m queue).
Proof.
  unfold queue_sorted.
  induction queue as [|x queue IH]; intros Hs; simpl.
  - repeat constructor.
  - apply StronglySorted_inv in Hs as [Hs Hx].
    destruct (precedes (base m) (base x)) eqn:E.
    + apply precedes_spec in E. constructor; [by constructor|].
      constructor.
      * unfold key_lt in *. simpl in *. lia.
      * eapply Forall_impl; [exact Hx|]. intros b Hb.
        unfold key_lt in *. simpl in *. lia.
    + constructor; [by apply IH|].
      apply Forall_forall. intros b Hb.
      apply insert_ordered_elem in Hb as [->|Hb].
      * intros Hlt. apply precedes_spec in Hlt. congruence.
      * by eapply Forall_forall in Hx.
Qed.

Lemma sorted_head_can_deliver (head : AnyMessage) (rest : list AnyMessage) :
  queue_sorted (head :: rest) -> can_deliver head rest = true.
Proof.
  intros Hs. apply StronglySorted_inv in Hs as [_ Hh].
  apply can_deliver_spec. intros o Ho. by eapply Forall_forall in Hh.
Qed.

(** Every state reached from a fresh engine files its entries under
    their identifiers. *)
Lemma keys_ok_run (ops : list Op) :
  forall s : t, keys_ok s -> keys_ok (run ops s).1.
Proof.
  induction ops as [|o ops IH]; intros s Hk; [done|].
  pose proof (keys_ok_step o s Hk) as Hk'. simpl.
  destruct (step o s) as [s1 ev1]. specialize (IH s1 Hk').
  by destruct (run ops s1).
Qed.

End EngineProperties.

(** ** Further properties of the engine and of the wire format *)

Section MoreProperties.
Import Message ReliableMulticast.

#[local] Arguments multicast : simpl never.
#[local] Arguments handle_received_message : simpl never.
#[local] Arguments handle_multicast_message : simpl never.
#[local] Arguments handle_ack_message : simpl never.
#[local] Arguments timeout_checker : simpl never.
#[local] Opaque uuid_str.

Lemma handle_multicast_first_state (m : AnyMessage) (u : N) (s : t) :
  (message_id (base m) ∉ dom (received_messages s)) ->
  (handle_multicast_message m u s).1
  = after_first_receipt m s
      (deliver_loop (insert_ordered m (message_queue s))
                    (delivered_messages s)).1.1
      (deliver_loop (insert_ordered m (message_queue s))
                    (delivered_messages s)).1.2.
Proof.
  intros H. unfold handle_multicast_message.
  rewrite bool_decide_eq_false_2 by done.
  unfold try_deliver_messages, LamportClock.tick. cbv zeta.
  cbn [message_queue delivered_messages add_to_ordered_queue
       set_message_queue set_lamport_clock set_received_messages
       add_known_process set_known_processes].
  by destruct (deliver_loop _ _) as [[q' d'] out].
Qed.

Lemma multicast_state content recipients u now (s : t) :
  (multicast content recipients u now s).1.2
  = after_multicast (multicast_message content recipients u s) now s.
Proof.
  unfold multicast, LamportClock.tick. cbv beta iota zeta.
  fold (multicast_recipients recipients s).
  fold (multicast_message content recipients u s).
  reflexivity.
Qed.

Lemma handle_ack_frame (a : AckMessage) (s : t) :
  handle_ack_message a s
  = set_pending_messages (pending_messages (handle_ack_message a s)) s.
Proof.
  unfold handle_ack_message. destruct (_ !! _); [|by destruct s].
  cbv zeta. by destruct (_ <=? _).
Qed.

Lemma timeout_checker_frame (now : time) (s : t) :
  (timeout_checker now s).1
  = set_pending_messages (pending_messages (timeout_checker now s).1) s.
Proof. reflexivity. Qed.

Lemma settled_init (pid clock : Z) : settled (init pid clock).
Proof. split; [done|]. unfold init. cbn. by rewrite dom_empty_L. Qed.

(** In a settled engine the first receipt of a multicast is
    acknowledged and delivered in the same call. *)
Lemma first_receipt_settled (m : AnyMessage) (u : N) (s : t) :
  settled s ->
  message_type (base m) = MULTICAST ->
  (message_id (base m) ∉ dom (received_messages s)) ->
  handle_received_message m u s
  = (after_first_receipt m
       (set_lamport_clock
          (Z.max (lamport_clock s) (timestamp (base m)) + 1) s)
       [] (delivered_messages s ∪ {[ message_id (base m) ]}),
     Send (Ack (ack_for m u s)) (sender_id (base m)) :: call_delivered s m).
Proof.
  intros [Hq Hd] Hty Hnew.
  rewrite handle_received_multicast by done.
  set (s0 := set_lamport_clock _ s).
  assert (Hnew0 : message_id (base m) ∉ dom (received_messages s0)) by done.
  assert (Hloop : deliver_loop (insert_ordered m (message_queue s0))
                    (delivered_messages s0)
                  = ([], delivered_messages s ∪ {[ message_id (base m) ]}, [m])).
  { subst s0. cbn [message_queue delivered_messages set_lamport_clock].
    rewrite Hq. cbn [insert_ordered deliver_loop can_deliver forallb andb].
    rewrite bool_decide_eq_true_2; [done|]. by rewrite Hd. }
  rewrite (surjective_pairing (handle_multicast_message m u s0)).
  rewrite handle_multicast_first_state by done.
  destruct (handle_multicast_first m u s0 Hnew0) as (_ & _ & ->).
  rewrite Hloop. cbn [fst snd]. f_equal. f_equal.
  unfold ack_for. subst s0. cbn [process_id lamport_clock set_lamport_clock].
  by replace (Z.max (lamport_clock s) (timestamp (base m)) + 1 + 1)
    with (Z.max (lamport_clock s) (timestamp (base m)) + 2) by lia.
Qed.

Lemma handle_received_duplicate (m : AnyMessage) (u : N) (s : t) :
  message_type (base m) = MULTICAST ->
  message_id (base m) ∈ dom (received_messages s) ->
  handle_received_message m u s
  = (set_lamport_clock
       (Z.max (lamport_clock s) (timestamp (base m)) + 1) s, []).
Proof.
  intros Hty Hin. rewrite handle_received_multicast by done.
  by rewrite handle_multicast_duplicate.
Qed.

(** A message that is not a multicast changes the clock and, when it is
    an acknowledgment, the pending table; it is never answered. *)
Lemma handle_received_other (m : AnyMessage) (u : N) (s : t) :
  message_type (base m) <> MULTICAST ->
  (handle_received_message m u s).2 = [] /\
  exists pending,
    (handle_received_message m u s).1
    = set_pending_messages pending
        (set_lamport_clock
           (Z.max (lamport_clock s) (timestamp (base m)) + 1) s).
Proof.
  intros Hty. unfold handle_received_message, LamportClock.update. cbv zeta.
  set (s0 := set_lamport_clock _ s).
  destruct (message_type (base m)) eqn:E; try done;
    try (split; [done|]; exists (pending_messages s0); by destruct s).
  destruct m as [b|a|mc];
    try (split; [done|]; exists (pending_messages s0); by destruct s).
  split; [done|]. eexists. cbn [fst]. apply handle_ack_frame.
Qed.

Lemma settled_step (o : Op) (s : t) : settled s -> settled (step o s).1.
Proof.
  intros Hs. destruct o as [content recipients u now|m u|now|pid].
  - rewrite step_multicast. cbn [fst]. rewrite multicast_state. exact Hs.
  - unfold step.
    destruct (decide (message_type (base m) = MULTICAST)) as [Hty|Hty].
    + destruct (decide (message_id (base m) ∈ dom (received_messages s)))
        as [Hin|Hnin].
      * rewrite handle_received_duplicate by done. exact Hs.
      * rewrite first_receipt_settled by done. destruct Hs as [Hq Hd].
        split; [done|]. cbn. rewrite dom_insert_L, Hd. set_solver.
    + destruct (handle_received_other m u s Hty) as (_ & pending & ->).
      exact Hs.
  - unfold step. rewrite timeout_checker_frame. exact Hs.
  - exact Hs.
Qed.

Lemma settled_run (ops : list Op) :
  forall s : t, settled s -> settled (run ops s).1.
Proof.
  induction ops as [|o ops IH]; intros s Hs; [done|].
  pose proof (settled_step o s Hs) as Hs'. simpl.
  destruct (step o s) as [s1 ev1]. specialize (IH s1 Hs').
  by destruct (run ops s1).
Qed.

Lemma callbacks_step (o : Op) (s : t) :
  on_message_delivered (step o s).1 = on_message_delivered s /\
  on_message_failed (step o s).1 = on_message_failed s /\
  process_id (step o s).1 = process_id s.
Proof.
  destruct o as [content recipients u now|m u|now|pid].
  - rewrite step_multicast. cbn [fst]. by rewrite multicast_state.
  - unfold step.
    destruct (decide (message_type (base m) = MULTICAST)) as [Hty|Hty].
    + rewrite handle_received_multicast by done.
      set (s0 := set_lamport_clock _ s).
      destruct (decide (message_id (base m) ∈ dom (received_messages s0))).
      * by rewrite handle_multicast_duplicate.
      * by rewrite handle_multicast_first_state.
    + by destruct (handle_received_other m u s Hty) as (_ & pending & ->).
  - unfold step. by rewrite timeout_checker_frame.
  - done.
Qed.

Lemma deliveries_app (ev1 ev2 : list Event) :
  deliveries (ev1 ++ ev2) = deliveries ev1 ++ deliveries ev2.
Proof. apply omap_app. Qed.

Lemma deliveries_call_delivered (s : t) (m : AnyMessage) :
  deliveries (call_delivered s m) = if on_message_delivered s then [m] else [].
Proof. unfold call_delivered. by destruct (on_message_delivered s). Qed.

Lemma deliveries_none (events : list Event) :
  (forall e, e ∈ events -> forall m, e <> Delivered m) ->
  deliveries events = [].
Proof.
  induction events as [|e events IH]; intros H; [done|].
  unfold deliveries. cbn [omap list_omap].
  destruct e as [m r|m|m].
  - apply IH. intros e He. apply H. by right.
  - exfalso. by apply (H (Delivered m) ltac:(left) m).
  - apply IH. intros e He. apply H. by right.
Qed.

(** What one call hands to [on_message_delivered] and adds to the
    received table, in a settled engine. *)
Lemma settled_step_deliveries (o : Op) (s : t) :
  settled s ->
  deliveries (step o s).2
  = (if on_message_delivered s
     then first_receipts (dom (received_messages s)) [o] else []) /\
  forall rest,
    first_receipts (dom (received_messages (step o s).1)) rest
    = match first_receipts (dom (received_messages s)) [o] with
      | [] => first_receipts (dom (received_messages s)) rest
      | m :: _ =>
          first_receipts
            (dom (received_messages s) ∪ {[ message_id (base m) ]}) rest
      end.
Proof.
  intros Hs. destruct o as [content recipients u now|m u|now|pid].
  - rewrite step_multicast. cbn [fst snd]. rewrite multicast_state. split.
    + destruct (multicast_spec content recipients u now s) as (_ & -> & _).
      rewrite deliveries_none; [by destruct (on_message_delivered s)|].
      by intros e (r & -> & _)%list_elem_of_fmap.
    + done.
  - unfold step. cbn [first_receipts].
    destruct (decide (message_type (base m) = MULTICAST)) as [Hty|Hty].
    + rewrite (bool_decide_eq_true_2 _ Hty). cbn [andb].
      destruct (decide (message_id (base m) ∈ dom (received_messages s)))
        as [Hin|Hnin].
      * rewrite handle_received_duplicate by done.
        rewrite bool_decide_eq_false_2 by (by intros ?).
        split; [by destruct (on_message_delivered s)|done].
      * rewrite first_receipt_settled by done.
        rewrite bool_decide_eq_true_2 by done. cbn [fst snd]. split.
        -- change (deliveries (?e :: ?l)) with (deliveries l).
           apply deliveries_call_delivered.
        -- intros rest. cbn [received_messages after_first_receipt
                              set_lamport_clock].
           by rewrite dom_insert_L, (comm_L (∪)).
    + rewrite (bool_decide_eq_false_2 _ Hty). cbn [andb].
      destruct (handle_received_other m u s Hty) as (-> & pending & ->).
      split; [by destruct (on_message_delivered s)|done].
  - unfold step. rewrite timeout_checker_frame. cbn [fst snd]. split; [|done].
    rewrite deliveries_none; [by destruct (on_message_delivered s)|].
    intros e He.
    by apply timeout_checker_no_delivery in He as [(m & r & ->)|(m & ->)].
  - split; [by destruct (on_message_delivered s)|done].
Qed.

Lemma first_receipts_cons (seen : gset string) (o : Op) (rest : list Op) :
  first_receipts seen (o :: rest)
  = first_receipts seen [o] ++
    match first_receipts seen [o] with
    | [] => first_receipts seen rest
    | m :: _ => first_receipts (seen ∪ {[ message_id (base m) ]}) rest
    end.
Proof.
  destruct o as [content recipients u now|m u|now|pid]; cbn [first_receipts];
    try done.
  by destruct (_ && _).
Qed.

Lemma first_receipts_fresh (ops : list Op) :
  forall seen : gset string,
    NoDup (map (fun m => message_id (base m)) (first_receipts seen ops)) /\
    forall m, m ∈ first_receipts seen ops -> message_id (base m) ∉ seen.
Proof.
  induction ops as [|o ops IH]; intros seen.
  - split; [constructor|]. by intros m ?%elem_of_nil.
  - destruct o as [content recipients u now|m u|now|pid]; cbn [first_receipts];
      try apply IH.
    destruct (bool_decide (message_type (base m) = MULTICAST)); cbn [andb];
      [|apply IH].
    case_bool_decide as Hnew; [|apply IH].
    destruct (IH (seen ∪ {[ message_id (base m) ]})) as [Hnd Hfresh].
    split.
    + cbn [map]. constructor; [|done].
      intros (x & Hx & Hin)%list_elem_of_fmap.
      apply Hfresh in Hin. set_solver.
    + intros x [->|Hx]%elem_of_cons; [done|].
      apply Hfresh in Hx. set_solver.
Qed.

(** X1. Starting from a settled engine (a fresh one is), after any run of
    calls the ordering queue is empty and the delivered set is exactly
    the set of identifiers in the received table: nothing ever waits in
    the queue between two calls. *)
Theorem queue_empty_between_calls (ops : list Op) (s : t) :
  settled s ->
  message_queue (run ops s).1 = [] /\
  delivered_messages (run ops s).1 = dom (received_messages (run ops s).1).
Proof. intros Hs. exact (settled_run ops s Hs). Qed.

Lemma queue_empty_between_calls_witness :
  settled engine0 /\
  message_queue (run send_and_ack engine0).1 = [].
Proof.
  assert (H : settled engine0) by apply (settled_init 0 0).
  exact (conj H (proj1 (queue_empty_between_calls send_and_ack engine0 H))).
Defined.

(** X2. In a settled engine, the first receipt of a multicast (its
    identifier is not in the received table) is completed within the
    call: the clock becomes [max(clock, m.timestamp) + 2], the sender is
    added to the known processes, one acknowledgment stamped with the new
    clock goes to the sender, and the message is delivered at once,
    whatever its timestamp. *)
Theorem first_receipt_delivers_at_once (m : AnyMessage) (u : N) (s : t) :
  settled s ->
  message_type (base m) = MULTICAST ->
  (message_id (base m) ∉ dom (received_messages s)) ->
  let r := handle_received_message m u s in
  r.2 = Send (Ack (ack_for m u s)) (sender_id (base m)) :: call_delivered s m /\
  timestamp (ack_for m u s) = lamport_clock r.1 /\
  lamport_clock r.1 = Z.max (lamport_clock s) (timestamp (base m)) + 2 /\
  message_queue r.1 = [] /\
  delivered_messages r.1 = delivered_messages s ∪ {[ message_id (base m) ]} /\
  known_processes r.1 = known_processes s ∪ {[ sender_id (base m) ]}.
Proof.
  intros Hs Hty Hnew r. subst r.
  rewrite first_receipt_settled by done. cbn [fst snd].
  split; [done|]. split; [|split; [|done]].
  - unfold ack_for, create_ack, AckMessage_new, set_message_type, Message_new.
    cbn [timestamp ack_base lamport_clock after_first_receipt
         set_lamport_clock]. lia.
  - cbn [lamport_clock after_first_receipt set_lamport_clock]. lia.
Qed.

Lemma first_receipt_delivers_at_once_witness :
  settled peer1 /\
  message_type (base inbound) = MULTICAST /\
  (message_id (base inbound) ∉ dom (received_messages peer1)) /\
  (handle_received_message inbound 3 peer1).2
  = [Send (Ack (ack_for inbound 3 peer1)) 0; Delivered inbound].
Proof.
  assert (Hs : settled peer1) by apply (settled_init 1 2).
  assert (Hty : message_type (base inbound) = MULTICAST) by reflexivity.
  assert (Hnew : message_id (base inbound) ∉ dom (received_messages peer1)).
  { unfold peer1, install_callbacks, init. cbn [received_messages].
    rewrite dom_empty_L. apply not_elem_of_empty. }
  split; [exact Hs|]. split; [exact Hty|]. split; [exact Hnew|].
  exact (proj1 (first_receipt_delivers_at_once inbound 3 peer1 Hs Hty Hnew)).
Defined.

(** What a run from a settled engine hands to the callback. *)
Lemma deliveries_run (ops : list Op) :
  forall s : t,
    settled s ->
    deliveries (run ops s).2
    = if on_message_delivered s
      then first_receipts (dom (received_messages s)) ops else [].
Proof.
  induction ops as [|o ops IH]; intros s Hs.
  - by destruct (on_message_delivered s).
  - destruct (settled_step_deliveries o s Hs) as [Hev Hseen].
    pose proof (settled_step o s Hs) as Hs'.
    destruct (callbacks_step o s) as (Hcb & _).
    cbn [run]. destruct (step o s) as [s1 ev1]. cbn [fst snd] in *.
    specialize (IH s1 Hs'). destruct (run ops s1) as [s2 ev2].
    cbn [fst snd] in *.
    rewrite (first_receipts_cons _ o ops).
    rewrite deliveries_app, Hev, IH, Hcb, Hseen.
    by destruct (on_message_delivered s).
Qed.

(** X3. Delivery follows arrival, not timestamps: over any run from a
    settled engine with the callback installed, the messages handed to
    [on_message_delivered] are exactly the inbound multicasts that arrive
    for the first time, in their order of arrival (none when the callback
    is not installed). *)
Theorem delivery_in_arrival_order (ops : list Op) (s : t) :
  settled s ->
  deliveries (run ops s).2
  = if on_message_delivered s
    then first_receipts (dom (received_messages s)) ops else [].
Proof. apply deliveries_run. Qed.

Lemma delivery_in_arrival_order_witness :
  settled peer1 /\
  deliveries
    (run [OpReceive inbound 3;
          OpReceive (Multicast (create_multicast 5 2 4 "B" [1] 0)) 4;
          OpReceive inbound 6] peer1).2
  = [inbound; Multicast (create_multicast 5 2 4 "B" [1] 0)].
Proof.
  assert (Hs : settled peer1) by apply (settled_init 1 2).
  split; [exact Hs|].
  rewrite (delivery_in_arrival_order _ peer1 Hs). by vm_compute.
Defined.

(** X4. No identifier is delivered twice: over any run from a settled
    engine the identifiers of the messages handed to
    [on_message_delivered] are pairwise distinct, and none of them was
    in the received table before the run. *)
Theorem delivered_at_most_once (ops : list Op) (s : t) :
  settled s ->
  NoDup (map (fun m => message_id (base m)) (deliveries (run ops s).2)) /\
  forall m, m ∈ deliveries (run ops s).2 ->
    message_id (base m) ∉ dom (received_messages s).
Proof.
  intros Hs. rewrite deliveries_run by done.
  destruct (on_message_delivered s).
  - apply first_receipts_fresh.
  - split; [constructor|]. by intros m ?%elem_of_nil.
Qed.

Lemma delivered_at_most_once_witness :
  settled peer1 /\
  NoDup (map (fun m => message_id (base m))
           (deliveries (run [OpReceive inbound 3; OpReceive inbound 6] peer1).2)).
Proof.
  assert (Hs : settled peer1) by apply (settled_init 1 2).
  exact (conj Hs (proj1 (delivered_at_most_once _ peer1 Hs))).
Defined.

(** What a call never takes back. *)
Lemma step_grows (o : Op) (s : t) :
  delivered_messages s ⊆ delivered_messages (step o s).1 /\
  dom (received_messages s) ⊆ dom (received_messages (step o s).1) /\
  known_processes s ⊆ known_processes (step o s).1 /\
  lamport_clock s <= lamport_clock (step o s).1.
Proof.
  destruct o as [content recipients u now|m u|now|pid].
  - rewrite step_multicast. cbn [fst]. rewrite multicast_state.
    cbn [delivered_messages received_messages known_processes lamport_clock
         after_multicast]. repeat split; [done..|lia].
  - unfold step.
    destruct (decide (message_type (base m) = MULTICAST)) as [Hty|Hty].
    + rewrite handle_received_multicast by done.
      set (s0 := set_lamport_clock _ s).
      destruct (decide (message_id (base m) ∈ dom (received_messages s0))).
      * rewrite handle_multicast_duplicate by done. subst s0.
        cbn [fst delivered_messages received_messages known_processes
             lamport_clock set_lamport_clock]. repeat split; [done..|lia].
      * rewrite handle_multicast_first_state by done.
        destruct (deliver_loop (insert_ordered m (message_queue s0))
                    (delivered_messages s0)) as [[q' d'] out] eqn:E.
        apply deliver_loop_spec in E as (_ & -> & _).
        subst s0.
        cbn [fst snd delivered_messages received_messages known_processes
             lamport_clock set_lamport_clock after_first_receipt].
        rewrite dom_insert_L. repeat split; [set_solver..|lia].
    + destruct (handle_received_other m u s Hty) as (_ & pending & ->).
      cbn [delivered_messages received_messages known_processes
           lamport_clock set_lamport_clock set_pending_messages].
      repeat split; [done..|lia].
  - unfold step. rewrite timeout_checker_frame.
    cbn [delivered_messages received_messages known_processes lamport_clock
         set_pending_messages]. repeat split; [done..|lia].
  - cbn [step fst add_known_process set_known_processes delivered_messages
         received_messages known_processes lamport_clock].
    repeat split; [done|done|set_solver|lia].
Qed.

(** X5. Nothing is ever forgotten, in any state: over any run the
    delivered set, the identifiers in the received table and the known
    processes only grow, and the clock never goes back. *)
Theorem delivered_is_permanent (ops : list Op) :
  forall s : t,
    delivered_messages s ⊆ delivered_messages (run ops s).1 /\
    dom (received_messages s) ⊆ dom (received_messages (run ops s).1) /\
    known_processes s ⊆ known_processes (run ops s).1 /\
    lamport_clock s <= lamport_clock (run ops s).1.
Proof.
  induction ops as [|o ops IH]; intros s; [by repeat split|].
  destruct (step_grows o s) as (H1 & H2 & H3 & H4).
  cbn [run]. destruct (step o s) as [s1 ev1]. cbn [fst] in *.
  destruct (IH s1) as (I1 & I2 & I3 & I4).
  destruct (run ops s1) as [s2 ev2]. cbn [fst] in *.
  repeat split; [set_solver..|lia].
Qed.

(** X6. Whatever arrives (any class, any type, duplicate or not), after
    [handle_received_message] the clock is beyond both the message's
    timestamp and its own previous value. *)
Theorem receive_advances_clock (m : AnyMessage) (u : N) (s : t) :
  timestamp (base m) < lamport_clock (handle_received_message m u s).1 /\
  lamport_clock s < lamport_clock (handle_received_message m u s).1.
Proof.
  destruct (decide (message_type (base m) = MULTICAST)) as [Hty|Hty].
  - rewrite handle_received_multicast by done.
    set (s0 := set_lamport_clock _ s).
    destruct (decide (message_id (base m) ∈ dom (received_messages s0))).
    + rewrite handle_multicast_duplicate by done. subst s0.
      cbn [fst lamport_clock set_lamport_clock]. lia.
    + rewrite handle_multicast_first_state by done. subst s0.
      cbn [lamport_clock set_lamport_clock after_first_receipt]. lia.
  - destruct (handle_received_other m u s Hty) as (_ & pending & ->).
    cbn [lamport_clock set_lamport_clock set_pending_messages]. lia.
Qed.

Lemma sequence_step (o : Op) (s : t) :
  sequence_numbers (step o s).1
  = match o with
    | OpMulticast _ _ _ _ =>
        <[process_id s := default 0 (sequence_numbers s !! process_id s) + 1]>
          (sequence_numbers s)
    | _ => sequence_numbers s
    end.
Proof.
  destruct o as [content recipients u now|m u|now|pid].
  - rewrite step_multicast. cbn [fst]. by rewrite multicast_state.
  - unfold step.
    destruct (decide (message_type (base m) = MULTICAST)) as [Hty|Hty].
    + rewrite handle_received_multicast by done.
      set (s0 := set_lamport_clock _ s).
      destruct (decide (message_id (base m) ∈ dom (received_messages s0))).
      * by rewrite handle_multicast_duplicate.
      * by rewrite handle_multicast_first_state.
    + by destruct (handle_received_other m u s Hty) as (_ & pending & ->).
  - unfold step. by rewrite timeout_checker_frame.
  - done.
Qed.

Lemma count_multicasts_cons (o : Op) (ops : list Op) :
  count_multicasts (o :: ops)
  = (match o with OpMulticast _ _ _ _ => 1 | _ => 0 end
     + count_multicasts ops)%nat.
Proof. by destruct o. Qed.

Lemma next_sequence_run (ops : list Op) :
  forall s : t,
    process_id (run ops s).1 = process_id s /\
    default 0 (sequence_numbers (run ops s).1 !! process_id s)
    = default 0 (sequence_numbers s !! process_id s)
      + Z.of_nat (count_multicasts ops).
Proof.
  induction ops as [|o ops IH]; intros s.
  - cbn [run fst count_multicasts]. split; [done|lia].
  - pose proof (sequence_step o s) as Hseq.
    destruct (callbacks_step o s) as (_ & _ & Hpid).
    cbn [run]. destruct (step o s) as [s1 ev1]. cbn [fst] in *.
    destruct (IH s1) as [Ip Is].
    destruct (run ops s1) as [s2 ev2]. cbn [fst] in *.
    rewrite Hpid in *. split; [done|].
    rewrite Is, Hseq, count_multicasts_cons.
    destruct o; cbn [Nat.add];
      [rewrite lookup_insert_eq; cbn [default]; unfold id|..]; lia.
Qed.

(** X7. A peer numbers and stamps what it sends: after any run of a
    fresh engine of process [pid], [multicast] sends to each recipient, in
    order, one message whose sender is [pid], whose sequence number is the
    number of [multicast] calls made before, whose timestamp is the clock
    plus one, which is the value the clock then holds, and which
    requires an acknowledgment. *)
Theorem multicast_numbers_and_stamps (ops : list Op) (pid clock : Z)
    (content : string) (recipients : option (list Z)) (u : N) (now : time) :
  let s := (run ops (init pid clock)).1 in
  let r := multicast content recipients u now s in
  exists m : MulticastMessage,
    r.2 = map (Send (Multicast m)) (multicast_recipients recipients s) /\
    r.1.1 = message_id m /\
    sender_id m = pid /\
    sequence_number m = Z.of_nat (count_multicasts ops) /\
    timestamp m = lamport_clock s + 1 /\
    lamport_clock r.1.2 = timestamp m /\
    content = Message.content m /\
    Message.recipients m = multicast_recipients recipients s /\
    requires_ack m = true.
Proof.
  intros s r. subst r.
  exists (multicast_message content recipients u s).
  destruct (multicast_spec content recipients u now s)
    as (Hid & Hev & _ & _ & _ & _ & Hclock & _).
  destruct (next_sequence_run ops (init pid clock)) as [Hpid Hseq].
  fold s in Hpid, Hseq.
  split; [done|]. split; [by rewrite Hid, multicast_message_id|].
  split; [exact Hpid|]. split.
  - unfold multicast_message, create_multicast, MulticastMessage_new.
    cbn [sequence_number]. cbn [process_id sequence_numbers init] in Hpid, Hseq.
    rewrite lookup_empty in Hseq. cbn [default] in Hseq.
    rewrite Hpid, Hseq. lia.
  - by repeat split.
Qed.

Lemma step_ack_lookup (a : AckMessage) (u : N) (s : t) (k : string) :
  message_type a = ACK ->
  pending_messages (step (OpReceive (Ack a) u) s).1 !! k
  = match pending_messages s !! k with
    | Some p =>
        if decide (k = original_message_id a) then
          let p' := set_ack_received (ack_received p ∪ {[ sender_id a ]}) p in
          if Z.of_nat (length (recipients (message p)))
             <=? Z.of_nat (size (ack_received p'))
          then None else Some p'
        else Some p
    | None => None
    end.
Proof.
  intros Hty. unfold step. rewrite handle_received_ack by done.
  cbn [fst]. by rewrite handle_ack_lookup.
Qed.

Lemma size_list_to_set_NoDup (l : list Z) :
  NoDup l -> size (list_to_set l : gset Z) = length l.
Proof. apply size_list_to_set. Qed.

Lemma size_list_to_set_le (l : list Z) :
  (size (list_to_set l : gset Z) <= length l)%nat.
Proof.
  induction l as [|x l IH]; [done|]. cbn [list_to_set length].
  pose proof (size_union_alt {[ x ]} (list_to_set l : gset Z)) as H.
  rewrite H, size_singleton.
  pose proof (subseteq_size (list_to_set l ∖ {[ x ]}) (list_to_set l : gset Z)
                ltac:(set_solver)). lia.
Qed.

Lemma size_list_to_set_lt (l : list Z) :
  ~ NoDup l -> (size (list_to_set l : gset Z) < length l)%nat.
Proof.
  induction l as [|x l IH]; intros Hd; [by destruct Hd; constructor|].
  cbn [list_to_set length].
  destruct (decide (x ∈ l)) as [Hin|Hnin].
  - replace ({[ x ]} ∪ list_to_set l : gset Z) with (list_to_set l : gset Z)
      by set_solver.
    pose proof (size_list_to_set_le l). lia.
  - assert (Hl : ~ NoDup l).
    { intros Hnd. apply Hd. by constructor. }
    specialize (IH Hl).
    rewrite size_union by set_solver. rewrite size_singleton. lia.
Qed.

(** Acknowledgments from distinct new senders, one after the other. *)
Lemma acks_fill (k : string) (acks : list AckMessage) :
  forall (seen : list Z) (s : t) (p : PendingMessage),
    pending_messages s !! k = Some p ->
    ack_received p = list_to_set seen ->
    NoDup (seen ++ map ack_sender acks) ->
    Forall (acknowledges k) acks ->
    (length seen + length acks < length (recipients (message p)))%nat ->
    pending_messages (run (receive_acks acks) s).1 !! k
    = Some (set_ack_received
              (list_to_set (seen ++ map ack_sender acks)) p).
Proof.
  induction acks as [|a acks IH]; intros seen s p Hp Hseen Hnd Hall Hlen.
  - cbn [receive_acks map run fst]. rewrite app_nil_r, <- Hseen.
    rewrite Hp. by destruct p.
  - apply Forall_cons in Hall as [[Hty Horig] Hall].
    cbn [length map] in *.
    assert (Hstep : pending_messages (step (OpReceive (Ack a) 0) s).1 !! k
              = Some (set_ack_received (list_to_set (seen ++ [sender_id a])) p)).
    { rewrite step_ack_lookup, Hp by done.
      rewrite decide_True by done. cbv zeta.
      cbn [ack_received set_ack_received].
      assert (Hsize : size (ack_received p ∪ {[ sender_id a ]})
                      = S (length seen)).
      { rewrite Hseen, size_union, size_singleton.
        - rewrite size_list_to_set_NoDup; [lia|].
          by apply NoDup_app in Hnd as (? & _).
        - apply NoDup_app in Hnd as (_ & Hdisj & _).
          intros x Hx ->%elem_of_singleton.
          apply elem_of_list_to_set in Hx. apply (Hdisj _ Hx). left. }
      rewrite Hsize.
      destruct (Z.leb_spec (Z.of_nat (length (recipients (message p))))
                  (Z.of_nat (S (length seen)))) as [Hle|Hgt]; [lia|].
      do 2 f_equal. rewrite Hseen, list_to_set_app_L. set_solver. }
    change (receive_acks (a :: acks))
      with (OpReceive (Ack a) 0 :: receive_acks acks).
    cbn [run]. destruct (step (OpReceive (Ack a) 0) s) as [s1 ev1].
    cbn [fst] in *.
    specialize (IH (seen ++ [sender_id a]) s1 _ Hstep eq_refl).
    destruct (run (receive_acks acks) s1) as [s2 ev2]. cbn [fst] in *.
    rewrite IH.
    + cbn [message set_ack_received]. rewrite <- app_assoc. by destruct p.
    + by rewrite <- app_assoc.
    + done.
    + cbn [message set_ack_received]. rewrite length_app. cbn [length]. lia.
Qed.

(** X8. An entry completes by count: when acknowledgments naming a
    pending message arrive from pairwise distinct senders that have not
    acknowledged it yet, the entry stays in the table, collecting them,
    as long as fewer senders have acknowledged than the recipient list is
    long, and it is removed by the acknowledgment that makes the two
    numbers equal. *)
Theorem acks_complete_by_count (k : string) (acks : list AckMessage)
    (last : AckMessage) (seen : list Z) (s : t) (p : PendingMessage) :
  pending_messages s !! k = Some p ->
  ack_received p = list_to_set seen ->
  NoDup (seen ++ map ack_sender (acks ++ [last])) ->
  Forall (acknowledges k) (acks ++ [last]) ->
  (length seen + length acks + 1 = length (recipients (message p)))%nat ->
  pending_messages (run (receive_acks acks) s).1 !! k
  = Some (set_ack_received
            (list_to_set (seen ++ map ack_sender acks)) p) /\
  pending_messages (run (receive_acks (acks ++ [last])) s).1 !! k = None.
Proof.
  intros Hp Hseen Hnd Hall Hlen.
  rewrite map_app in Hnd. cbn [map] in Hnd.
  apply Forall_app in Hall as [Hall Hlast].
  apply Forall_cons in Hlast as [[Hty Horig] _].
  assert (Hfront : pending_messages (run (receive_acks acks) s).1 !! k
            = Some (set_ack_received
                      (list_to_set (seen ++ map ack_sender acks)) p)).
  { apply acks_fill; [done|done| |done|lia].
    rewrite app_assoc in Hnd. by apply NoDup_app in Hnd as (? & _). }
  split; [exact Hfront|].
  unfold receive_acks. rewrite map_app. fold (receive_acks acks).
  cbn [map].
  assert (Hrun : forall ops1 ops2 (s0 : t),
            (run (ops1 ++ ops2) s0).1 = (run ops2 (run ops1 s0).1).1).
  { induction ops1 as [|o ops1 IH]; intros ops2 s0; [done|].
    cbn [app run]. destruct (step o s0) as [s1 ev1].
    specialize (IH ops2 s1).
    destruct (run (ops1 ++ ops2) s1), (run ops1 s1). cbn [fst] in *.
    exact IH. }
  rewrite Hrun.
  set (s1 := (run (receive_acks acks) s).1) in *.
  change (run [OpReceive (Ack last) 0] s1)
    with (let '(s2, ev) := step (OpReceive (Ack last) 0) s1 in (s2, ev ++ [])).
  pose proof (step_ack_lookup last 0 s1 k Hty) as Hstep.
  destruct (step (OpReceive (Ack last) 0) s1) as [s2 ev2]. cbn [fst] in *.
  rewrite Hstep, Hfront, decide_True by done. cbv zeta.
  cbn [ack_received set_ack_received message].
  assert (Hsize : size (list_to_set (seen ++ map ack_sender acks)
                          ∪ {[ sender_id last ]} : gset Z)
                  = length (recipients (message p))).
  { rewrite app_assoc in Hnd.
    rewrite size_union, size_singleton.
    - rewrite size_list_to_set_NoDup.
      + rewrite length_app, length_map. lia.
      + by apply NoDup_app in Hnd as (? & _).
    - apply NoDup_app in Hnd as (_ & Hdisj & _).
      intros x Hx ->%elem_of_singleton.
      apply elem_of_list_to_set in Hx. apply (Hdisj _ Hx). left. }
  rewrite Hsize. by rewrite Z.leb_refl.
Qed.

Lemma acks_complete_by_count_witness :
  pending_messages after_send !! uuid_str 7
  = Some (fresh_entry sent_message 0%Q) /\
  pending_messages
    (run (receive_acks [ack_from_1 (uuid_str 7)]) after_send).1 !! uuid_str 7
  = Some (set_ack_received (list_to_set [1]) (fresh_entry sent_message 0%Q)) /\
  pending_messages
    (run (receive_acks [ack_from_1 (uuid_str 7); ack_from_2 (uuid_str 7)])
         after_send).1 !! uuid_str 7 = None.
Proof.
  split; [exact after_send_lookup|].
  apply (acks_complete_by_count (uuid_str 7) [ack_from_1 (uuid_str 7)]
           (ack_from_2 (uuid_str 7)) [] after_send _ after_send_lookup).
  - reflexivity.
  - cbn. repeat constructor; set_solver.
  - repeat constructor.
  - reflexivity.
Defined.

(** X9. A recipient list that names a peer twice can never be
    completed by its recipients: while the acknowledgments received come
    from recipients, one more acknowledgment from a recipient leaves the
    entry in the table. *)
Theorem repeated_recipient_never_completes (a : AckMessage) (u : N) (s : t)
    (p : PendingMessage) :
  pending_messages s !! original_message_id a = Some p ->
  message_type a = ACK ->
  ~ NoDup (recipients (message p)) ->
  ack_received p ⊆ list_to_set (recipients (message p)) ->
  sender_id a ∈ recipients (message p) ->
  pending_messages (handle_received_message (Ack a) u s).1
    !! original_message_id a
  = Some (set_ack_received (ack_received p ∪ {[ sender_id a ]}) p).
Proof.
  intros Hp Hty Hdup Hsub Hin.
  pose proof (step_ack_lookup a u s (original_message_id a) Hty) as H.
  unfold step in H. rewrite H, Hp, decide_True by done. cbv zeta.
  cbn [ack_received set_ack_received].
  destruct (Z.leb_spec (Z.of_nat (length (recipients (message p))))
              (Z.of_nat (size (ack_received p ∪ {[ sender_id a ]}))))
    as [Hle|Hgt]; [|done].
  exfalso.
  pose proof (size_list_to_set_lt _ Hdup) as Hlt.
  assert (Hs : (size (ack_received p ∪ {[ sender_id a ]})
                <= size (list_to_set (recipients (message p)) : gset Z))%nat).
  { apply subseteq_size. set_solver. }
  lia.
Qed.

Lemma repeated_recipient_never_completes_witness :
  let s := (multicast "hi" (Some [1; 1]) 7 0%Q engine0).1.2 in
  let p := fresh_entry (multicast_message "hi" (Some [1; 1]) 7 engine0) 0%Q in
  pending_messages s !! uuid_str 7 = Some p /\
  pending_messages
    (handle_received_message (Ack (ack_from_1 (uuid_str 7))) 0 s).1
    !! uuid_str 7
  = Some (set_ack_received (∅ ∪ {[ 1 ]}) p).
Proof.
  intros s p.
  assert (Hp : pending_messages s !! uuid_str 7 = Some p).
  { subst s p. rewrite multicast_pending_lookup. by rewrite decide_True. }
  split; [exact Hp|].
  apply (repeated_recipient_never_completes (ack_from_1 (uuid_str 7)) 0 s p Hp).
  - reflexivity.
  - subst p. cbn. intros Hnd. apply NoDup_cons in Hnd as [Hn _]. set_solver.
  - subst p. cbn. set_solver.
  - subst p. cbn. set_solver.
Defined.

(** X10. A message that is not a multicast is never answered and never
    delivered: the engine emits nothing, and leaves everything but the
    clock and the pending table as it was.  An acknowledgment that names
    no pending entry (unknown, completed or abandoned) changes nothing
    but the clock. *)
Theorem only_multicasts_are_answered (m : AnyMessage) (u : N) (s : t) :
  message_type (base m) <> MULTICAST ->
  let r := handle_received_message m u s in
  r.2 = [] /\
  r.1 = set_pending_messages (pending_messages r.1)
          (set_lamport_clock
             (Z.max (lamport_clock s) (timestamp (base m)) + 1) s) /\
  (forall a, m = Ack a ->
     pending_messages s !! original_message_id a = None ->
     pending_messages r.1 = pending_messages s).
Proof.
  intros Hty r. subst r.
  destruct (handle_received_other m u s Hty) as (Hev & pending & Hst).
  split; [done|]. split; [by rewrite Hst|].
  intros a -> Hnone.
  unfold handle_received_message, LamportClock.update. cbv zeta.
  destruct (message_type (base (Ack a))); try done.
  cbn [fst]. unfold handle_ack_message.
  cbn [pending_messages set_lamport_clock]. by rewrite Hnone.
Qed.

Lemma only_multicasts_are_answered_witness :
  message_type (base (Ack stray_ack)) <> MULTICAST /\
  (handle_received_message (Ack stray_ack) 0 engine0).2 = [] /\
  pending_messages (handle_received_message (Ack stray_ack) 0 engine0).1
  = pending_messages engine0.
Proof.
  assert (Hty : message_type (base (Ack stray_ack)) <> MULTICAST) by done.
  destruct (only_multicasts_are_answered (Ack stray_ack) 0 engine0 Hty)
    as (Hev & _ & Hack).
  exact (conj Hty (conj Hev (Hack stray_ack eq_refl eq_refl))).
Defined.

(** X11. Handling the same acknowledgment twice leaves the pending
    table as handling it once does. *)
Theorem ack_twice_is_ack_once (a : AckMessage) (u1 u2 : N) (s : t) :
  message_type a = ACK ->
  pending_messages
    (run [OpReceive (Ack a) u1; OpReceive (Ack a) u2] s).1
  = pending_messages (run [OpReceive (Ack a) u1] s).1.
Proof.
  intros Hty. cbn [run].
  pose proof (fun k => step_ack_lookup a u1 s k Hty) as H1.
  destruct (step (OpReceive (Ack a) u1) s) as [s1 ev1]. cbn [fst] in *.
  pose proof (fun k => step_ack_lookup a u2 s1 k Hty) as H2.
  destruct (step (OpReceive (Ack a) u2) s1) as [s2 ev2]. cbn [fst] in *.
  apply map_eq. intros k. rewrite H2, H1.
  destruct (pending_messages s !! k) as [p|]; [|done].
  destruct (decide (k = original_message_id a)) as [->|Hne]; [|done].
  cbv zeta. cbn [ack_received set_ack_received message].
  destruct (Z.leb_spec (Z.of_nat (length (recipients (message p))))
              (Z.of_nat (size (ack_received p ∪ {[ sender_id a ]}))))
    as [Hle|Hgt]; [done|].
  cbn [ack_received set_ack_received message].
  replace (ack_received p ∪ {[ sender_id a ]} ∪ {[ sender_id a ]})
    with (ack_received p ∪ {[ sender_id a ]}) by set_solver.
  destruct (Z.leb_spec (Z.of_nat (length (recipients (message p))))
              (Z.of_nat (size (ack_received p ∪ {[ sender_id a ]}))));
    [lia|done].
Qed.

Lemma ack_twice_is_ack_once_witness :
  message_type (ack_from_1 (uuid_str 7)) = ACK /\
  pending_messages
    (run [OpReceive (Ack (ack_from_1 (uuid_str 7))) 1;
          OpReceive (Ack (ack_from_1 (uuid_str 7))) 2] after_send).1
  = pending_messages
      (run [OpReceive (Ack (ack_from_1 (uuid_str 7))) 1] after_send).1.
Proof.
  assert (Hty : message_type (ack_from_1 (uuid_str 7)) = ACK) by reflexivity.
  exact (conj Hty (ack_twice_is_ack_once _ 1 2 after_send Hty)).
Defined.

Lemma timed_out_expired (now : time) (p : PendingMessage) :
  timed_out now p = expired (sent_time p) now.
Proof. reflexivity. Qed.

Lemma last_default {A} (x : A) (l : list A) (d1 d2 : A) :
  List.last (x :: l) d1 = List.last (x :: l) d2.
Proof.
  revert x. induction l as [|y l IH]; intros x; [done|].
  change (List.last (y :: l) d1 = List.last (y :: l) d2). apply IH.
Qed.

Lemma after_retries_fields (rounds : list time) :
  forall p : PendingMessage,
    message (after_retries rounds p) = message p /\
    ack_received (after_retries rounds p) = ack_received p /\
    retry_count (after_retries rounds p)
    = retry_count p + Z.of_nat (length rounds) /\
    sent_time (after_retries rounds p) = List.last rounds (sent_time p).
Proof.
  induction rounds as [|now rounds IH]; intros p.
  - cbn. repeat split; lia.
  - destruct (IH (retried now p)) as (Hm & Ha & Hr & Hs).
    change (after_retries (now :: rounds) p)
      with (after_retries rounds (retried now p)).
    rewrite Hm, Ha, Hr, Hs. cbn [retried message ack_received retry_count
                                  sent_time length].
    repeat split; [lia|].
    destruct rounds as [|x rounds]; [done|].
    exact (last_default x rounds now (sent_time p)).
Qed.

Lemma run_app (ops1 ops2 : list Op) :
  forall s : t,
    run (ops1 ++ ops2) s
    = ((run ops2 (run ops1 s).1).1, (run ops1 s).2 ++ (run ops2 (run ops1 s).1).2).
Proof.
  induction ops1 as [|o ops1 IH]; intros s.
  - cbn [app run fst snd]. by destruct (run ops2 s).
  - cbn [app run]. destruct (step o s) as [s1 ev1]. rewrite IH.
    destruct (run ops1 s1) as [s2 ev2]. cbn [fst snd].
    destruct (run ops2 s2) as [s3 ev3]. cbn [fst snd].
    by rewrite app_assoc.
Qed.

Lemma failed_callback_run (ops : list Op) :
  forall s : t, on_message_failed (run ops s).1 = on_message_failed s.
Proof.
  induction ops as [|o ops IH]; intros s; [done|].
  destruct (callbacks_step o s) as (_ & Hf & _).
  cbn [run]. destruct (step o s) as [s1 ev1]. cbn [fst] in *.
  specialize (IH s1). destruct (run ops s1). cbn [fst] in *. congruence.
Qed.

(** Rounds that all retry. *)
Lemma retry_rounds (k : string) (rounds : list time) :
  forall (s : t) (p : PendingMessage),
    keys_ok s ->
    pending_messages s !! k = Some p ->
    rounds_expire (sent_time p) rounds ->
    retry_count p + Z.of_nat (length rounds) <= max_retries ->
    pending_messages (run (timeouts rounds) s).1 !! k
    = Some (after_retries rounds p) /\
    filter (fun e => event_id e = k) (run (timeouts rounds) s).2
    = concat (replicate (length rounds) (retransmit p)).
Proof.
  induction rounds as [|now rounds IH]; intros s p Hkeys Hp Hexp Hcount.
  - by cbn.
  - destruct Hexp as [Hnow Hexp]. cbn [length] in Hcount.
    assert (Hto : timed_out now p = true) by (by rewrite timed_out_expired).
    assert (Hlt : (retry_count p <? max_retries) = true)
      by (apply Z.ltb_lt; lia).
    pose proof (timeout_checker_lookup now s k) as Hl.
    pose proof (timeout_checker_events now s k Hkeys) as He.
    rewrite Hp in Hl, He. unfold wants_fail, wants_retry in Hl, He.
    rewrite Hto, Hlt in Hl, He. cbn [andb negb] in Hl, He.
    pose proof (keys_ok_step (OpTimeout now) s Hkeys) as Hkeys'.
    change (timeouts (now :: rounds)) with (OpTimeout now :: timeouts rounds).
    cbn [run]. unfold step in *.
    destruct (timeout_checker now s) as [s1 ev1]. cbn [fst snd] in *.
    destruct (IH s1 (retried now p) Hkeys' Hl Hexp) as [IHl IHe].
    { cbn [retry_count retried]. lia. }
    destruct (run (timeouts rounds) s1) as [s2 ev2]. cbn [fst snd] in *.
    split; [exact IHl|].
    rewrite filter_app, He, IHe. reflexivity.
Qed.

(** X12. A round of the timeout checker leaves alone what is not
    overdue, the limit included: an entry whose age is at most
    [ack_timeout] stays as it is and nothing is sent or reported for
    its message; and no round changes the clock, the queue, the received
    table or the delivered set. *)
Theorem round_spares_recent_entries (now : time) (s : t) (k : string)
    (p : PendingMessage) :
  keys_ok s ->
  pending_messages s !! k = Some p ->
  (now - sent_time p <= ack_timeout)%Q ->
  let r := timeout_checker now s in
  pending_messages r.1 !! k = Some p /\
  filter (fun e => event_id e = k) r.2 = [] /\
  r.1 = set_pending_messages (pending_messages r.1) s.
Proof.
  intros Hkeys Hp Hage r. subst r.
  assert (Hto : timed_out now p = false).
  { unfold timed_out. apply Qle_bool_iff in Hage. by rewrite Hage. }
  rewrite timeout_checker_lookup, timeout_checker_events, Hp by done.
  unfold wants_fail, wants_retry. rewrite Hto. cbn [andb].
  repeat split.
Qed.

Lemma round_spares_recent_entries_witness :
  keys_ok after_send /\
  pending_messages after_send !! uuid_str 7
  = Some (fresh_entry sent_message 0%Q) /\
  (5 - sent_time (fresh_entry sent_message 0%Q) <= ack_timeout)%Q /\
  pending_messages (timeout_checker 5%Q after_send).1 !! uuid_str 7
  = Some (fresh_entry sent_message 0%Q).
Proof.
  assert (Hage : (5 - sent_time (fresh_entry sent_message 0%Q)
                  <= ack_timeout)%Q) by (by vm_compute).
  split; [exact keys_ok_after_send|]. split; [exact after_send_lookup|].
  split; [exact Hage|].
  exact (proj1 (round_spares_recent_entries 5%Q after_send (uuid_str 7) _
                  keys_ok_after_send after_send_lookup Hage)).
Defined.

(** X13. The retry budget: an entry that has used [retry_count] of its
    retries and is overdue at every round is retransmitted, to the
    recipients that have not acknowledged, at each of the next
    [max_retries - retry_count] rounds, and the round after those removes
    it and reports it through [on_message_failed], when installed.  For
    a fresh entry that is three retransmissions, then the failure. *)
Theorem retries_then_failure (k : string) (rounds : list time)
    (final : time) (s : t) (p : PendingMessage) :
  keys_ok s ->
  pending_messages s !! k = Some p ->
  rounds_expire (sent_time p) (rounds ++ [final]) ->
  retry_count p + Z.of_nat (length rounds) = max_retries ->
  let r := run (timeouts (rounds ++ [final])) s in
  pending_messages (run (timeouts rounds) s).1 !! k
  = Some (after_retries rounds p) /\
  retry_count (after_retries rounds p) = max_retries /\
  pending_messages r.1 !! k = None /\
  filter (fun e => event_id e = k) r.2
  = concat (replicate (length rounds) (retransmit p))
    ++ (if on_message_failed s then [Failed (message p)] else []).
Proof.
  intros Hkeys Hp Hexp Hcount r. subst r.
  assert (Hsplit : rounds_expire (sent_time p) rounds /\
                   expired (List.last rounds (sent_time p)) final = true).
  { clear Hp Hcount. revert Hexp. generalize (sent_time p).
    induction rounds as [|now rounds IH]; intros sent Hexp.
    - cbn in *. tauto.
    - cbn [app rounds_expire] in Hexp. destruct Hexp as [Hnow Hexp].
      destruct (IH now Hexp) as [H1 H2]. split; [by split|].
      destruct rounds as [|x rounds]; [done|].
      change (expired (List.last (x :: rounds) sent) final = true).
      by rewrite (last_default x rounds sent now). }
  destruct Hsplit as [Hexp1 Hfinal].
  destruct (retry_rounds k rounds s p Hkeys Hp Hexp1 ltac:(lia)) as [Hl He].
  destruct (after_retries_fields rounds p) as (Hm & Ha & Hr & Hs).
  split; [exact Hl|]. split; [lia|].
  unfold timeouts. rewrite map_app. fold (timeouts rounds). cbn [map].
  rewrite run_app. cbn [fst snd].
  pose proof (keys_ok_run (timeouts rounds) s Hkeys) as Hkeys1.
  pose proof (failed_callback_run (timeouts rounds) s) as Hcb.
  set (s1 := (run (timeouts rounds) s).1) in *.
  set (q := after_retries rounds p) in *.
  assert (Hto : timed_out final q = true)
    by (by rewrite timed_out_expired, Hs).
  assert (Hge : (retry_count q <? max_retries) = false)
    by (apply Z.ltb_ge; lia).
  pose proof (timeout_checker_lookup final s1 k) as Hl2.
  pose proof (timeout_checker_events final s1 k Hkeys1) as He2.
  rewrite Hl in Hl2, He2. unfold wants_fail, wants_retry in Hl2, He2.
  rewrite Hto, Hge in Hl2, He2. cbn [andb negb] in Hl2, He2.
  cbn [run]. unfold step.
  destruct (timeout_checker final s1) as [s2 ev2]. cbn [fst snd] in *.
  split; [exact Hl2|].
  rewrite filter_app, app_nil_r, He, He2.
  unfold call_failed. by rewrite Hcb, Hm.
Qed.

Lemma retries_then_failure_witness :
  keys_ok after_send /\
  pending_messages after_send !! uuid_str 7
  = Some (fresh_entry sent_message 0%Q) /\
  rounds_expire 0%Q ([6; 12; 18] ++ [24])%Q /\
  pending_messages
    (run (timeouts ([6; 12; 18] ++ [24])%Q) after_send).1 !! uuid_str 7 = None /\
  filter (fun e => event_id e = uuid_str 7)
         (run (timeouts ([6; 12; 18] ++ [24])%Q) after_send).2
  = concat (replicate 3 (retransmit (fresh_entry sent_message 0%Q)))
    ++ [Failed sent_message].
Proof.
  assert (Hexp : rounds_expire 0%Q ([6; 12; 18] ++ [24])%Q) by (by vm_compute).
  split; [exact keys_ok_after_send|]. split; [exact after_send_lookup|].
  split; [exact Hexp|].
  pose proof (retries_then_failure (uuid_str 7) [6; 12; 18]%Q 24%Q after_send _
                keys_ok_after_send after_send_lookup Hexp eq_refl) as H.
  cbv zeta in H. destruct H as (_ & _ & H3 & H4).
  split; [exact H3|exact H4].
Defined.

Lemma filter_filter_impl {A} (P Q : A -> Prop) `{!forall x, Decision (P x)}
    `{!forall x, Decision (Q x)} (l : list A) :
  (forall x, P x -> Q x) -> filter P (filter Q l) = filter P l.
Proof.
  intros HPQ. induction l as [|x l IH]; [done|].
  destruct (decide (Q x)) as [HQ|HQ].
  - rewrite (filter_cons_True Q) by done.
    destruct (decide (P x)).
    + rewrite !(filter_cons_True P) by done. by rewrite IH.
    + rewrite !(filter_cons_False P) by done. exact IH.
  - rewrite (filter_cons_False Q) by done.
    rewrite (filter_cons_False P); [exact IH|]. intros HP. by apply HQ, HPQ.
Qed.

Lemma failure_event_id (k : string) (e : Event) :
  is_failure_of k e -> event_id e = k.
Proof. destruct e; simpl; try done. by intros ?%bool_decide_unpack. Qed.

(** What one call reports as failed for [k]: nothing, unless it is the
    round that removes the entry. *)
Lemma failure_step (k : string) (o : Op) (s : t) :
  keys_ok s ->
  filter (fun e => is_failure_of k e) (step o s).2 = [] \/
  ((exists m, filter (fun e => is_failure_of k e) (step o s).2 = [Failed m]) /\
   is_Some (pending_messages s !! k) /\
   pending_messages (step o s).1 !! k = None).
Proof.
  intros Hkeys. destruct o as [content recipients u now|m u|now|pid].
  - left. rewrite step_multicast. cbn [snd].
    destruct (multicast_spec content recipients u now s) as (_ & -> & _).
    apply filter_none, Forall_forall.
    intros e (r & -> & _)%list_elem_of_fmap H. exact H.
  - left. unfold step. apply filter_none, Forall_forall. intros e He H.
    apply handle_received_events in He as [(a & r & ->)|(d & ->)]; exact H.
  - unfold step.
    rewrite <- (filter_filter_impl _ (fun e => event_id e = k))
      by apply failure_event_id.
    rewrite timeout_checker_events, timeout_checker_lookup by done.
    destruct (pending_messages s !! k) as [p|] eqn:Hp; [|by left].
    destruct (wants_retry now p) eqn:Hr.
    + left. apply filter_none, Forall_forall.
      intros e (r & -> & _)%list_elem_of_fmap H. exact H.
    + destruct (wants_fail now p) eqn:Hf; [|by left].
      unfold call_failed. destruct (on_message_failed s); [|by left].
      right. split; [|by split]. exists (message p).
      rewrite filter_cons_True; [done|].
      cbn. apply bool_decide_pack. by apply Hkeys.
  - by left.
Qed.

Lemma no_failure_run (k : string) (ops : list Op) :
  forall s : t,
    keys_ok s ->
    pending_messages s !! k = None ->
    never_redrawn k ops ->
    filter (fun e => is_failure_of k e) (run ops s).2 = [].
Proof.
  induction ops as [|o ops IH]; intros s Hkeys Hk Hnr; [done|].
  apply never_redrawn_cons in Hnr as [Hnr1 Hnr].
  pose proof (keys_ok_step o s Hkeys) as Hkeys'.
  pose proof (absent_step k o s Hk Hnr1) as Hk'.
  destruct (failure_step k o s Hkeys) as [Hev|(_ & [p Hp] & _)];
    [|congruence].
  cbn [run]. destruct (step o s) as [s1 ev1]. cbn [fst snd] in *.
  specialize (IH s1 Hkeys' Hk' Hnr).
  destruct (run ops s1) as [s2 ev2]. cbn [fst snd] in *.
  by rewrite filter_app, Hev, IH.
Qed.

(** X14. A message is reported as failed at most once: whatever the
    run, as long as no later [multicast] draws the same identifier
    again, [on_message_failed] is called at most once for it. *)
Theorem failed_at_most_once (k : string) (ops : list Op) :
  forall s : t,
    keys_ok s ->
    never_redrawn k ops ->
    (length (filter (fun e => is_failure_of k e) (run ops s).2) <= 1)%nat.
Proof.
  induction ops as [|o ops IH]; intros s Hkeys Hnr; [cbn; lia|].
  apply never_redrawn_cons in Hnr as [Hnr1 Hnr].
  pose proof (keys_ok_step o s Hkeys) as Hkeys'.
  destruct (failure_step k o s Hkeys) as [Hev|((m & Hev) & _ & Hgone)].
  - cbn [run]. destruct (step o s) as [s1 ev1]. cbn [fst snd] in *.
    specialize (IH s1 Hkeys' Hnr).
    destruct (run ops s1) as [s2 ev2]. cbn [fst snd] in *.
    by rewrite filter_app, Hev.
  - pose proof (no_failure_run k ops (step o s).1 Hkeys' Hgone Hnr) as Hrest.
    cbn [run]. destruct (step o s) as [s1 ev1]. cbn [fst snd] in *.
    destruct (run ops s1) as [s2 ev2]. cbn [fst snd] in *.
    rewrite filter_app, Hev, Hrest. cbn. lia.
Qed.

Lemma failed_at_most_once_witness :
  keys_ok after_send /\
  never_redrawn (uuid_str 7) (timeouts [6; 12; 18; 24; 30]%Q) /\
  (length (filter (fun e => is_failure_of (uuid_str 7) e)
             (run (timeouts [6; 12; 18; 24; 30]%Q) after_send).2) <= 1)%nat.
Proof.
  assert (Hnr : never_redrawn (uuid_str 7) (timeouts [6; 12; 18; 24; 30]%Q)).
  { intros c r u now Hin. exfalso. cbn in Hin.
    repeat (apply elem_of_cons in Hin as [Hin|Hin]; [discriminate Hin|]).
    by apply elem_of_nil in Hin. }
  split; [exact keys_ok_after_send|]. split; [exact Hnr|].
  exact (failed_at_most_once _ _ after_send keys_ok_after_send Hnr).
Defined.

(** X15. Whom a multicast without recipient list goes to: the one built
    message is sent once to each known process other than the sender
    itself, and to nobody else; the sender never sends to itself. *)
Theorem default_recipients (content : string) (u : N) (now : time) (s : t) :
  exists rs : list Z,
    (multicast content None u now s).2
    = map (Send (Multicast (multicast_message content None u s))) rs /\
    NoDup rs /\
    (process_id s ∉ rs) /\
    forall r, r ∈ rs <-> r ∈ known_processes s /\ r <> process_id s.
Proof.
  exists (multicast_recipients None s).
  destruct (multicast_spec content None u now s) as (_ & Hev & _).
  split; [exact Hev|]. unfold multicast_recipients.
  split; [apply NoDup_elements|].
  split; [rewrite elem_of_elements; set_solver|].
  intros r. rewrite elem_of_elements. set_solver.
Qed.

(** X16. The sender of a multicast received for the first time is known
    from then on: the next multicast without recipient list is sent to
    it (when it is another process). *)
Theorem sender_becomes_recipient (m : AnyMessage) (u u' : N) (content : string)
    (now : time) (s : t) :
  message_type (base m) = MULTICAST ->
  (message_id (base m) ∉ dom (received_messages s)) ->
  sender_id (base m) <> process_id s ->
  let s1 := (handle_received_message m u s).1 in
  Send (Multicast (multicast_message content None u' s1)) (sender_id (base m))
    ∈ (multicast content None u' now s1).2.
Proof.
  intros Hty Hnew Hne s1.
  destruct (multicast_spec content None u' now s1) as (_ & -> & _).
  apply list_elem_of_fmap. exists (sender_id (base m)). split; [done|].
  unfold multicast_recipients, s1. rewrite elem_of_elements.
  rewrite handle_received_multicast by done.
  rewrite handle_multicast_first_state by done.
  cbn [known_processes process_id after_first_receipt set_lamport_clock].
  set_solver.
Qed.

Lemma sender_becomes_recipient_witness :
  message_type (base inbound) = MULTICAST /\
  (message_id (base inbound) ∉ dom (received_messages peer1)) /\
  sender_id (base inbound) <> process_id peer1 /\
  Send (Multicast (multicast_message "hello" None 9
                     (handle_received_message inbound 3 peer1).1))
       (sender_id (base inbound))
    ∈ (multicast "hello" None 9 0%Q
         (handle_received_message inbound 3 peer1).1).2.
Proof.
  assert (Hty : message_type (base inbound) = MULTICAST) by reflexivity.
  assert (Hnew : message_id (base inbound) ∉ dom (received_messages peer1))
    by (vm_compute; set_solver).
  assert (Hne : sender_id (base inbound) <> process_id peer1)
    by (vm_compute; discriminate).
  split; [exact Hty|]. split; [exact Hnew|]. split; [exact Hne|].
  exact (sender_becomes_recipient inbound 3 9 "hello" 0%Q peer1 Hty Hnew Hne).
Defined.

Lemma key_total (a b : AnyMessage) :
  ~ key_lt (key a) (key b) -> key_le (key b) (key a).
Proof.
  unfold key_le, key_lt, key. cbn [fst snd]. intros H.
  destruct (decide (timestamp (base b) = timestamp (base a)
                    /\ sender_id (base b) = sender_id (base a)))
    as [[-> ->]|Hne]; [by right|left; lia].
Qed.

Lemma key_lt_le_trans (a b c : AnyMessage) :
  key_lt (key a) (key b) -> ~ key_lt (key c) (key b) -> key_lt (key a) (key c).
Proof. unfold key_lt, key. cbn [fst snd]. lia. Qed.

(** X17. Where [_add_to_ordered_queue] puts a message in a sorted
    queue: behind every queued message whose (timestamp, sender) key is
    smaller or equal (so behind the ones it ties with), in front of
    every one with a larger key; nothing else moves, and the queue stays
    sorted. *)
Theorem insert_ordered_position (m : AnyMessage) (queue : list AnyMessage) :
  queue_sorted queue ->
  exists before after,
    queue = before ++ after /\
    insert_ordered m queue = before ++ m :: after /\
    Forall (fun b => key_le (key b) (key m)) before /\
    Forall (fun a => key_lt (key m) (key a)) after /\
    queue_sorted (insert_ordered m queue).
Proof.
  intros Hs.
  enough (exists before after,
             queue = before ++ after /\
             insert_ordered m queue = before ++ m :: after /\
             Forall (fun b => key_le (key b) (key m)) before /\
             Forall (fun a => key_lt (key m) (key a)) after)
    as (before & after & H1 & H2 & H3 & H4).
  { exists before, after. repeat split; try done.
    by apply insert_ordered_sorted. }
  induction queue as [|x queue IH].
  - exists [], []. by repeat split.
  - apply StronglySorted_inv in Hs as [Hs Hx]. cbn [insert_ordered].
    destruct (precedes (base m) (base x)) eqn:E.
    + apply precedes_spec in E. exists [], (x :: queue).
      repeat split; [constructor|]. constructor; [done|].
      eapply Forall_impl; [exact Hx|]. intros b Hb.
      by apply (key_lt_le_trans m x b).
    + destruct (IH Hs) as (before & after & H1 & H2 & H3 & H4).
      exists (x :: before), after. rewrite H1 at 1. rewrite H2.
      repeat split; [|done]. constructor; [|done].
      apply key_total. intros Hlt. apply precedes_spec in Hlt. congruence.
Qed.

Lemma insert_ordered_position_witness :
  queue_sorted [twin "a"] /\
  insert_ordered (twin "b") [twin "a"] = [twin "a"; twin "b"].
Proof.
  assert (Hs : queue_sorted [twin "a"]) by repeat constructor.
  split; [exact Hs|].
  destruct (insert_ordered_position (twin "b") [twin "a"] Hs)
    as (before & after & _ & H & _).
  reflexivity.
Defined.

(** On a sorted queue of distinct, undelivered identifiers the loop
    never stops early. *)
Lemma deliver_loop_sorted (queue : list AnyMessage) :
  forall delivered : gset string,
    queue_sorted queue ->
    NoDup (map (fun m => message_id (base m)) queue) ->
    (forall m, m ∈ queue -> message_id (base m) ∉ delivered) ->
    deliver_loop queue delivered
    = ([], delivered ∪ list_to_set (map (fun m => message_id (base m)) queue),
       queue).
Proof.
  induction queue as [|head rest IH]; intros d Hs Hnd Hnew.
  - cbn. f_equal. f_equal. set_solver.
  - cbn [deliver_loop]. rewrite (sorted_head_can_deliver _ _ Hs).
    rewrite bool_decide_eq_true_2 by (apply Hnew; left).
    cbn [andb]. apply StronglySorted_inv in Hs as [Hs _].
    cbn [map] in Hnd. apply NoDup_cons in Hnd as [Hhead Hnd].
    rewrite IH; [|done|done|].
    + f_equal. f_equal. cbn [map list_to_set]. set_solver.
    + intros m Hm. apply not_elem_of_union. split.
      * apply Hnew. by right.
      * intros Heq%elem_of_singleton. apply Hhead. rewrite <- Heq.
        apply list_elem_of_fmap. by exists m.
Qed.

(** X18. [_try_deliver_messages] empties a sorted queue: when the
    queued messages are in key order, with pairwise distinct identifiers
    none of which is delivered yet, one call delivers all of them in
    queue order, records their identifiers and leaves the queue
    empty. *)
Theorem try_deliver_drains_sorted_queue (s : t) :
  queue_sorted (message_queue s) ->
  NoDup (queued_ids s) ->
  (forall m, m ∈ message_queue s ->
             message_id (base m) ∉ delivered_messages s) ->
  message_queue (try_deliver_messages s).1 = [] /\
  delivered_messages (try_deliver_messages s).1
  = delivered_messages s ∪ list_to_set (queued_ids s) /\
  (try_deliver_messages s).2 = flat_map (call_delivered s) (message_queue s).
Proof.
  intros Hs Hnd Hnew. unfold try_deliver_messages.
  rewrite (deliver_loop_sorted _ _ Hs Hnd Hnew). by repeat split.
Qed.

Lemma try_deliver_drains_sorted_queue_witness :
  queue_sorted (message_queue twins_queued) /\
  NoDup (queued_ids twins_queued) /\
  message_queue (try_deliver_messages twins_queued).1 = [] /\
  (try_deliver_messages twins_queued).2
  = flat_map (call_delivered twins_queued) (message_queue twins_queued).
Proof.
  assert (Hs : queue_sorted (message_queue twins_queued)).
  { repeat constructor. intros [Hlt|[_ Hlt]]; cbn in Hlt; lia. }
  assert (Hnd : NoDup (queued_ids twins_queued)).
  { apply (bool_decide_unpack _). by vm_compute. }
  assert (Hnew : forall m, m ∈ message_queue twins_queued ->
                   message_id (base m) ∉ delivered_messages twins_queued).
  { intros m _. apply not_elem_of_empty. }
  destruct (try_deliver_drains_sorted_queue twins_queued Hs Hnd Hnew)
    as (H1 & _ & H3).
  exact (conj Hs (conj Hnd (conj H1 H3))).
Defined.

Lemma bind_inr {A B} (r : result A) (f : A -> result B) (b : B) :
  bind r f = inr b -> exists a, r = inr a /\ f a = inr b.
Proof. destruct r as [e|a]; [done|]. intros H. by exists a. Qed.

Lemma subscript_Some (k : string) (data : list (string * json)) (v : json) :
  dict_get k data = Some v -> subscript k data = inr v.
Proof. unfold subscript. by intros ->. Qed.

Lemma subscript_None (k : string) (data : list (string * json)) :
  dict_get k data = None -> subscript k data = inl (KeyError k).
Proof. unfold subscript. by intros ->. Qed.

(** X19. Which [KeyError] a document raises: the first member, in the
    order [message_type], [message_id], [sender_id], [timestamp],
    [content], that the object lacks, whatever else it holds (the
    discriminator, when present, being the value of a message type). *)
Theorem from_json_missing_key (u : N) (data : list (string * json))
    (before after : list string) (k : string) :
  subscripted_keys = before ++ k :: after ->
  Forall (fun k' => is_Some (dict_get k' data)) before ->
  (forall tv, dict_get "message_type" data = Some tv ->
              exists ty, tv = JStr (value ty)) ->
  dict_get k data = None ->
  from_json u (JObj data) = inl (KeyError k).
Proof.
  intros Hkeys Hbefore Hty Hk. unfold from_json.
  destruct before as [|b0 before].
  { injection Hkeys as <- _. by rewrite (subscript_None _ _ Hk). }
  injection Hkeys as <- Hkeys.
  apply Forall_cons in Hbefore as [[tv Htv] Hbefore].
  destruct (Hty tv Htv) as [ty ->].
  rewrite (subscript_Some _ _ _ Htv). cbn [bind].
  rewrite MessageType_of_value_value.
  do 4 (destruct before as [|b before];
        [injection Hkeys as <- _; by rewrite (subscript_None _ _ Hk)|];
        injection Hkeys as <- Hkeys;
        apply Forall_cons in Hbefore as [[? Hb] Hbefore];
        rewrite (subscript_Some _ _ _ Hb); cbn [bind]; clear Hb).
  by destruct before.
Qed.

Lemma from_json_missing_key_witness :
  subscripted_keys = ["message_type"; "message_id"] ++ "sender_id" ::
                     ["timestamp"; "content"] /\
  from_json 0 (JObj [("message_type", JStr "join"); ("message_id", JStr "j");
                     ("content", JStr "")])
  = inl (KeyError "sender_id").
Proof.
  split; [reflexivity|].
  apply (from_json_missing_key 0 _ ["message_type"; "message_id"]
           ["timestamp"; "content"] "sender_id" eq_refl).
  - repeat (apply Forall_cons; split; [by eexists|]). apply Forall_nil_2.
  - intros tv Htv. exists JOIN. vm_compute in Htv. by injection Htv as <-.
  - by vm_compute.
Defined.

(** What [from_json] returns satisfies the class invariant and is of the
    class of its type. *)
Lemma from_json_inv (u : N) (doc : json) (m : AnyMessage) :
  from_json u doc = inr m ->
  class_invariant m /\
  match m with
  | Base b => message_type b <> MULTICAST /\ message_type b <> ACK
  | _ => True
  end.
Proof.
  unfold from_json. destruct doc as [| | | | |data]; try done.
  intros H. apply bind_inr in H as (tv & _ & H).
  destruct tv as [| | |t| |]; try done.
  destruct (MessageType_of_value t) as [ty|]; [|done].
  do 9 (apply bind_inr in H as (? & _ & H)).
  destruct ty.
  - do 2 (apply bind_inr in H as (? & _ & H)). injection H as <-.
    split; [apply MulticastMessage_new_invariant|done].
  - apply bind_inr in H as (? & _ & H). injection H as <-.
    split; [apply AckMessage_new_invariant|done].
  - injection H as <-. split; [|done].
    split; [apply Message_new_id_nonempty|done].
  - injection H as <-. split; [|done].
    split; [apply Message_new_id_nonempty|done].
  - injection H as <-. split; [|done].
    split; [apply Message_new_id_nonempty|done].
Qed.

(** X20. Whatever [from_json] decodes survives the wire: serializing
    the decoded message and deserializing it again gives the same
    message, in every field, for each of the five types. *)
Theorem decoded_round_trips (u u' : N) (doc : json) (m : AnyMessage) :
  from_json u doc = inr m ->
  from_json u' (to_json m) = inr m.
Proof.
  intros H. apply from_json_inv in H as [Hinv Hty].
  destruct m as [b|a|mc].
  - destruct Hinv as [Hid _], Hty as [Hm Ha]. by apply from_json_base.
  - by apply from_json_ack.
  - by apply from_json_multicast.
Qed.

Lemma decoded_round_trips_witness :
  from_json 3 (JObj heartbeat_frame)
  = inr (Base (Message_new 3 "hb-1" 2 HEARTBEAT 4 "" (Some []))) /\
  from_json 5 (to_json (Base (Message_new 3 "hb-1" 2 HEARTBEAT 4 "" (Some []))))
  = inr (Base (Message_new 3 "hb-1" 2 HEARTBEAT 4 "" (Some []))).
Proof.
  assert (H : from_json 3 (JObj heartbeat_frame)
              = inr (Base (Message_new 3 "hb-1" 2 HEARTBEAT 4 "" (Some []))))
    by reflexivity.
  exact (conj H (decoded_round_trips 3 5 _ _ H)).
Defined.

(** X21. The optional members and their defaults: a document that has
    the five subscripted members and none of the optional ones (or
    [recipients] as [null]) decodes to an object of the class of its
    type with no recipients, sequence number 0, [requires_ack] set and an
    empty [original_message_id]. *)
Theorem from_json_defaults (u : N) (data : list (string * json))
    (ty : MessageType) (id : string) (sender ts : Z) (content : string) :
  dict_get "message_type" data = Some (JStr (value ty)) ->
  dict_get "message_id" data = Some (JStr id) ->
  dict_get "sender_id" data = Some (JInt sender) ->
  dict_get "timestamp" data = Some (JInt ts) ->
  dict_get "content" data = Some (JStr content) ->
  dict_get "recipients" data = None \/
  dict_get "recipients" data = Some JNull ->
  dict_get "sequence_number" data = None ->
  dict_get "requires_ack" data = None ->
  dict_get "original_message_id" data = None ->
  exists m,
    from_json u (JObj data) = inr m /\
    class_of ty m /\
    recipients (base m) = [] /\
    match m with
    | Multicast mc => sequence_number mc = 0 /\ requires_ack mc = true
    | Ack a => original_message_id a = ""
    | Base _ => True
    end.
Proof.
  intros Hty Hid Hsender Hts Hcontent Hrec Hseq Hreq Horig.
  unfold from_json.
  rewrite (subscript_Some _ _ _ Hty). cbn [bind].
  rewrite MessageType_of_value_value.
  rewrite (subscript_Some _ _ _ Hid), (subscript_Some _ _ _ Hsender),
    (subscript_Some _ _ _ Hts), (subscript_Some _ _ _ Hcontent).
  cbn [bind as_str as_int].
  unfold get_recipients, get_default. rewrite Hseq, Hreq, Horig.
  destruct Hrec as [-> | ->]; cbn [bind];
    destruct ty; eexists; (split; [reflexivity|]); by repeat split.
Qed.

Lemma from_json_defaults_witness :
  exists m,
    from_json 0 (JObj (bare_frame "multicast")) = inr m /\
    class_of MULTICAST m /\
    recipients (base m) = [] /\
    match m with
    | Multicast mc => sequence_number mc = 0 /\ requires_ack mc = true
    | Ack a => original_message_id a = ""
    | Base _ => True
    end.
Proof.
  apply (from_json_defaults 0 (bare_frame "multicast") MULTICAST "m-1" 2 4 "x");
    first [reflexivity | left; reflexivity].
Defined.

End MoreProperties.

(** ** The network manager *)

Section NetworkProperties.
Import Message Network.

Lemma from_bytes_app (b : bytes) (x : Byte.byte) :
  from_bytes (b ++ [x]) = (from_bytes b * 256 + Byte.to_N x)%N.
Proof. unfold from_bytes. by rewrite foldl_app. Qed.

Lemma byte_of_N_to_N (n : N) : Byte.to_N (byte_of_N n) = (n mod 256)%N.
Proof.
  unfold byte_of_N. destruct (Byte.of_N (n mod 256)) as [y|] eqn:E.
  - by apply Byte.to_of_N in E.
  - apply Byte.of_N_None_iff in E.
    pose proof (N.mod_upper_bound n 256). lia.
Qed.

Lemma big_endian_length (len : nat) : forall n, length (big_endian len n) = len.
Proof.
  induction len as [|len IH]; intros n; [done|].
  cbn [big_endian]. rewrite length_app, IH. cbn. lia.
Qed.

Lemma from_bytes_big_endian (len : nat) :
  forall n, (n < 256 ^ N.of_nat len)%N -> from_bytes (big_endian len n) = n.
Proof.
  induction len as [|len IH]; intros n Hn.
  - cbn in *. lia.
  - cbn [big_endian]. rewrite from_bytes_app, byte_of_N_to_N.
    rewrite Nat2N.inj_succ, N.pow_succ_r' in Hn.
    rewrite IH.
    + pose proof (N.div_mod n 256). lia.
    + apply N.Div0.div_lt_upper_bound. lia.
Qed.

(** The fixpoint is the loop of the source, one [recv] per round. *)
Lemma recv_all_from_loop (data : bytes) (size : nat) (sock : socket) :
  recv_all_from data size sock
  = if (size <=? length data)%nat then (Some data, sock)
    else match recv (size - length data) sock with
         | (None, sock') => (None, sock')
         | (Some [], sock') => (Some [], sock')
         | (Some chunk, sock') => recv_all_from (data ++ chunk) size sock'
         end.
Proof.
  destruct sock as [|seg rest]; cbn [recv_all_from recv].
  - done.
  - destruct (size <=? length data)%nat eqn:E; [done|].
    apply Nat.leb_gt in E. destruct seg as [|x seg]; [done|].
    destruct (length (x :: seg) <=? size - length data)%nat eqn:E2; [done|].
    apply Nat.leb_gt in E2.
    assert (Hlen : length (data ++ take (size - length data) (x :: seg)) = size).
    { rewrite length_app, length_take. lia. }
    destruct (take (size - length data) (x :: seg)) as [|y chunk] eqn:Et.
    { rewrite length_app in Hlen. cbn in Hlen. lia. }
    rewrite <- Et in Hlen |- *.
    cbn [recv_all_from]. by rewrite Hlen, Nat.leb_refl.
Qed.

Lemma recv_all_from_done (data : bytes) (size : nat) (sock : socket) :
  (size <= length data)%nat -> recv_all_from data size sock = (Some data, sock).
Proof.
  intros H%Nat.leb_le. destruct sock; cbn [recv_all_from]; by rewrite H.
Qed.

(** When enough bytes arrive, in whatever segments, the loop returns
    exactly the first [size] of them and leaves the others. *)
Lemma recv_all_from_enough (segs : list bytes) (tail : socket) :
  forall (data : bytes) (size : nat),
    Forall (fun seg => seg <> []) segs ->
    (length data <= size)%nat ->
    (size <= length data + length (concat segs))%nat ->
    exists sock',
      recv_all_from data size (segs ++ tail)
      = (Some (data ++ take (size - length data) (concat segs)),
         sock' ++ tail) /\
      concat sock' = drop (size - length data) (concat segs) /\
      Forall (fun seg => seg <> []) sock'.
Proof.
  induction segs as [|seg rest IH]; intros data size Hne Hle Hge.
  - cbn in Hge. assert (size = length data) as -> by lia.
    exists []. cbn [app concat]. rewrite recv_all_from_done by lia.
    rewrite take_nil, drop_nil, app_nil_r. by repeat split.
  - apply Forall_cons in Hne as [Hseg Hne]. cbn [app recv_all_from concat].
    cbn [concat] in Hge. rewrite length_app in Hge.
    destruct (size <=? length data)%nat eqn:E.
    { apply Nat.leb_le in E. assert (size = length data) as -> by lia.
      exists (seg :: rest). rewrite Nat.sub_diag. cbn [take drop concat].
      rewrite app_nil_r. split; [done|]. split; [done|]. by constructor. }
    apply Nat.leb_gt in E. destruct seg as [|x seg]; [done|].
    destruct (length (x :: seg) <=? size - length data)%nat eqn:E2.
    + apply Nat.leb_le in E2.
      destruct (IH (data ++ x :: seg) size Hne) as (sock' & H1 & H2 & H3).
      { rewrite length_app. lia. }
      { rewrite length_app. lia. }
      exists sock'. rewrite H1, H2, length_app.
      split; [|split; [|done]].
      * f_equal. f_equal. rewrite <- app_assoc. f_equal.
        rewrite take_app_ge by lia. do 2 f_equal. lia.
      * rewrite drop_app_ge by lia. f_equal. lia.
    + apply Nat.leb_gt in E2.
      exists (drop (size - length data) (x :: seg) :: rest).
      split; [|split].
      * f_equal. f_equal. f_equal. rewrite take_app_le by lia. done.
      * cbn [concat]. rewrite drop_app_le by lia. done.
      * constructor; [|done]. intros Hd. apply (f_equal length) in Hd.
        rewrite length_drop in Hd. cbn [length] in Hd, E2. lia.
Qed.

(** When the stream stops short, the loop returns [b''] or raises. *)
Lemma recv_all_from_short (segs : list bytes) (tail : socket) :
  forall (data : bytes) (size : nat),
    Forall (fun seg => seg <> []) segs ->
    stream_end tail ->
    (length data + length (concat segs) < size)%nat ->
    (recv_all_from data size (segs ++ tail)).1 = None \/
    (recv_all_from data size (segs ++ tail)).1 = Some [].
Proof.
  induction segs as [|seg rest IH]; intros data size Hne Hend Hlt.
  - cbn in Hlt. cbn [app].
    destruct Hend as [->|[rest ->]]; cbn [recv_all_from];
      (destruct (size <=? length data)%nat eqn:E;
       [apply Nat.leb_le in E; lia|]); [by left|by right].
  - apply Forall_cons in Hne as [Hseg Hne]. cbn [app recv_all_from].
    cbn [concat] in Hlt. rewrite length_app in Hlt.
    destruct (size <=? length data)%nat eqn:E; [apply Nat.leb_le in E; lia|].
    destruct seg as [|x seg]; [done|].
    destruct (length (x :: seg) <=? size - length data)%nat eqn:E2.
    + apply IH; [done|done|]. rewrite length_app. lia.
    + apply Nat.leb_gt in E2. lia.
Qed.

Lemma send_message_frame (dumps : json -> bytes) (m : AnyMessage)
    (target : Z) (s : t) :
  (N.of_nat (length (dumps (to_json m))) < 2 ^ 32)%N ->
  (send_message dumps true m target s).1
  = (true,
     Some (resolves target s,
           big_endian 4 (N.of_nat (length (dumps (to_json m))))
           ++ dumps (to_json m))).
Proof.
  intros Hsize. unfold send_message, get_process_address, resolves, to_bytes.
  assert ((N.of_nat (length (dumps (to_json m))) <? 256 ^ N.of_nat 4)%N = true)
    as -> by (apply N.ltb_lt; exact Hsize).
  by destruct (connection_cache s !! target).
Qed.

(** Reading back a frame: the length, then the payload, then the
    document. *)
Lemma handle_client_reads_frame (loads : bytes -> option json) (u : N)
    (m : AnyMessage) (payload : bytes) (receiver : t) (segs : list bytes)
    (extra : bytes) :
  payload <> [] ->
  (N.of_nat (length payload) < 2 ^ 32)%N ->
  loads payload = Some (to_json m) ->
  from_json u (to_json m) = inr m ->
  on_message_received receiver = true ->
  Forall (fun seg => seg <> []) segs ->
  concat segs
  = (big_endian 4 (N.of_nat (length payload)) ++ payload) ++ extra ->
  handle_client loads u segs receiver = Received m.
Proof.
  intros Hne Hsize Hcodec Hjson Hcb Hsegs Hcat.
  set (prefix := big_endian 4 (N.of_nat (length payload))) in *.
  rewrite <- app_assoc in Hcat.
  assert (Hplen : length prefix = 4%nat) by apply big_endian_length.
  unfold handle_client, recv_all.
  destruct (recv_all_from_enough segs [] [] 4 Hsegs) as (sock1 & H1 & Hrest & Hne1).
  { cbn. lia. }
  { rewrite Hcat, length_app. cbn. lia. }
  rewrite app_nil_r in H1. rewrite H1.
  cbn [app length]. rewrite Nat.sub_0_r, Hcat.
  rewrite take_app_length' by done.
  rewrite Nat.sub_0_r, Hcat, drop_app_length' in Hrest by done.
  rewrite bool_decide_eq_false_2
    by (intros Hnil; by rewrite Hnil in Hplen).
  assert (Hsz : from_bytes prefix = N.of_nat (length payload)).
  { apply from_bytes_big_endian. change (N.of_nat 4) with 4%N. lia. }
  cbv zeta. rewrite Hsz, Nat2N.id, app_nil_r.
  destruct (recv_all_from_enough sock1 [] [] (length payload) Hne1)
    as (sock2 & H2 & _ & _).
  { cbn. lia. }
  { rewrite Hrest, length_app. cbn. lia. }
  rewrite app_nil_r in H2. rewrite H2.
  cbn [app length]. rewrite Nat.sub_0_r, Hrest.
  rewrite take_app_length, bool_decide_eq_false_2 by done.
  by rewrite Hcodec, Hjson, Hcb.
Qed.

(** X22. Framing survives segmentation: [send_message] puts on the wire,
    for a multicast or an acknowledgment, a frame (a 4-byte big-endian
    length, then the payload) that [_handle_client] reads back and hands
    to the callback as the same message, in whatever segments the bytes
    arrive and whatever follows them, provided the payload is not empty,
    is shorter than 2^32 bytes, and the JSON codec reads back what it
    writes. *)
Theorem frame_survives_segmentation (dumps : json -> bytes)
    (loads : bytes -> option json) (m : AnyMessage) (target : Z)
    (sender : t) :
  is_subclass m -> class_invariant m ->
  loads (dumps (to_json m)) = Some (to_json m) ->
  dumps (to_json m) <> [] ->
  (N.of_nat (length (dumps (to_json m))) < 2 ^ 32)%N ->
  exists frame,
    (send_message dumps true m target sender).1
    = (true, Some (resolves target sender, frame)) /\
    forall (u : N) (receiver : t) (segs : list bytes) (extra : bytes),
      on_message_received receiver = true ->
      Forall (fun seg => seg <> []) segs ->
      concat segs = frame ++ extra ->
      handle_client loads u segs receiver = Received m.
Proof.
  intros Hsub Hinv Hcodec Hne Hsize.
  eexists. split; [by apply send_message_frame|].
  intros u receiver segs extra Hcb Hsegs Hcat.
  apply (handle_client_reads_frame loads u m (dumps (to_json m)) receiver
           segs extra); try done.
  destruct m as [b|a|mc]; [done| |].
  - by apply from_json_ack.
  - by apply from_json_multicast.
Qed.

Lemma frame_survives_segmentation_witness :
  is_subclass toy_message /\ class_invariant toy_message /\
  exists frame,
    (send_message toy_dumps true toy_message 2 (init 1 "localhost" None)).1
    = (true, Some (resolves 2 (init 1 "localhost" None), frame)) /\
    forall (u : N) (receiver : t) (segs : list bytes) (extra : bytes),
      on_message_received receiver = true ->
      Forall (fun seg => seg <> []) segs ->
      concat segs = frame ++ extra ->
      handle_client toy_loads u segs receiver = Received toy_message.
Proof.
  assert (Hs : is_subclass toy_message) by exact I.
  assert (Hi : class_invariant toy_message)
    by apply MulticastMessage_new_invariant.
  split; [exact Hs|]. split; [exact Hi|].
  apply (frame_survives_segmentation toy_dumps toy_loads toy_message 2
           (init 1 "localhost" None) Hs Hi eq_refl).
  - discriminate.
  - reflexivity.
Defined.

(** X23. A stream that stops short delivers nothing: when the bytes
    that arrive before the peer closes or the reads time out are fewer
    than the 4 of the length, or fewer than the length they announce, or
    announce an empty payload, [_handle_client] ends without calling the
    callback; it never decodes a partial payload. *)
Theorem short_stream_is_dropped (loads : bytes -> option json) (u : N)
    (segs : list bytes) (tail : socket) (s : t) :
  Forall (fun seg => seg <> []) segs ->
  stream_end tail ->
  (length (concat segs) < 4)%nat \/
  (length (concat segs)
   < 4 + N.to_nat (from_bytes (take 4 (concat segs))))%nat \/
  from_bytes (take 4 (concat segs)) = 0%N ->
  handle_client loads u (segs ++ tail) s = Dropped.
Proof.
  intros Hsegs Hend Hcase. unfold handle_client, recv_all.
  destruct (decide (length (concat segs) < 4)%nat) as [Hlt|Hge].
  { destruct (recv_all_from_short segs tail [] 4 Hsegs Hend) as [H|H];
      [cbn; lia| |];
      destruct (recv_all_from [] 4 (segs ++ tail)) as [[d|] sock1];
      cbn [fst] in H; try done.
    by injection H as ->. }
  destruct Hcase as [Hlt|Hcase]; [done|].
  destruct (recv_all_from_enough segs tail [] 4 Hsegs) as (sock1 & -> & Hrest & Hne1);
    [cbn; lia|cbn; lia|].
  cbn [app length] in *. rewrite Nat.sub_0_r in *.
  case_bool_decide as Hnil; [done|]. cbv zeta.
  destruct Hcase as [Hlt|Hzero].
  - destruct (recv_all_from_short sock1 tail []
                (N.to_nat (from_bytes (take 4 (concat segs)))) Hne1 Hend)
      as [H|H].
    { rewrite Hrest, length_drop. cbn [length]. lia. }
    + destruct (recv_all_from [] _ (sock1 ++ tail)) as [[d|] sock2];
        cbn [fst] in H; done.
    + destruct (recv_all_from [] _ (sock1 ++ tail)) as [[d|] sock2];
        cbn [fst] in H; [|done]. by injection H as ->.
  - rewrite Hzero. by rewrite recv_all_from_done by (cbn; lia).
Qed.

Lemma short_stream_is_dropped_witness :
  stream_end [[]] /\
  handle_client toy_loads 0
    ([[Byte.x00; Byte.x00]; [Byte.x00; Byte.x05; Byte.x7b]] ++ [[]]) listening
  = Dropped.
Proof.
  assert (Hend : stream_end [[]]) by (right; by exists []).
  split; [exact Hend|].
  apply (short_stream_is_dropped toy_loads 0
           [[Byte.x00; Byte.x00]; [Byte.x00; Byte.x05; Byte.x7b]] [[]]
           listening).
  - repeat constructor; discriminate.
  - exact Hend.
  - right. left. vm_compute. lia.
Defined.

Lemma resolves_get_process_address (pid q : Z) (s : t) :
  (get_process_address pid s).1 = resolves pid s /\
  resolves q (get_process_address pid s).2 = resolves q s /\
  process_id (get_process_address pid s).2 = process_id s.
Proof.
  unfold get_process_address, resolves.
  destruct (connection_cache s !! pid) as [address|] eqn:E; [done|].
  cbn [fst snd connection_cache set_connection_cache process_id].
  split; [done|]. split; [|done].
  destruct (decide (q = pid)) as [->|Hne].
  - by rewrite lookup_insert_eq, E.
  - by rewrite lookup_insert_ne.
Qed.

Lemma resolves_send_message dumps connects m (target q : Z) (s : t) :
  resolves q (send_message dumps connects m target s).2 = resolves q s.
Proof.
  unfold send_message.
  pose proof (resolves_get_process_address target q s) as (_ & H & _).
  destruct (get_process_address target s) as [address s1].
  cbn [snd] in H. destruct connects; [|done].
  by destruct (to_bytes _ 4).
Qed.

Lemma wait_for_connection_frame (attempts : list bool) (pid : Z) :
  forall s : t,
    (forall q, resolves q (wait_for_connection attempts pid s).2
               = resolves q s) /\
    process_id (wait_for_connection attempts pid s).2 = process_id s.
Proof.
  induction attempts as [|connected later IH]; intros s; [done|].
  cbn [wait_for_connection].
  pose proof (fun q => resolves_get_process_address pid q s) as Hres.
  destruct (get_process_address pid s) as [address s1]. cbn [snd] in Hres.
  destruct connected.
  - cbn [snd]. split; [intros q; by destruct (Hres q) as (_ & ? & _)|].
    by destruct (Hres 0) as (_ & _ & ?).
  - destruct (IH s1) as [H1 H2]. split.
    + intros q. rewrite H1. by destruct (Hres q) as (_ & ? & _).
    + rewrite H2. by destruct (Hres 0) as (_ & _ & ?).
Qed.

Lemma discover_processes_spec (pids : list Z) :
  forall (attempts : nat -> list bool) (s : t),
    (discover_processes attempts pids s).1 `sublist_of` pids /\
    filter (fun pid => pid = process_id s) (discover_processes attempts pids s).1
    = filter (fun pid => pid = process_id s) pids /\
    (forall q, resolves q (discover_processes attempts pids s).2
               = resolves q s) /\
    process_id (discover_processes attempts pids s).2 = process_id s.
Proof.
  induction pids as [|pid rest IH]; intros attempts s; [done|].
  cbn [discover_processes]. case_bool_decide as Hself.
  - destruct (IH (fun i => attempts (S i)) s) as (H1 & H2 & H3 & H4).
    destruct (discover_processes _ rest s) as [online s'].
    cbn [fst snd] in *. split; [by constructor|].
    rewrite !filter_cons_True by done. by rewrite H2.
  - destruct (wait_for_connection_frame (attempts 0%nat) pid s) as [Hres Hpid].
    destruct (wait_for_connection (attempts 0%nat) pid s) as [ok s1].
    cbn [snd] in Hres, Hpid.
    destruct (IH (fun i => attempts (S i)) s1) as (H1 & H2 & H3 & H4).
    destruct (discover_processes _ rest s1) as [online s'].
    cbn [fst snd] in *. rewrite Hpid in H2, H4.
    split; [|split; [|split; [|done]]].
    + destruct ok; by constructor.
    + rewrite (filter_cons_False _ pid rest) by done.
      destruct ok; [by rewrite filter_cons_False|done].
    + intros q. by rewrite H3.
Qed.

Lemma resolves_step (o : NetOp) (q : Z) (s : t) :
  resolves q (net_step o s)
  = match o with
    | NetRegister pid host port =>
        if bool_decide (pid = q) then (host, port) else resolves q s
    | _ => resolves q s
    end.
Proof.
  destruct o as [pid h p|dumps connects m target|attempts pids]; cbn [net_step].
  - unfold register_process, resolves.
    cbn [connection_cache set_connection_cache]. case_bool_decide as E.
    + subst. by rewrite lookup_insert_eq.
    + by rewrite lookup_insert_ne.
  - apply resolves_send_message.
  - by destruct (discover_processes_spec pids attempts s) as (_ & _ & H & _).
Qed.

(** X24. Where messages go: after any calls of [register_process],
    [send_message] and [discover_processes], a frame is sent to the
    address of the last [register_process] for its target, else to the
    address the target had before, which in a fresh manager is
    [localhost], port 8000 plus the identifier; sending and discovery
    never change the address of any process. *)
Theorem last_registration_wins (ops : list NetOp) (pid : Z) (s : t) :
  resolves pid (net_run ops s) = default (resolves pid s) (registered pid ops) /\
  (get_process_address pid (net_run ops s)).1
  = default (resolves pid s) (registered pid ops) /\
  (forall dumps connects m,
     fst <$> (send_message dumps connects m pid (net_run ops s)).1.2
     = if (send_message dumps connects m pid (net_run ops s)).1.1
       then Some (default (resolves pid s) (registered pid ops))
       else None) /\
  (forall own host port,
     resolves pid (net_run ops (init own host port))
     = default ("localhost", 8000 + pid) (registered pid ops)).
Proof.
  assert (Hrun : forall s0 : t,
             resolves pid (net_run ops s0)
             = default (resolves pid s0) (registered pid ops)).
  { induction ops as [|o ops IH]; intros s0; [done|].
    unfold net_run in *. cbn [foldl registered]. rewrite IH, resolves_step.
    destruct (registered pid ops) as [address|]; [done|].
    destruct o as [pid' h p| |]; try done.
    cbn [default]. by case_bool_decide. }
  split; [apply Hrun|]. split; [|split; [|intros own host port; apply Hrun]].
  - destruct (resolves_get_process_address pid pid (net_run ops s)) as (-> & _).
    apply Hrun.
  - intros dumps connects m. unfold send_message.
    destruct (resolves_get_process_address pid pid (net_run ops s)) as (Ha & _).
    destruct (get_process_address pid (net_run ops s)) as [address s1].
    cbn [fst] in Ha. destruct connects; [|done].
    destruct (to_bytes _ 4); [|done]. cbn. rewrite <- Hrun. congruence.
Qed.

(** X25. What discovery reports: identifiers of the list it was
    given, in the order of the list; the manager's own identifier as
    often as the list has it, without any check; and it never changes
    the address of any process. *)
Theorem discovery_reports (attempts : nat -> list bool) (pids : list Z)
    (s : t) :
  (discover_processes attempts pids s).1 `sublist_of` pids /\
  filter (fun pid => pid = process_id s) (discover_processes attempts pids s).1
  = filter (fun pid => pid = process_id s) pids /\
  (forall q, resolves q (discover_processes attempts pids s).2 = resolves q s).
Proof.
  destruct (discover_processes_spec pids attempts s) as (H1 & H2 & H3 & _).
  done.
Qed.

End NetworkProperties.

(** ** The process *)

Section ProcessProperties.
Import Message Process.

#[local] Opaque uuid_str.

Lemma last_n_length {A} (n : nat) (l : list A) :
  length (last_n n l) = Nat.min n (length l).
Proof. unfold last_n. rewrite length_drop. lia. Qed.

Lemma last_n_all {A} (n : nat) (l : list A) :
  (length l <= n)%nat -> last_n n l = l.
Proof.
  intros H. unfold last_n. by replace (length l - n)%nat with 0%nat by lia.
Qed.

Lemma last_n_app_last_n {A} (n : nat) (l l' : list A) :
  last_n n (last_n n l ++ l') = last_n n (l ++ l').
Proof.
  destruct (decide (length l <= n)%nat) as [Hle|Hgt].
  { by rewrite (last_n_all n l). }
  unfold last_n. rewrite !length_app, length_drop.
  replace (length l - (length l - n) + length l' - n)%nat
    with (length l') by lia.
  replace (length l + length l' - n)%nat
    with ((length l - n) + length l')%nat by lia.
  rewrite <- drop_drop. by rewrite (drop_app_le l l' (length l - n)) by lia.
Qed.

Lemma deque_append_last_n {A} (x : A) (d : list A) :
  (length d <= maxlen)%nat ->
  deque_append maxlen x d = last_n maxlen (d ++ [x]).
Proof.
  intros H. unfold deque_append, last_n. rewrite length_app. cbn [length].
  destruct (length d <? maxlen)%nat eqn:E.
  - apply Nat.ltb_lt in E.
    by replace (length d + 1 - maxlen)%nat with 0%nat by lia.
  - apply Nat.ltb_ge in E.
    replace (length d + 1 - maxlen)%nat with 1%nat by lia.
    rewrite drop_app_le; [done|]. unfold maxlen in *. lia.
Qed.

(** The log after the entries [ls] are appended one by one. *)
Lemma appended_last_n (ls : list Event.t) :
  forall d : list Event.t,
    (length d <= maxlen)%nat ->
    foldl (fun d x => deque_append maxlen x d) d ls = last_n maxlen (d ++ ls).
Proof.
  induction ls as [|x ls IH]; intros d Hd.
  - cbn [foldl]. by rewrite app_nil_r, last_n_all.
  - cbn [foldl]. rewrite IH.
    + rewrite deque_append_last_n by done.
      by rewrite last_n_app_last_n, <- app_assoc.
    + rewrite deque_append_last_n, last_n_length by done. lia.
Qed.

Lemma log_event_log (now : time) (ty desc : string) (s : t) :
  event_log (log_event now ty desc s).2
  = deque_append maxlen (log_event now ty desc s).1 (event_log s).
Proof. done. Qed.

Lemma dispatch_log (e : Env) (events : list ReliableMulticast.Event) :
  forall (i j : nat) (s : t),
    event_log (dispatch e events i j s).1.1
    = foldl (fun d x => deque_append maxlen x d) (event_log s)
            (dispatch e events i j s).2.
Proof.
  induction events as [|ev events IH]; intros i j s; [done|].
  destruct ev as [m target|m|m]; cbn [dispatch].
  - unfold send_message_via_network.
    destruct (Network.send_message _ _ _ _ _) as [[success w] n].
    specialize (IH (S i) j (set_network_manager n s)).
    destruct (dispatch e events (S i) j _) as [[s2 ws] ls]. exact IH.
  - unfold on_message_delivered.
    pose proof (log_event_log (nows e j) "DELIVER"
      ("De P" +:+ str_int (sender_id (base m))
       +:+ " (T:" +:+ str_int (timestamp (base m))
       +:+ "): '" +:+ content (base m) +:+ "'") s) as Hl.
    destruct (log_event _ _ _ s) as [l s1]. cbn [fst snd] in Hl.
    specialize (IH i (S j) s1).
    destruct (dispatch e events i (S j) s1) as [[s2 ws] ls].
    cbn [fst snd foldl] in *. by rewrite IH, Hl.
  - unfold on_message_failed.
    pose proof (log_event_log (nows e j) "FAILED"
      ("Falha na entrega: '" +:+ content m
       +:+ "' para " +:+ str_list (recipients m)) s) as Hl.
    destruct (log_event _ _ _ s) as [l s1]. cbn [fst snd] in Hl.
    specialize (IH i (S j) s1).
    destruct (dispatch e events i (S j) s1) as [[s2 ws] ls].
    cbn [fst snd foldl] in *. by rewrite IH, Hl.
Qed.

Lemma add_discovered_log (online : list Z) :
  forall s : t, event_log (foldl add_discovered s online) = event_log s.
Proof.
  induction online as [|pid online IH]; intros s; [done|].
  cbn [foldl]. rewrite IH. unfold add_discovered.
  by destruct (bool_decide _ && bool_decide _).
Qed.

Lemma stop_log (e : Env) (j : nat) (s : t) :
  event_log (stop e j s).1
  = foldl (fun d x => deque_append maxlen x d) (event_log s) (stop e j s).2.
Proof. unfold stop. by destruct (running s). Qed.

Lemma step_log (e : Env) (o : Op) (s : t) :
  event_log (step e o s).1
  = foldl (fun d x => deque_append maxlen x d) (event_log s)
          (logged (step e o s).2).
Proof.
  destruct o as [known server_starts started| |content recipients u now
                |m u|now|process_range attempts]; cbn [step].
  - unfold start. destruct server_starts; [done|]. cbv zeta.
    match goal with
    | |- context [stop e 0 ?x] =>
        pose proof (stop_log e 0 x) as H; destruct (stop e 0 x) as [s1 ls]
    end.
    exact H.
  - pose proof (stop_log e 0 s) as H. destruct (stop e 0 s) as [s1 ls].
    exact H.
  - unfold send_multicast_message. destruct (running s); [|done].
    cbn [negb]. cbv zeta.
    match goal with
    | |- context [log_event ?n ?ty ?d s] =>
        pose proof (log_event_log n ty d s) as Hl;
        destruct (log_event n ty d s) as [l s1]
    end.
    cbn [fst snd] in Hl.
    destruct (ReliableMulticast.multicast _ _ _ _ _) as [[id engine] events].
    pose proof (dispatch_log e events 0 1 (set_reliable_multicast engine s1))
      as Hd.
    destruct (dispatch e events 0 1 _) as [[s2 ws] ls].
    cbn [fst snd logged foldl] in *. by rewrite Hd, <- Hl.
  - unfold handle_network_message.
    destruct (ReliableMulticast.handle_received_message _ _ _)
      as [engine events].
    pose proof (dispatch_log e events 0 0 (set_reliable_multicast engine s))
      as Hd.
    destruct (dispatch e events 0 0 _) as [[s2 ws] ls]. exact Hd.
  - unfold timeout_thread_round.
    destruct (ReliableMulticast.timeout_checker _ _) as [engine events].
    pose proof (dispatch_log e events 0 0 (set_reliable_multicast engine s))
      as Hd.
    destruct (dispatch e events 0 0 _) as [[s2 ws] ls]. exact Hd.
  - unfold discover_processes.
    destruct (Network.discover_processes _ _ _) as [online n].
    cbv zeta. unfold log_event, LamportClock.get_time.
    cbn [fst snd logged foldl event_log set_event_log].
    by rewrite add_discovered_log.
Qed.

Lemma run_log (ops : list (Env * Op)) :
  forall s : t,
    event_log (run ops s).1
    = foldl (fun d x => deque_append maxlen x d) (event_log s)
            (all_logged (run ops s).2).
Proof.
  induction ops as [|[e o] ops IH]; intros s; [done|].
  cbn [run]. pose proof (step_log e o s) as Hs.
  destruct (step e o s) as [s1 out]. specialize (IH s1).
  destruct (run ops s1) as [s2 outs]. cbn [fst snd] in *.
  unfold all_logged in *. cbn [flat_map]. by rewrite foldl_app, <- Hs.
Qed.

(** X26. The event log keeps the newest 1000 entries: after any run of
    calls, the log holds exactly the last 1000 of the entries it held
    before followed by those the run logged, oldest first; it never
    grows beyond 1000. *)
Theorem log_keeps_newest (ops : list (Env * Op)) (s : t) :
  (length (event_log s) <= maxlen)%nat ->
  event_log (run ops s).1
  = last_n maxlen (event_log s ++ all_logged (run ops s).2) /\
  (length (event_log (run ops s).1) <= maxlen)%nat.
Proof.
  intros Hlen. rewrite run_log, appended_last_n by done.
  split; [done|]. rewrite last_n_length. lia.
Qed.

(** X27. What [get_event_log] returns: the whole log when asked for
    nothing or for 0 entries, the last [n] entries (all of them when
    there are fewer) for a positive [n], and the log without its first
    [n] entries when asked for [-n]. *)
Theorem get_event_log_slices (s : t) :
  get_event_log None s = event_log s /\
  get_event_log (Some 0) s = event_log s /\
  (forall n : positive,
     get_event_log (Some (Z.pos n)) s = last_n (Pos.to_nat n) (event_log s)) /\
  (forall n : positive,
     get_event_log (Some (Z.neg n)) s = drop (Pos.to_nat n) (event_log s)).
Proof.
  split; [done|]. split; [done|]. split; intros n.
  - unfold get_event_log, slice_from, last_n.
    rewrite bool_decide_eq_false_2 by done. cbv zeta.
    rewrite (proj2 (Z.ltb_lt _ _)) by lia. f_equal. lia.
  - unfold get_event_log, slice_from.
    rewrite bool_decide_eq_false_2 by done. cbv zeta.
    rewrite (proj2 (Z.ltb_ge _ _)) by lia.
    destruct (decide (Pos.to_nat n <= length (event_log s))%nat).
    + f_equal. lia.
    + rewrite !drop_ge by lia. done.
Qed.

Lemma log_keeps_newest_witness :
  (length (event_log process0) <= maxlen)%nat /\
  event_log (run [(env0, OpStart (Some [1]) true 0%Q);
                  (env0, OpSendMulticast "hi" None 7 0%Q)] process0).1
  = last_n maxlen
      (event_log process0
       ++ all_logged (run [(env0, OpStart (Some [1]) true 0%Q);
                           (env0, OpSendMulticast "hi" None 7 0%Q)]
                          process0).2).
Proof.
  assert (H : (length (event_log process0) <= maxlen)%nat)
    by (unfold maxlen; cbn; lia).
  exact (conj H (proj1 (log_keeps_newest _ process0 H))).
Defined.

(** What the callbacks leave alone. *)
Lemma log_event_frame (now : time) (ty desc : string) (s : t) :
  let s' := (log_event now ty desc s).2 in
  reliable_multicast s' = reliable_multicast s /\
  network_manager s' = network_manager s /\
  running s' = running s /\
  known_processes s' = known_processes s /\
  process_id s' = process_id s.
Proof. done. Qed.

Lemma dispatch_frame (e : Env) (events : list ReliableMulticast.Event) :
  forall (i j : nat) (s : t),
    let s' := (dispatch e events i j s).1.1 in
    reliable_multicast s' = reliable_multicast s /\
    running s' = running s /\
    known_processes s' = known_processes s /\
    process_id s' = process_id s.
Proof.
  induction events as [|ev events IH]; intros i j s; [done|].
  destruct ev as [m target|m|m]; cbn [dispatch].
  - unfold send_message_via_network.
    destruct (Network.send_message _ _ _ _ _) as [[success w] n].
    specialize (IH (S i) j (set_network_manager n s)).
    destruct (dispatch e events (S i) j _) as [[s2 ws] ls]. exact IH.
  - unfold on_message_delivered.
    match goal with
    | |- context [log_event ?n ?ty ?d s] =>
        destruct (log_event_frame n ty d s) as (H1 & _ & H2 & H3 & H4);
        destruct (log_event n ty d s) as [l s1]
    end.
    cbn [snd] in *. specialize (IH i (S j) s1).
    destruct (dispatch e events i (S j) s1) as [[s2 ws] ls].
    cbn [fst] in *. destruct IH as (I1 & I2 & I3 & I4).
    repeat split; congruence.
  - unfold on_message_failed.
    match goal with
    | |- context [log_event ?n ?ty ?d s] =>
        destruct (log_event_frame n ty d s) as (H1 & _ & H2 & H3 & H4);
        destruct (log_event n ty d s) as [l s1]
    end.
    cbn [snd] in *. specialize (IH i (S j) s1).
    destruct (dispatch e events i (S j) s1) as [[s2 ws] ls].
    cbn [fst] in *. destruct IH as (I1 & I2 & I3 & I4).
    repeat split; congruence.
Qed.

(** Transmissions log nothing, and put at most one frame each on the
    wire. *)
Lemma dispatch_sends (e : Env) (m : AnyMessage) (targets : list Z) :
  forall (i j : nat) (s : t),
    (dispatch e (map (ReliableMulticast.Send m) targets) i j s).2 = [] /\
    (length (dispatch e (map (ReliableMulticast.Send m) targets) i j s).1.2
     <= length targets)%nat.
Proof.
  induction targets as [|target targets IH]; intros i j s.
  - cbn. split; [done|lia].
  - cbn [map dispatch]. unfold send_message_via_network.
    destruct (Network.send_message _ _ _ _ _) as [[success w] n].
    specialize (IH (S i) j (set_network_manager n s)).
    destruct (dispatch e _ (S i) j _) as [[s2 ws] ls].
    cbn [fst snd] in *. destruct IH as [-> Hlen]. split; [done|].
    rewrite length_app. destruct w; cbv [option_list option_rect]; cbn [length]; lia.
Qed.

(** X28. Sending needs a running process, and is logged before the
    clock ticks: on a process that is not running
    [send_multicast_message] raises and changes nothing; on a running
    one it returns the identifier drawn, files the message as pending,
    puts at most one frame per recipient on the wire, and logs one
    [SEND] entry, whose Lamport time is one less than the timestamp of
    the message sent. *)
Theorem send_is_logged_before_the_tick (e : Env) (content : string)
    (recipients : option (list Z)) (u : N) (now : time) (s : t) :
  let r := send_multicast_message e content recipients u now s in
  let m := multicast_message content recipients u (reliable_multicast s) in
  if running s then
    result r.2 = ReturnedId (uuid_str u) /\
    ReliableMulticast.pending_messages (reliable_multicast r.1) !! uuid_str u
    = Some (fresh_entry m now) /\
    (length (sent r.2)
     <= length (multicast_recipients recipients (reliable_multicast s)))%nat /\
    exists entry,
      logged r.2 = [entry] /\
      Event.event_type entry = "SEND" /\
      Event.lamport_time entry + 1 = timestamp m
  else r = (s, {| result := Raised; sent := []; logged := [] |}).
Proof.
  intros r m. subst r. unfold send_multicast_message.
  destruct (running s); [|done]. cbn [negb]. cbv zeta.
  match goal with
  | |- context [log_event ?n ?ty ?d s] =>
      destruct (log_event_frame n ty d s) as (Hrm & _);
      assert (Hty : Event.event_type (log_event n ty d s).1 = "SEND") by done;
      assert (Hlt : Event.lamport_time (log_event n ty d s).1
                    = ReliableMulticast.lamport_clock (reliable_multicast s))
        by done;
      destruct (log_event n ty d s) as [l s1]
  end.
  cbn [fst snd] in *. rewrite Hrm.
  destruct (multicast_spec content recipients u now (reliable_multicast s))
    as (Hid & Hev & Hpending & _).
  fold m in Hev, Hpending.
  destruct (ReliableMulticast.multicast _ _ _ _ _) as [[id engine] events].
  cbn [fst snd] in *. subst id events.
  destruct (dispatch_frame e
              (map (ReliableMulticast.Send (Multicast m))
                 (multicast_recipients recipients (reliable_multicast s)))
              0 1 (set_reliable_multicast engine s1)) as (Hrm2 & _).
  destruct (dispatch_sends e (Multicast m)
              (multicast_recipients recipients (reliable_multicast s))
              0 1 (set_reliable_multicast engine s1)) as (Hls & Hws).
  destruct (dispatch e _ 0 1 _) as [[s2 ws] ls].
  cbn [fst snd result sent logged reliable_multicast set_reliable_multicast]
    in *.
  subst ls. rewrite Hrm2, Hpending, lookup_insert_eq.
  split; [done|]. split; [done|]. split; [done|].
  exists l. split; [done|]. split; [done|]. rewrite Hlt. done.
Qed.

(** The engine keeps its identity and the processes it knows. *)
Lemma engine_step_known (o : ReliableMulticast.Op) (s : ReliableMulticast.t) :
  ReliableMulticast.process_id (ReliableMulticast.step o s).1
  = ReliableMulticast.process_id s /\
  ReliableMulticast.known_processes s
  ⊆ ReliableMulticast.known_processes (ReliableMulticast.step o s).1.
Proof.
  destruct (callbacks_step o s) as (_ & _ & H1).
  destruct (step_grows o s) as (_ & _ & H2 & _). done.
Qed.

Lemma add_known_fold (pid0 : Z) (l : list Z) :
  forall engine : ReliableMulticast.t,
    let engine' :=
      foldl (fun engine pid =>
               if bool_decide (pid <> pid0)
               then ReliableMulticast.add_known_process pid engine
               else engine) engine l in
    ReliableMulticast.process_id engine' = ReliableMulticast.process_id engine /\
    ReliableMulticast.known_processes engine
    ⊆ ReliableMulticast.known_processes engine' /\
    forall pid, pid ∈ l -> pid <> pid0 ->
      pid ∈ ReliableMulticast.known_processes engine'.
Proof.
  induction l as [|x l IH]; intros engine.
  - cbn. split; [done|]. split; [done|]. by intros pid ?%elem_of_nil.
  - cbn [foldl].
    set (engine1 := if bool_decide (x <> pid0)
                    then ReliableMulticast.add_known_process x engine
                    else engine).
    destruct (IH engine1) as (H1 & H2 & H3).
    assert (Hid : ReliableMulticast.process_id engine1
                  = ReliableMulticast.process_id engine)
      by (subst engine1; by case_bool_decide).
    assert (Hsub : ReliableMulticast.known_processes engine
                   ⊆ ReliableMulticast.known_processes engine1).
    { subst engine1. case_bool_decide; [|done].
      cbn [ReliableMulticast.add_known_process
           ReliableMulticast.set_known_processes
           ReliableMulticast.known_processes]. set_solver. }
    split; [congruence|]. split; [set_solver|].
    intros pid [->|Hin]%elem_of_cons Hne; [|by apply H3].
    apply H2. subst engine1. rewrite bool_decide_eq_true_2 by done.
    cbn [ReliableMulticast.add_known_process
         ReliableMulticast.set_known_processes
         ReliableMulticast.known_processes]. set_solver.
Qed.

Lemma add_discovered_linked (online : list Z) :
  forall s : t,
    linked s ->
    linked (foldl add_discovered s online) /\
    running (foldl add_discovered s online) = running s.
Proof.
  induction online as [|pid online IH]; intros s Hl; [done|].
  cbn [foldl].
  assert (Hl1 : linked (add_discovered s pid)
                /\ running (add_discovered s pid) = running s).
  { unfold add_discovered.
    destruct (bool_decide _ && bool_decide _) eqn:E; [|done].
    split; [|done]. destruct Hl as [Hid Hk]. split; [exact Hid|].
    cbn [running known_processes process_id reliable_multicast
         set_reliable_multicast set_known_processes
         ReliableMulticast.add_known_process
         ReliableMulticast.set_known_processes
         ReliableMulticast.known_processes].
    intros Hr q [Hq| ->%list_elem_of_singleton]%elem_of_app Hne.
    - specialize (Hk Hr q Hq Hne). set_solver.
    - set_solver. }
  destruct Hl1 as [Hl1 Hr1]. destruct (IH _ Hl1) as [H1 H2].
  split; [done|congruence].
Qed.

Lemma linked_engine_step (e : Env) (o : ReliableMulticast.Op) (i j : nat)
    (s : t) :
  linked s ->
  linked (dispatch e (ReliableMulticast.step o (reliable_multicast s)).2 i j
            (set_reliable_multicast
               (ReliableMulticast.step o (reliable_multicast s)).1 s)).1.1.
Proof.
  intros [Hid Hk].
  destruct (engine_step_known o (reliable_multicast s)) as [Hpid Hsub].
  destruct (dispatch_frame e
              (ReliableMulticast.step o (reliable_multicast s)).2 i j
              (set_reliable_multicast
                 (ReliableMulticast.step o (reliable_multicast s)).1 s))
    as (H1 & H2 & H3 & H4).
  unfold linked. rewrite H1, H2, H3, H4.
  cbn [reliable_multicast running known_processes process_id
       set_reliable_multicast].
  split; [congruence|]. intros Hr q Hq Hne. specialize (Hk Hr q Hq Hne).
  set_solver.
Qed.

Lemma linked_step (e : Env) (o : Op) (s : t) : linked s -> linked (step e o s).1.
Proof.
  intros Hl.
  destruct o as [known server_starts started| |content recipients u now
                |m u|now|process_range attempts]; cbn [step].
  - unfold start. cbv zeta. destruct server_starts.
    + destruct Hl as [Hid _].
      match goal with
      | |- context [foldl ?f ?a ?l] =>
          destruct (add_known_fold (process_id s) l a) as (H1 & H2 & H3)
      end.
      split.
      * cbn [fst]. unfold log_event, LamportClock.get_time.
        cbn [fst snd reliable_multicast set_event_log set_running
             set_reliable_multicast process_id set_known_processes
             set_start_time known_processes] in *. congruence.
      * intros _ q Hq Hne. unfold log_event, LamportClock.get_time in *.
        cbn [fst snd reliable_multicast set_event_log set_running
             set_reliable_multicast process_id set_known_processes
             set_start_time known_processes] in *. by apply H3.
    + unfold stop. destruct Hl as [Hid Hk].
      cbn [running set_known_processes set_start_time].
      destruct (running s) eqn:Hr; cbn [negb fst]; (split; [done|]).
      * intros Hf. discriminate Hf.
      * cbn [running set_known_processes set_start_time]. rewrite Hr.
        intros Hf. discriminate Hf.
  - unfold stop. destruct Hl as [Hid Hk].
    destruct (running s) eqn:Hr; cbn [negb fst]; (split; [done|]).
    + intros Hf. discriminate Hf.
    + rewrite Hr. intros Hf. discriminate Hf.
  - unfold send_multicast_message. destruct (running s) eqn:Hr; [|done].
    cbn [negb]. cbv zeta.
    match goal with
    | |- context [log_event ?n ?ty ?d s] =>
        destruct (log_event_frame n ty d s) as (F1 & _ & F2 & F3 & F4);
        destruct (log_event n ty d s) as [l s1]
    end.
    cbn [snd] in *.
    assert (Hl1 : linked s1).
    { unfold linked in *. rewrite F1, F2, F3, F4. exact Hl. }
    pose proof (linked_engine_step e
                  (ReliableMulticast.OpMulticast content recipients u now)
                  0 1 s1 Hl1) as H.
    rewrite step_multicast in H. cbn [fst snd] in H.
    destruct (ReliableMulticast.multicast _ _ _ _ _) as [[id engine] events].
    cbn [fst snd] in H.
    destruct (dispatch e events 0 1 _) as [[s2 ws] ls]. exact H.
  - unfold handle_network_message.
    pose proof (linked_engine_step e (ReliableMulticast.OpReceive m u)
                  0 0 s Hl) as H.
    cbn [ReliableMulticast.step] in H.
    destruct (ReliableMulticast.handle_received_message _ _ _)
      as [engine events].
    cbn [fst snd] in H.
    destruct (dispatch e events 0 0 _) as [[s2 ws] ls]. exact H.
  - unfold timeout_thread_round.
    pose proof (linked_engine_step e (ReliableMulticast.OpTimeout now)
                  0 0 s Hl) as H.
    cbn [ReliableMulticast.step] in H.
    destruct (ReliableMulticast.timeout_checker _ _) as [engine events].
    cbn [fst snd] in H.
    destruct (dispatch e events 0 0 _) as [[s2 ws] ls]. exact H.
  - unfold discover_processes. cbv zeta.
    destruct (Network.discover_processes _ _ _) as [online n].
    destruct (add_discovered_linked online (set_network_manager n s) Hl)
      as [H _].
    exact H.
Qed.

Lemma linked_run (ops : list (Env * Op)) :
  forall s : t, linked s -> linked (run ops s).1.
Proof.
  induction ops as [|[e o] ops IH]; intros s Hl; [done|].
  cbn [run]. pose proof (linked_step e o s Hl) as H1.
  destruct (step e o s) as [s1 out]. specialize (IH s1 H1).
  by destruct (run ops s1) as [s2 outs].
Qed.

(** X29. The processes a running process knows are the ones its
    multicasts reach: after any run of calls on a fresh process, while
    it runs, every process on its list other than itself (from [start]
    or from discovery) is among the recipients of a multicast sent
    without recipient list, and the process itself is not. *)
Theorem known_processes_are_recipients (ops : list (Env * Op))
    (pid : Z) (host : string) (port : option Z) (q : Z) :
  let s := (run ops (init pid host port)).1 in
  running s = true ->
  q ∈ known_processes s ->
  (q <> process_id s ->
   q ∈ multicast_recipients None (reliable_multicast s)) /\
  (process_id s ∉ multicast_recipients None (reliable_multicast s)).
Proof.
  intros s Hr Hq.
  assert (Hl : linked s) by (apply linked_run; by split).
  destruct Hl as [Hid Hk]. unfold multicast_recipients.
  rewrite !elem_of_elements, Hid. split; [|set_solver].
  intros Hne. specialize (Hk Hr q Hq Hne). set_solver.
Qed.

Lemma known_processes_are_recipients_witness :
  running (run [(env0, OpStart (Some [1; 2]) true 0%Q)] process0).1 = true /\
  2 ∈ known_processes (run [(env0, OpStart (Some [1; 2]) true 0%Q)] process0).1 /\
  2 ∈ multicast_recipients None
        (reliable_multicast
           (run [(env0, OpStart (Some [1; 2]) true 0%Q)] process0).1).
Proof.
  assert (Hr : running (run [(env0, OpStart (Some [1; 2]) true 0%Q)]
                          process0).1 = true) by reflexivity.
  assert (Hq : 2 ∈ known_processes
                     (run [(env0, OpStart (Some [1; 2]) true 0%Q)]
                        process0).1).
  { cbn. set_solver. }
  split; [exact Hr|]. split; [exact Hq|].
  apply (known_processes_are_recipients
           [(env0, OpStart (Some [1; 2]) true 0%Q)] 0 "localhost" None 2 Hr Hq).
  cbn. discriminate.
Defined.

(** X30. From one process to the log of another: a running process
    that multicasts to one recipient whose connection is made puts one
    frame on the wire, addressed to that recipient; when its bytes
    arrive, in whatever segments, at a process that has a settled engine
    and has not received the message before, that process's
    [_handle_client] decodes the same message, and handling it logs one
    [DELIVER] entry that names the sender, the timestamp and the
    content, at a Lamport time two above the larger of the receiver's
    clock and the timestamp. *)
Theorem multicast_end_to_end (eA eB : Env)
    (loads : Network.bytes -> option json) (content : string) (target : Z)
    (uA uB uC : N) (now : time) (A B : t) :
  let m :=
    Multicast (multicast_message content (Some [target]) uA
                 (reliable_multicast A)) in
  running A = true ->
  connects eA 0%nat = true ->
  loads (dumps eA (to_json m)) = Some (to_json m) ->
  dumps eA (to_json m) <> [] ->
  (N.of_nat (length (dumps eA (to_json m))) < 2 ^ 32)%N ->
  Network.on_message_received (network_manager B) = true ->
  ReliableMulticast.on_message_delivered (reliable_multicast B) = true ->
  settled (reliable_multicast B) ->
  (uuid_str uA
     ∉ dom (ReliableMulticast.received_messages (reliable_multicast B))) ->
  exists frame,
    sent (send_multicast_message eA content (Some [target]) uA now A).2
    = [(resolves target (network_manager A), frame)] /\
    (forall segs : list Network.bytes,
       Forall (fun seg => seg <> []) segs ->
       concat segs = frame ->
       Network.handle_client loads uB segs (network_manager B)
       = Network.Received m) /\
    exists entry,
      logged (handle_network_message eB m uC B).2 = [entry] /\
      Event.event_type entry = "DELIVER" /\
      Event.description entry
      = "De P"
        +:+ str_int (ReliableMulticast.process_id (reliable_multicast A))
        +:+ " (T:"
        +:+ str_int
              (ReliableMulticast.lamport_clock (reliable_multicast A) + 1)
        +:+ "): '" +:+ content +:+ "'" /\
      Event.lamport_time entry
      = Z.max (ReliableMulticast.lamport_clock (reliable_multicast B))
              (ReliableMulticast.lamport_clock (reliable_multicast A) + 1)
        + 2.
Proof.
  intros m Hrun Hconn Hcodec Hne Hsize Hcb Hdel Hsettled Hnew.
  exists (Network.big_endian 4 (N.of_nat (length (dumps eA (to_json m))))
          ++ dumps eA (to_json m)).
  split; [|split].
  - unfold send_multicast_message. rewrite Hrun. cbn [negb]. cbv zeta.
    match goal with
    | |- context [log_event ?n ?ty ?d A] =>
        destruct (log_event_frame n ty d A) as (Hrm & Hnm & _);
        destruct (log_event n ty d A) as [l s1]
    end.
    cbn [snd] in Hrm, Hnm. rewrite Hrm.
    destruct (multicast_spec content (Some [target]) uA now
                (reliable_multicast A)) as (_ & Hev & _).
    destruct (ReliableMulticast.multicast _ _ _ _ _) as [[id engine] events].
    cbn [fst snd] in Hev. subst events.
    cbn [multicast_recipients map dispatch]. unfold send_message_via_network.
    rewrite Hconn. cbn [network_manager set_reliable_multicast]. rewrite Hnm.
    pose proof (send_message_frame (dumps eA) m target (network_manager A)
                  Hsize) as Hframe.
    fold m.
    destruct (Network.send_message (dumps eA) true m target
                (network_manager A)) as [[success w] n].
    cbn [fst] in Hframe. injection Hframe as -> ->. done.
  - intros segs Hsegs Hcat.
    apply (handle_client_reads_frame loads uB m (dumps eA (to_json m))
             (network_manager B) segs []); [done|done|done| |done|done|].
    + by apply from_json_multicast, MulticastMessage_new_invariant.
    + by rewrite app_nil_r.
  - unfold handle_network_message.
    rewrite first_receipt_settled;
      [|done|done|by cbn [base m]; rewrite multicast_message_id].
    unfold ReliableMulticast.call_delivered. rewrite Hdel.
    cbn [dispatch]. unfold send_message_via_network.
    destruct (Network.send_message _ _ _ _ _) as [[success w] n].
    eexists. split; [reflexivity|]. split; [reflexivity|].
    split; [reflexivity|].
    cbn [Event.lamport_time reliable_multicast set_network_manager
         set_reliable_multicast after_first_receipt
         ReliableMulticast.lamport_clock ReliableMulticast.set_lamport_clock].
    change (timestamp (base m))
      with (ReliableMulticast.lamport_clock (reliable_multicast A) + 1).
    lia.
Qed.

Lemma multicast_end_to_end_witness :
  running started0 = true /\
  settled (reliable_multicast process1) /\
  exists frame,
    sent (send_multicast_message env0 "hi" (Some [1]) 7 0%Q started0).2
    = [(resolves 1 (network_manager started0), frame)] /\
    (forall segs : list Network.bytes,
       Forall (fun seg => seg <> []) segs ->
       concat segs = frame ->
       Network.handle_client hello_loads 3 segs (network_manager process1)
       = Network.Received hello) /\
    exists entry,
      logged (handle_network_message env0 hello 9 process1).2 = [entry] /\
      Event.event_type entry = "DELIVER" /\
      Event.description entry
      = "De P"
        +:+ str_int (ReliableMulticast.process_id (reliable_multicast started0))
        +:+ " (T:"
        +:+ str_int
              (ReliableMulticast.lamport_clock (reliable_multicast started0)
               + 1)
        +:+ "): '" +:+ "hi" +:+ "'" /\
      Event.lamport_time entry
      = Z.max (ReliableMulticast.lamport_clock (reliable_multicast process1))
              (ReliableMulticast.lamport_clock (reliable_multicast started0)
               + 1)
        + 2.
Proof.
  assert (Hrun : running started0 = true) by reflexivity.
  assert (Hs : settled (reliable_multicast process1))
    by apply (settled_init 1 0).
  split; [exact Hrun|]. split; [exact Hs|].
  apply (multicast_end_to_end env0 env0 hello_loads "hi" 1 7 3 9 0%Q
           started0 process1 Hrun eq_refl eq_refl).
  - discriminate.
  - reflexivity.
  - reflexivity.
  - reflexivity.
  - exact Hs.
  - cbn. rewrite dom_empty_L. apply not_elem_of_empty.
Defined.

End ProcessProperties.
